(** * Post management single-page application: router, storage, data layer
      and helpers

    A shallow embedding of [js/utils/Router.js], of the [StorageService]
    module of [js/app.js], of [ApiService], of the text helpers of
    [js/utils/Helpers.js], of the form validation of [LoginViewModel] and of
    the count of posts of [AnalyticsViewModel], followed by the properties
    the specification states about them and by further properties of the
    code.

    Conventions of the embedding.
    - JSON data are the inductive [json]; numbers are integers ([Z]), as
      identifiers and [Date.now()] timestamps are, in the range where
      JavaScript numbers are exact.  A plain object holding data is the
      finite map of its own properties.  [__proto__] can be one of them, as
      in an object [JSON.parse] has made; but assigning to that name stores
      nothing in an object literal, where it reaches the setter of
      [Object.prototype].  What an object inherits from is not part of the
      map.
    - A string is the sequence of its UTF-8 bytes; the helpers, which count
      and cut characters, see it as the sequence of its UTF-16 code units.
    - A function that may raise runs in the monad [M S]: it takes the
      state [S] and yields a completion (a value or a thrown error) and the
      new state.  A promise chain is run to its settled state: a resolved
      promise is a normal completion, a rejected one a thrown error;
      [.then] is sequencing and [.catch] is [try_catch].  Where the code
      treats what a function throws and the rejection of the promise it
      returns differently, as [retryRequest] does, the two are kept apart.
    - Route handlers and navigation hooks are functions of the application:
      they act on the browser and on the application's own state, and do not
      call back into the router while it runs them.
    - The router's listener is described run by run; the browser decides
      when it is called. *)

From stdpp Require Import base option list gmap strings pretty.
From Stdlib Require Import ZArith Lia Ascii.

Set Warnings "-register-all".

(** ** JavaScript values *)

Module JS.

Inductive json :=
| JNull
| JBool (b : bool)
| JNum (z : Z)
| JStr (s : string)
| JArr (l : list json)
| JObj (m : gmap string json).

(** A value handed to the services: JSON data, [undefined], or a plain
    object whose graph contains a cycle (which [JSON.stringify] rejects). *)
Inductive jsvalue :=
| Undefined
| Data (j : json)
| CyclicObject.

Inductive number := NaN | Num (z : Z).

Inductive error_name :=
| Error | TypeError | SyntaxError | URIError | QuotaExceededError | SecurityError.

Record exn := mkExn { name : error_name; message : string }.

Inductive completion (A : Type) :=
| Normal (a : A)
| Throw (e : exn).
Arguments Normal {A} a.
Arguments Throw {A} e.

Definition null : jsvalue := Data JNull.

(** ToBoolean *)
Definition truthy (j : json) : bool :=
  match j with
  | JNull => false
  | JBool b => b
  | JNum z => negb (z =? 0)%Z
  | JStr s => negb (String.eqb s "")
  | JArr _ | JObj _ => true
  end.

Definition truthy_value (v : jsvalue) : bool :=
  match v with
  | Undefined => false
  | Data j => truthy j
  | CyclicObject => true
  end.

(** [o.k] for the data field names the services read ([timestamp], [data],
    [id]), none of which is a built-in member of strings, arrays, numbers or
    booleans.  Reading a property of [null] raises. *)
Definition get_prop (j : json) (k : string) : completion jsvalue :=
  match j with
  | JNull => Throw (mkExn TypeError "Cannot read properties of null")
  | JObj m => Normal (match m !! k with Some v => Data v | None => Undefined end)
  | _ => Normal Undefined
  end.

(** Built-in coercions of strings whose full definition (the numeric string
    grammar, UTF-16 indexing) lies outside this development.  Every result
    below holds whatever they return. *)
Class Builtins := {
  StringToNumber : string → number;
  ArrayToString : list json → string;
  StringOwnProperties : string → gmap string json;
  parseInt_string : string → number
}.

Section coercions.
Context `{Builtins}.

(** ToNumber *)
Definition ToNumber (v : jsvalue) : number :=
  match v with
  | Undefined => NaN
  | Data JNull => Num 0
  | Data (JBool b) => Num (if b then 1 else 0)
  | Data (JNum z) => Num z
  | Data (JStr s) => StringToNumber s
  | Data (JArr l) => StringToNumber (ArrayToString l)
  | Data (JObj _) => NaN
  | CyclicObject => NaN
  end.

(** The own enumerable properties [Object.assign] copies from a source. *)
Definition own_properties (v : jsvalue) : gmap string json :=
  match v with
  | Data (JObj m) => m
  | Data (JArr l) => list_to_map (imap (λ i x, (pretty i, x)) l)
  | Data (JStr s) => StringOwnProperties s
  | _ => ∅
  end.

(** [target[key] = value] on an object literal [target], which inherits
    from [Object.prototype] and has no property [__proto__] of its own, for a
    value that is a string or a number: the name [__proto__] reaches the
    setter of [Object.prototype], which ignores such a value. *)
Definition assign {V} (key : string) (value : V) (target : gmap string V)
    : gmap string V :=
  if String.eqb key "__proto__" then target else <[key := value]> target.

(** What the target of [Object.assign] inherits from: [Object.prototype],
    as every object literal does, or what an assignment to [__proto__] has
    put in its place. *)
Inductive prototype :=
| Object_prototype
| Null_prototype
| Data_prototype (j : json).

(** [target.__proto__ = value] on a target given by its own properties and
    what it inherits from.  The target's own property of that name, or one
    of an object it inherits from, is a data property, and the value is
    stored in the target; so it is when the target inherits from nothing.
    Otherwise the name reaches the setter of [Object.prototype], which makes
    an object or [null] what the target inherits from and ignores any other
    value. *)
Definition assign_proto (value : json) (target : gmap string json * prototype)
    : gmap string json * prototype :=
  let '(own, proto) := target in
  let stored := (<["__proto__" := value]> own, proto) in
  let inherited :=
    (own, match value with
          | JObj _ | JArr _ => Data_prototype value
          | JNull => Null_prototype
          | _ => proto
          end) in
  match own !! "__proto__", proto with
  | Some _, _ => stored
  | None, Null_prototype => stored
  | None, Data_prototype (JObj m) =>
      match m !! "__proto__" with
      | Some _ => stored
      | None => inherited
      end
  | None, _ => inherited
  end.

(** [Object.assign] assigns the own properties of a source to the target
    one by one.  Only the assignment of [__proto__] depends on what the
    target inherits from or changes it, so the other properties are taken
    together. *)
Definition assign_source (target : gmap string json * prototype) (src : jsvalue)
    : gmap string json * prototype :=
  let properties := own_properties src in
  let target := (delete "__proto__" properties ∪ target.1, target.2) in
  match properties !! "__proto__" with
  | Some value => assign_proto value target
  | None => target
  end.

(** [Object.assign({}, a, b)]: later sources overwrite earlier ones.  The
    result is given by its own properties; what it inherits from is not
    part of a [json]. *)
Definition Object_assign (sources : list jsvalue) : json :=
  JObj (foldl assign_source (∅, Object_prototype) sources).1.

End coercions.

Definition js_sub (a b : number) : number :=
  match a, b with
  | Num x, Num y => Num (x - y)
  | _, _ => NaN
  end.

Definition js_gt (a b : number) : bool :=
  match a, b with
  | Num x, Num y => (y <? x)%Z
  | _, _ => false
  end.

(** ToString of a number *)
Definition ToString (n : number) : string :=
  match n with
  | NaN => "NaN"
  | Num z => pretty z
  end.

(** [parseInt(n)] for a number [n]: the argument is made a string, and the
    string is read. *)
Definition parseInt `{Builtins} (n : number) : number :=
  parseInt_string (ToString n).

(** [v === n] for a number [n]; [NaN] equals nothing. *)
Definition strict_eq_number (v : jsvalue) (n : number) : bool :=
  match v, n with
  | Data (JNum a), Num b => (a =? b)%Z
  | _, _ => false
  end.

(** [v === false] *)
Definition strict_eq_false (v : jsvalue) : bool :=
  match v with
  | Data (JBool false) => true
  | _ => false
  end.

(** [x || d] for an optional numeric argument: [undefined] and [0] both
    take the default. *)
Definition or_default (x : option Z) (d : Z) : Z :=
  match x with
  | None => d
  | Some z => if (z =? 0)%Z then d else z
  end.

(** *** State and exceptions *)

Definition M (S A : Type) : Type := S → completion A * S.

Definition ret {S A} (a : A) : M S A := λ s, (Normal a, s).

Definition bind {S A B} (m : M S A) (k : A → M S B) : M S B :=
  λ s, match m s with
       | (Normal a, s') => k a s'
       | (Throw e, s') => (Throw e, s')
       end.

Definition throw {S A} (e : exn) : M S A := λ s, (Throw e, s).

(** [try { m } catch (error) { h error }]: what [m] did to the state before
    it raised stays done. *)
Definition try_catch {S A} (m : M S A) (h : exn → M S A) : M S A :=
  λ s, match m s with
       | (Normal a, s') => (Normal a, s')
       | (Throw e, s') => h e s'
       end.

Definition liftc {S A} (c : completion A) : M S A := λ s, (c, s).

#[global] Instance M_ret S : MRet (M S) := λ A, @ret S A.
#[global] Instance M_bind S : MBind (M S) := λ A B k m, @bind S A B m k.

End JS.

Export JS.

(** ** The browser: storage, clock, console, network, location

    Everything the page can observe or change outside the router's own
    variables.  [app] is the application's own state (its view models), which
    route handlers and navigation hooks read and write. *)

Module Browser.

(** A string kept in [localStorage], or received as a response body, seen
    through what [JSON.parse] makes of it. *)
Inductive text :=
| Text (j : json)     (** a JSON text that parses to [j] *)
| Blank               (** the empty string *)
| Unparsable.         (** any other string: [JSON.parse] raises *)

(** What the store does when accessed. *)
Inductive condition :=
| Healthy             (** every operation succeeds *)
| QuotaExceeded       (** writes raise, reads and removals succeed *)
| Unavailable.        (** every access raises *)

Inductive level := LInfo | LWarn | LError.

Record request := mkRequest {
  url : string;
  method : string;
  body : option text
}.

Record response := mkResponse {
  ok : bool;
  status : Z;
  statusText : string;
  payload : text
}.

Record env (App : Type) := mkEnv {
  ls_items : gmap string text;        (** [localStorage] *)
  ls_condition : condition;
  now : Z;                            (** [Date.now()] *)
  console : list (level * string);    (** oldest entry first *)
  network : request → completion response;
  location_hash : string;             (** [window.location.hash] *)
  history : list string;              (** earlier session-history entries *)
  pending : nat;                      (** changes of fragment made so far *)
  document_title : string;
  timers : list Z;                    (** delays given to [setTimeout] *)
  app : App
}.
Arguments mkEnv {App}.
Arguments ls_items {App}.
Arguments ls_condition {App}.
Arguments now {App}.
Arguments console {App}.
Arguments network {App}.
Arguments location_hash {App}.
Arguments history {App}.
Arguments pending {App}.
Arguments document_title {App}.
Arguments timers {App}.
Arguments app {App}.

Section primitives.
Context {App : Type}.
Abbreviation env := (env App).

Definition with_items (f : gmap string text → gmap string text) (e : env) : env :=
  mkEnv (f (ls_items e)) (ls_condition e) (now e) (console e) (network e)
        (location_hash e) (history e) (pending e) (document_title e) (timers e) (app e).

Definition with_condition (c : condition) (e : env) : env :=
  mkEnv (ls_items e) c (now e) (console e) (network e)
        (location_hash e) (history e) (pending e) (document_title e) (timers e) (app e).

Definition with_now (t : Z) (e : env) : env :=
  mkEnv (ls_items e) (ls_condition e) t (console e) (network e)
        (location_hash e) (history e) (pending e) (document_title e) (timers e) (app e).

Definition with_console (f : list (level * string) → list (level * string)) (e : env) : env :=
  mkEnv (ls_items e) (ls_condition e) (now e) (f (console e)) (network e)
        (location_hash e) (history e) (pending e) (document_title e) (timers e) (app e).

Definition with_location (h : string) (hist : list string) (p : nat) (e : env) : env :=
  mkEnv (ls_items e) (ls_condition e) (now e) (console e) (network e)
        h hist p (document_title e) (timers e) (app e).

Definition with_title (t : string) (e : env) : env :=
  mkEnv (ls_items e) (ls_condition e) (now e) (console e) (network e)
        (location_hash e) (history e) (pending e) t (timers e) (app e).

Definition with_timer (d : Z) (e : env) : env :=
  mkEnv (ls_items e) (ls_condition e) (now e + Z.max 0 d)%Z (console e) (network e)
        (location_hash e) (history e) (pending e) (document_title e)
        (timers e ++ [d]) (app e).

(** [console.info], [console.warn], [console.error]: the entry keeps the
    level and the leading message. *)
Definition console_log (l : level) (msg : string) : M env unit :=
  λ e, (Normal tt, with_console (λ c, c ++ [(l, msg)]) e).

Definition Date_now : M env Z := λ e, (Normal (now e), e).

(** [JSON.stringify(value)], as the string [localStorage.setItem] then
    stores: for [undefined] that is the string ["undefined"], which is not a
    JSON text. *)
Definition JSON_stringify (v : jsvalue) : completion text :=
  match v with
  | Data j => Normal (Text j)
  | Undefined => Normal Unparsable
  | CyclicObject => Throw (mkExn TypeError "Converting circular structure to JSON")
  end.

Definition JSON_parse (t : text) : completion json :=
  match t with
  | Text j => Normal j
  | Blank | Unparsable => Throw (mkExn SyntaxError "Unexpected token")
  end.

(** Whether a stored string is truthy, that is, non-empty. *)
Definition text_truthy (t : text) : bool :=
  match t with
  | Blank => false
  | Text _ | Unparsable => true
  end.

Definition localStorage_getItem (key : string) : M env (option text) :=
  λ e, match ls_condition e with
       | Unavailable => (Throw (mkExn SecurityError "The operation is insecure"), e)
       | _ => (Normal (ls_items e !! key), e)
       end.

Definition localStorage_setItem (key : string) (t : text) : M env unit :=
  λ e, match ls_condition e with
       | Unavailable => (Throw (mkExn SecurityError "The operation is insecure"), e)
       | QuotaExceeded => (Throw (mkExn QuotaExceededError "The quota has been exceeded"), e)
       | Healthy => (Normal tt, with_items (insert key t) e)
       end.

Definition localStorage_removeItem (key : string) : M env unit :=
  λ e, match ls_condition e with
       | Unavailable => (Throw (mkExn SecurityError "The operation is insecure"), e)
       | _ => (Normal tt, with_items (delete key) e)
       end.

Definition localStorage_clear : M env unit :=
  λ e, match ls_condition e with
       | Unavailable => (Throw (mkExn SecurityError "The operation is insecure"), e)
       | _ => (Normal tt, with_items (λ _, ∅) e)
       end.

(** The keys [localStorage.key(0)], ..., [localStorage.key(length - 1)], in
    the order of the store. *)
Definition localStorage_keys : M env (list string) :=
  λ e, match ls_condition e with
       | Unavailable => (Throw (mkExn SecurityError "The operation is insecure"), e)
       | _ => (Normal (map_to_list (ls_items e)).*1, e)
       end.

(** [fetch(url, options)] settles as the network decides. *)
Definition fetch (req : request) : M env response :=
  λ e, (network e req, e).

(** [response.json()] *)
Definition response_json (r : response) : M env json :=
  liftc (JSON_parse (payload r)).

(** [window.location.hash = h]: a new history entry and a change of
    fragment for the listeners, unless the fragment is already [h].  Fragments are kept as given;
    the percent-encoding the URL parser applies to unsafe characters is not
    modelled. *)
Definition location_assign (h : string) : M env unit :=
  λ e, if String.eqb (location_hash e) h then (Normal tt, e)
       else (Normal tt, with_location h (location_hash e :: history e) (S (pending e)) e).

(** [window.location.replace(h)]: as above, without a new history entry. *)
Definition location_replace (h : string) : M env unit :=
  λ e, if String.eqb (location_hash e) h then (Normal tt, e)
       else (Normal tt, with_location h (history e) (S (pending e)) e).

Definition get_location_hash : M env string := λ e, (Normal (location_hash e), e).

Definition set_document_title (t : string) : M env unit :=
  λ e, (Normal tt, with_title t e).

(** [new Promise(resolve => setTimeout(resolve, delay))], awaited: the clock
    moves on by the delay, a negative delay counting as none. *)
Definition sleep (delay : Z) : M env unit :=
  λ e, (Normal tt, with_timer delay e).

End primitives.

End Browser.

Export Browser.

(** ** StorageService ([js/app.js]) *)

Module StorageService.

Section StorageService.
Context {App : Type}.
Abbreviation env := (env App).

Definition setItem (key : string) (value : jsvalue) : M env unit :=
  try_catch
    (t ← liftc (JSON_stringify value);
     localStorage_setItem key t)
    (λ error, console_log LError "Error saving to localStorage:").

Definition getItem (key : string) : M env json :=
  try_catch
    (item ← localStorage_getItem key;
     match item with
     | Some t => if text_truthy t then liftc (JSON_parse t) else mret JNull
     | None => mret JNull
     end)
    (λ error, console_log LError "Error reading from localStorage:";; mret JNull).

Definition removeItem (key : string) : M env unit :=
  try_catch
    (localStorage_removeItem key)
    (λ error, console_log LError "Error removing from localStorage:").

Definition clear : M env unit :=
  try_catch
    localStorage_clear
    (λ error, console_log LError "Error clearing localStorage:").

Definition USER_SESSION_KEY : string := "user_session".

Definition setUser (userData : jsvalue) : M env unit :=
  setItem USER_SESSION_KEY userData.

Definition getUser : M env json := getItem USER_SESSION_KEY.

Definition removeUser : M env unit := removeItem USER_SESSION_KEY.

Definition isLoggedIn : M env bool :=
  user ← getUser;
  mret (match user with JNull => false | _ => true end).

Definition POSTS_CACHE_KEY : string := "posts_cache".
Definition EDITED_POST_PREFIX : string := "edited_post_".

(** The object literal [{ data: d, timestamp: t }]; [JSON.stringify] omits
    a property whose value is [undefined]. *)
Definition stamped (d : jsvalue) (t : Z) : jsvalue :=
  match d with
  | Data j => Data (JObj (<["data" := j]> {["timestamp" := JNum t]}))
  | Undefined => Data (JObj {["timestamp" := JNum t]})
  | CyclicObject => CyclicObject
  end.

Definition cachePosts (posts : jsvalue) : M env unit :=
  t ← Date_now;
  setItem POSTS_CACHE_KEY (stamped posts t).

Definition oneHour : Z := 60 * 60 * 1000.

Definition getCachedPosts `{Builtins} : M env jsvalue :=
  cache ← getItem POSTS_CACHE_KEY;
  if negb (truthy cache) then mret null
  else
    t ← Date_now;
    timestamp ← liftc (get_prop cache "timestamp");
    if js_gt (js_sub (Num t) (ToNumber timestamp)) (Num oneHour)
    then removeItem POSTS_CACHE_KEY;; mret null
    else liftc (get_prop cache "data").

Definition saveEditedPost (postId : number) (postData : jsvalue) : M env unit :=
  let key := EDITED_POST_PREFIX +:+ ToString postId in
  t ← Date_now;
  setItem key (stamped postData t).

Definition getEditedPost (postId : number) : M env jsvalue :=
  let key := EDITED_POST_PREFIX +:+ ToString postId in
  editedData ← getItem key;
  if truthy editedData then liftc (get_prop editedData "data") else mret null.

Definition isPostEdited (postId : number) : M env bool :=
  edited ← getEditedPost postId;
  mret (match edited with Data JNull => false | _ => true end).

(** The rest of [key] when it starts with [prefix]:
    [key.startsWith(prefix)] and [key.replace(prefix, '')]. *)
Fixpoint strip_prefix (prefix key : string) : option string :=
  match prefix, key with
  | EmptyString, _ => Some key
  | String a prefix', String b key' =>
      if Ascii.eqb a b then strip_prefix prefix' key' else None
  | String _ _, EmptyString => None
  end.

(** The identifier a key of the store stands for, if it is the key of an
    edit overlay. *)
Definition edited_id `{Builtins} (key : string) : option Z :=
  rest ← strip_prefix EDITED_POST_PREFIX key;
  match parseInt_string rest with
  | Num postId => Some postId
  | NaN => None
  end.

Definition getEditedPostIds `{Builtins} : M env (list Z) :=
  try_catch
    (keys ← localStorage_keys;
     mret (omap edited_id keys))
    (λ error, console_log LError "Error getting edited post IDs:";; mret []).

Definition removeEditedPost (postId : number) : M env unit :=
  let key := EDITED_POST_PREFIX +:+ ToString postId in
  removeItem key.

(** [items.forEach(f)], the calls made in order. *)
Fixpoint Array_forEach {A} (f : A → M env unit) (items : list A) : M env unit :=
  match items with
  | [] => mret tt
  | item :: rest => f item;; Array_forEach f rest
  end.

Definition clearEditedPosts `{Builtins} : M env unit :=
  editedIds ← getEditedPostIds;
  Array_forEach (λ postId, removeEditedPost (Num postId)) editedIds.

End StorageService.

End StorageService.

(** ** ApiService (the [ApiService] module) *)

Module ApiService.

(** What a call of the request function comes to: it returns a promise,
    which settles (resolved is a normal completion, rejected a thrown one),
    or it throws instead of returning one.  A function that returns something
    other than a promise makes [requestFn().catch] throw, which is the second
    case. *)
Inductive attempt :=
| Settles (c : completion jsvalue)
| Throws (error : exn).

(** What a call of [retryRequest] has come to. *)
Inductive retry_result :=
| Unsettled                       (** still retrying when the fuel runs out *)
| Settled (c : completion jsvalue) (** the promise it returned has settled *)
| Thrown (error : exn).           (** it threw instead of returning a promise *)

(** A run of [retryRequest]: what it has come to, and how many times it
    has called the request function. *)
Record retry_run := mkRetryRun {
  result : retry_result;
  invocations : nat
}.

Section ApiService.
Context {App : Type} `{Builtins}.
Abbreviation env := (env App).

Definition BASE_URL : string := "https://jsonplaceholder.typicode.com".

(** [makeRequest(url, options)], with the method and body of [options]. *)
Definition makeRequest (url : string) (method : string) (body : option text) : M env json :=
  try_catch
    (response ← fetch (mkRequest url method body);
     if ok response then response_json response
     else throw (mkExn Error ("HTTP " +:+ pretty (status response) +:+ ": " +:+
                                statusText response)))
    (λ error, console_log LError "API Request failed:";; throw error).

Definition fetchPosts : M env jsvalue :=
  try_catch
    (posts ← makeRequest (BASE_URL +:+ "/posts") "GET" None;
     StorageService.cachePosts (Data posts);;
     mret (Data posts))
    (λ error,
       console_log LWarn "Failed to fetch posts from API, trying cache:";;
       cachedPosts ← StorageService.getCachedPosts;
       if truthy_value cachedPosts
       then console_log LInfo "Using cached posts data";; mret cachedPosts
       else throw (mkExn Error ("Unable to fetch posts: " +:+ message error))).

(** [posts.find(function(p) { return p.id === n; })] *)
Fixpoint find_by_id (posts : list json) (n : number) : completion jsvalue :=
  match posts with
  | [] => Normal Undefined
  | p :: rest =>
      match get_prop p "id" with
      | Throw e => Throw e
      | Normal id => if strict_eq_number id n then Normal (Data p) else find_by_id rest n
      end
  end.

Definition Array_find_by_id (v : jsvalue) (n : number) : completion jsvalue :=
  match v with
  | Data (JArr posts) => find_by_id posts n
  | _ => Throw (mkExn TypeError "cachedPosts.find is not a function")
  end.

Definition fetchPost (postId : number) : M env jsvalue :=
  try_catch
    (post ← makeRequest (BASE_URL +:+ "/posts/" +:+ ToString postId) "GET" None;
     mret (Data post))
    (λ error,
       console_log LWarn "Failed to fetch post from API, trying cache:";;
       cachedPosts ← StorageService.getCachedPosts;
       found ← (if truthy_value cachedPosts
                then post ← liftc (Array_find_by_id cachedPosts (parseInt postId));
                     if truthy_value post
                     then console_log LInfo "Using cached post data for ID:";;
                          mret (Some post)
                     else mret None
                else mret None);
       match found with
       | Some post => mret post
       | None => throw (mkExn Error ("Unable to fetch post: " +:+ message error))
       end).

(** [posts.filter(function(p) { return p.userId === n; })] *)
Fixpoint filter_by_userId (posts : list json) (n : number) : completion (list json) :=
  match posts with
  | [] => Normal []
  | p :: rest =>
      match get_prop p "userId" with
      | Throw e => Throw e
      | Normal userId =>
          match filter_by_userId rest n with
          | Throw e => Throw e
          | Normal others =>
              Normal (if strict_eq_number userId n then p :: others else others)
          end
      end
  end.

Definition Array_filter_by_userId (v : jsvalue) (n : number) : completion (list json) :=
  match v with
  | Data (JArr posts) => filter_by_userId posts n
  | _ => Throw (mkExn TypeError "cachedPosts.filter is not a function")
  end.

Definition fetchPostsByUser (userId : number) : M env jsvalue :=
  try_catch
    (posts ← makeRequest (BASE_URL +:+ "/posts?userId=" +:+ ToString userId) "GET" None;
     mret (Data posts))
    (λ error,
       console_log LWarn "Failed to fetch user posts from API, trying cache:";;
       cachedPosts ← StorageService.getCachedPosts;
       found ← (if truthy_value cachedPosts
                then userPosts ← liftc (Array_filter_by_userId cachedPosts (parseInt userId));
                     if (0 <? length userPosts)%nat
                     then console_log LInfo "Using cached posts data for user:";;
                          mret (Some userPosts)
                     else mret None
                else mret None);
       match found with
       | Some userPosts => mret (Data (JArr userPosts))
       | None => throw (mkExn Error ("Unable to fetch user posts: " +:+ message error))
       end).

Definition fetchUsers : M env jsvalue :=
  try_catch
    (users ← makeRequest (BASE_URL +:+ "/users") "GET" None;
     mret (Data users))
    (λ error,
       console_log LWarn "Failed to fetch users from API:";;
       throw (mkExn Error ("Unable to fetch users: " +:+ message error))).

(** [fetch(BASE_URL + '/posts/1', { method: 'HEAD' })], whose failure is
    swallowed. *)
Definition checkConnectivity : M env bool :=
  try_catch
    (response ← fetch (mkRequest (BASE_URL +:+ "/posts/1") "HEAD" None);
     mret (ok response))
    (λ _, mret false).

(** The request body [JSON.stringify(postData)]; none for [undefined]. *)
Definition request_body (postData : jsvalue) : completion (option text) :=
  match postData with
  | Undefined => Normal None
  | Data j => Normal (Some (Text j))
  | CyclicObject => Throw (mkExn TypeError "Converting circular structure to JSON")
  end.

Definition updatePost (postId : number) (postData : jsvalue) : M env jsvalue :=
  body ← liftc (request_body postData);
  try_catch
    (response ← makeRequest (BASE_URL +:+ "/posts/" +:+ ToString postId) "PUT" body;
     StorageService.saveEditedPost postId postData;;
     console_log LInfo "Post updated locally:";;
     mret (Data response))
    (λ error,
       StorageService.saveEditedPost postId postData;;
       console_log LInfo "Post saved locally due to API error:";;
       mret postData).

Definition getPostWithEdits (postId : number) : M env jsvalue :=
  originalPost ← fetchPost postId;
  editedData ← StorageService.getEditedPost postId;
  if truthy_value editedData
  then mret (Data (Object_assign [originalPost; editedData]))
  else mret originalPost.

(** The function mapped over the collection in [getPostsWithEdits].
    [editedPostIds.includes(post.id)] holds of a numeric [id] in the list
    only. *)
Definition with_edits (editedPostIds : list Z) (post : json) : M env json :=
  id ← liftc (get_prop post "id");
  match id with
  | Data (JNum n) =>
      if bool_decide (n ∈ editedPostIds)
      then editedData ← StorageService.getEditedPost (Num n);
           mret (Object_assign [Data post; editedData])
      else mret post
  | _ => mret post
  end.

(** [posts.map(f)], the calls made in order. *)
Fixpoint Array_map (f : json → M env json) (posts : list json) : M env (list json) :=
  match posts with
  | [] => mret []
  | post :: rest =>
      merged ← f post;
      others ← Array_map f rest;
      mret (merged :: others)
  end.

Definition getPostsWithEdits : M env jsvalue :=
  originalPosts ← fetchPosts;
  editedPostIds ← StorageService.getEditedPostIds;
  match originalPosts with
  | Data (JArr posts) =>
      merged ← Array_map (with_edits editedPostIds) posts;
      mret (Data (JArr merged))
  | _ => throw (mkExn TypeError "originalPosts.map is not a function")
  end.

(** A request function that always returns a promise, given by the run of
    the promise to its settled state. *)
Definition returning (m : M env jsvalue) : env → attempt * env :=
  λ e, let '(c, e') := m e in (Settles c, e').

(** [retryRequest(requestFn, maxRetries, delay)].  The recursion of the
    source need not end, so the embedding carries fuel: one unit for each
    call of [requestFn].  [calls] counts the calls made so far.

    [requestFn().catch(...)] handles the rejection of the promise only: what
    [requestFn] throws escapes [retryRequest].  In the recursive call, made
    in a [then] callback, what escapes rejects the promise of the [then]. *)
Fixpoint retryRequest (fuel : nat) (requestFn : env → attempt * env)
    (maxRetries delay : option Z) (calls : nat) (e : env) : retry_run * env :=
  match fuel with
  | O => (mkRetryRun Unsettled calls, e)
  | S fuel' =>
      let maxRetries := or_default maxRetries 3 in
      let delay := or_default delay 1000 in
      match requestFn e with
      | (Throws error, e1) => (mkRetryRun (Thrown error) (S calls), e1)
      | (Settles (Normal value), e1) => (mkRetryRun (Settled (Normal value)) (S calls), e1)
      | (Settles (Throw error), e1) =>
          if (maxRetries <=? 0)%Z
          then (mkRetryRun (Settled (Throw error)) (S calls), e1)
          else
            let '(_, e2) :=
              console_log LWarn ("Request failed, retrying in " +:+ ToString (Num delay) +:+
                                   "ms. Retries left:") e1 in
            let '(_, e3) := sleep delay e2 in
            match retryRequest fuel' requestFn (Some (maxRetries - 1)%Z)
                    (Some (delay * 2)%Z) (S calls) e3 with
            | (mkRetryRun (Thrown error') calls', e4) =>
                (mkRetryRun (Settled (Throw error')) calls', e4)
            | run => run
            end
      end
  end.

End ApiService.

End ApiService.

(** ** URI component coding

    [encodeURIComponent] and [decodeURIComponent] on the UTF-8 bytes of a
    string. *)

Module URI.

Definition between (lo hi : N) (c : ascii) : bool :=
  ((lo <=? N_of_ascii c) && (N_of_ascii c <=? hi))%N.

(** The characters [encodeURIComponent] leaves alone:
    [A-Z a-z 0-9 - _ . ! ~ * ' ( )]. *)
Definition unreserved (c : ascii) : bool :=
  between 65 90 c || between 97 122 c || between 48 57 c ||
  bool_decide (c ∈ ["-"; "_"; "."; "!"; "~"; "*"; "'"; "("; ")"]%char).

Definition hex_digit (n : N) : ascii :=
  if (n <? 10)%N then ascii_of_N (48 + n) else ascii_of_N (55 + n).

Definition hex_value (c : ascii) : option N :=
  if between 48 57 c then Some (N_of_ascii c - 48)%N
  else if between 65 70 c then Some (N_of_ascii c - 55)%N
  else if between 97 102 c then Some (N_of_ascii c - 87)%N
  else None.

Definition percent (c : ascii) : string :=
  String "%" (String (hex_digit (N_of_ascii c / 16)) (String (hex_digit (N_of_ascii c mod 16)) "")).

Fixpoint encodeURIComponent (s : string) : string :=
  match s with
  | EmptyString => ""
  | String c rest =>
      if unreserved c then String c (encodeURIComponent rest)
      else percent c +:+ encodeURIComponent rest
  end.

(** Every [%XY] replaced by the byte it names; [None] when a [%] is not
    followed by two hexadecimal digits. *)
Fixpoint unescape (s : string) : option string :=
  match s with
  | EmptyString => Some ""
  | String c rest =>
      if Ascii.eqb c "%" then
        match rest with
        | String a (String b rest') =>
            match hex_value a, hex_value b with
            | Some x, Some y => String (ascii_of_N (16 * x + y)) <$> unescape rest'
            | _, _ => None
            end
        | _ => None
        end
      else String c <$> unescape rest
  end.

(** Well-formed UTF-8: shortest forms only, no surrogates, nothing above
    U+10FFFF. *)
Fixpoint utf8_valid (s : string) : bool :=
  match s with
  | EmptyString => true
  | String b rest =>
      if between 0 127 b then utf8_valid rest
      else if between 194 223 b then
        match rest with
        | String b2 r => between 128 191 b2 && utf8_valid r
        | _ => false
        end
      else if between 224 239 b then
        match rest with
        | String b2 (String b3 r) =>
            (if Ascii.eqb b "224" then between 160 191 b2
             else if Ascii.eqb b "237" then between 128 159 b2
             else between 128 191 b2)
            && between 128 191 b3 && utf8_valid r
        | _ => false
        end
      else if between 240 244 b then
        match rest with
        | String b2 (String b3 (String b4 r)) =>
            (if Ascii.eqb b "240" then between 144 191 b2
             else if Ascii.eqb b "244" then between 128 143 b2
             else between 128 191 b2)
            && between 128 191 b3 && between 128 191 b4 && utf8_valid r
        | _ => false
        end
      else false
  end.

(** [decodeURIComponent] raises [URIError] on a malformed escape and on
    escapes that do not spell UTF-8.  ECMAScript tests each run of escapes
    on its own; on the bytes of a string, whose unescaped characters are
    complete sequences, testing the whole result is the same test. *)
Definition decodeURIComponent (s : string) : completion string :=
  match unescape s with
  | Some bytes =>
      if utf8_valid bytes then Normal bytes
      else Throw (mkExn URIError "URI malformed")
  | None => Throw (mkExn URIError "URI malformed")
  end.

(** Whether the character occurs in the string. *)
Fixpoint mentions (c : ascii) (s : string) : bool :=
  match s with
  | EmptyString => false
  | String c' rest => Ascii.eqb c' c || mentions c rest
  end.

(** [s.split(sep)] for a one-character separator. *)
Fixpoint split (sep : ascii) (s : string) : list string :=
  match s with
  | EmptyString => [""]
  | String c rest =>
      if Ascii.eqb c sep then "" :: split sep rest
      else match split sep rest with
           | piece :: pieces => String c piece :: pieces
           | [] => [String c ""]
           end
  end.

(** [pieces.join(sep)] *)
Fixpoint join (sep : string) (pieces : list string) : string :=
  match pieces with
  | [] => ""
  | [piece] => piece
  | piece :: rest => piece +:+ sep +:+ join sep rest
  end.

End URI.

(** ** Router ([js/utils/Router.js]) *)

Module Router.

Section Router.
Context {App : Type}.
Abbreviation env := (env App).

(** [{ path: ..., params: ... }] *)
Record route_info := mkRouteInfo {
  path : string;
  params : gmap string string
}.

(** [handler(params, previousRoute)], [callback(currentRoute, routeInfo)]
    before a change and [callback(currentRoute, previousRoute)] after it.  A
    route that is [null] is [None]. *)
Definition handler_fn : Type := gmap string string → option route_info → M env jsvalue.
Definition before_fn : Type := option route_info → route_info → M env jsvalue.
Definition after_fn : Type := route_info → option route_info → M env jsvalue.

(** An entry of [routes]; [handler] is [None] when the stored value is not
    a function. *)
Record route := mkRoute {
  handler : option handler_fn;
  requiresAuth : bool;
  title : string;
  param_names : list string
}.

(** The value of [currentRoute] when it is not [null]. *)
Record current := mkCurrent {
  current_path : string;
  current_params : gmap string string;
  current_route : route
}.

(** The closure variables of the module. *)
Record router := mkRouter {
  routes : gmap string route;
  currentRoute : option current;
  defaultRoute : string;
  beforeRouteChangeCallbacks : list before_fn;
  afterRouteChangeCallbacks : list after_fn
}.

(** What the router itself did, in order: an observer's record, which
    handlers and hooks cannot write. *)
Inductive event :=
| EvLog (l : level) (msg : string)
| EvNavigate (hash : string) (replace : bool)
| EvBefore (i : nat) (result : completion jsvalue)
| EvTitle (t : string)
| EvHandler (p : string) (result : completion jsvalue)
| EvAfter (i : nat) (result : completion jsvalue).

Record state := mkState {
  router_of : router;
  env_of : env;
  trace : list event
}.

Definition lift_env {A} (m : M env A) : M state A :=
  λ s, let '(c, e) := m (env_of s) in (c, mkState (router_of s) e (trace s)).

Definition emit (ev : event) : M state unit :=
  λ s, (Normal tt, mkState (router_of s) (env_of s) (trace s ++ [ev])).

(** Run a handler or hook and record how it completed. *)
Definition invoke (tag : completion jsvalue → event) (m : M env jsvalue) : M state jsvalue :=
  λ s, let '(c, e) := m (env_of s) in (c, mkState (router_of s) e (trace s ++ [tag c])).

Definition get_router : M state router := λ s, (Normal (router_of s), s).

Definition set_currentRoute (c : option current) : M state unit :=
  λ s, let r := router_of s in
       (Normal tt,
        mkState (mkRouter (routes r) c (defaultRoute r)
                          (beforeRouteChangeCallbacks r) (afterRouteChangeCallbacks r))
                (env_of s) (trace s)).

Definition log (l : level) (msg : string) : M state unit :=
  lift_env (console_log l msg);; emit (EvLog l msg).

(** What a handler or hook is given of a current route: its path and
    parameters. *)
Definition view (c : current) : route_info :=
  mkRouteInfo (current_path c) (current_params c).

(** [routes[path] = { ... }], for a path other than [__proto__]: assigned
    to, that name would not become a property of [routes] but change what
    [routes] inherits from, which the record [router] does not describe. *)
Definition addRoute (path : string) (handler : option handler_fn)
    (requiresAuth : bool) (title : string) (param_names : list string)
    (r : router) : router :=
  mkRouter (<[path := mkRoute handler requiresAuth title param_names]> (routes r))
           (currentRoute r) (defaultRoute r)
           (beforeRouteChangeCallbacks r) (afterRouteChangeCallbacks r).

Definition beforeRouteChange (callback : before_fn) (r : router) : router :=
  mkRouter (routes r) (currentRoute r) (defaultRoute r)
           (beforeRouteChangeCallbacks r ++ [callback]) (afterRouteChangeCallbacks r).

Definition afterRouteChange (callback : after_fn) (r : router) : router :=
  mkRouter (routes r) (currentRoute r) (defaultRoute r)
           (beforeRouteChangeCallbacks r) (afterRouteChangeCallbacks r ++ [callback]).

Definition setDefaultRoute (path : string) (r : router) : router :=
  mkRouter (routes r) (currentRoute r) path
           (beforeRouteChangeCallbacks r) (afterRouteChangeCallbacks r).

(** [routes.hasOwnProperty(path)] *)
Definition hasRoute (path : string) (r : router) : bool :=
  bool_decide (is_Some (routes r !! path)).

(** The members every plain object inherits from [Object.prototype]. *)
Definition Object_prototype_members : list string :=
  ["constructor"; "__defineGetter__"; "__defineSetter__"; "hasOwnProperty";
   "__lookupGetter__"; "__lookupSetter__"; "isPrototypeOf";
   "propertyIsEnumerable"; "toString"; "valueOf"; "__proto__"; "toLocaleString"].

(** An inherited member read as a route: it has no [requiresAuth], no
    [title] and no [handler]. *)
Definition inherited_member : route := mkRoute None false "" [].

(** [routes[path]]: an own entry, else an inherited member, else
    [undefined]. *)
Definition routes_get (rs : gmap string route) (path : string) : option route :=
  match rs !! path with
  | Some r => Some r
  | None =>
      if bool_decide (path ∈ Object_prototype_members) then Some inherited_member
      else None
  end.

(** ['#' + path], followed by ['?' + key=value&...] when [params] has keys.
    [Object.keys] lists the keys in the order of the map. *)
Definition fragment (path : string) (params : gmap string string) : string :=
  let hash := "#" +:+ path in
  match map_to_list params with
  | [] => hash
  | keys =>
      let queryString :=
        URI.join "&"
          (map (λ kv, URI.encodeURIComponent kv.1 +:+ "=" +:+ URI.encodeURIComponent kv.2)
               keys) in
      hash +:+ "?" +:+ queryString
  end.

Definition navigate (path : string) (params : gmap string string) (replace : bool) : M state unit :=
  let hash := fragment path params in
  emit (EvNavigate hash replace);;
  lift_env (if replace then location_replace hash else location_assign hash).

Definition generateUrl (path : string) (params : gmap string string) : string :=
  fragment path params.

Definition getCurrentRoute : M state (option current) :=
  r ← get_router; mret (currentRoute r).

(** [hash.replace(/^#/, '')] *)
Definition strip_hash (hash : string) : string :=
  match hash with
  | String c rest => if Ascii.eqb c "#" then rest else hash
  | EmptyString => hash
  end.

(** [s || d] *)
Definition or_string (s : option string) (d : string) : string :=
  match s with
  | Some (String c rest) => String c rest
  | _ => d
  end.

(** The body of the [forEach] over [queryString.split('&')]:
    [params[decodeURIComponent(k)] = decodeURIComponent(v)] on the object
    literal [params], where a key [__proto__] is not stored. *)
Fixpoint parse_params (pieces : list string) (params : gmap string string)
    : completion (gmap string string) :=
  match pieces with
  | [] => Normal params
  | param :: rest =>
      match URI.split "=" param with
      | [k; v] =>
          match URI.decodeURIComponent k with
          | Throw e => Throw e
          | Normal key =>
              match URI.decodeURIComponent v with
              | Throw e => Throw e
              | Normal value => parse_params rest (assign key value params)
              end
          end
      | _ => parse_params rest params
      end
  end.

Definition parseHash (hash : option string) : M state route_info :=
  r ← get_router;
  location ← lift_env get_location_hash;
  let hash := or_string hash location in
  let hash := strip_hash hash in
  match hash with
  | EmptyString => mret (mkRouteInfo (defaultRoute r) ∅)
  | _ =>
      let parts := URI.split "?" hash in
      let path := or_string (parts !! 0) (defaultRoute r) in
      let queryString := or_string (parts !! 1) "" in
      params ← (match queryString with
                | EmptyString => mret ∅
                | _ => liftc (parse_params (URI.split "&" queryString) ∅)
                end);
      mret (mkRouteInfo path params)
  end.

Definition isAuthenticated : M state bool :=
  lift_env StorageService.isLoggedIn.

(** The [forEach] over [beforeRouteChangeCallbacks]; [i] is the index of
    the first callback of the list. *)
Fixpoint run_before (callbacks : list before_fn) (i : nat)
    (currentRoute : option route_info) (routeInfo : route_info)
    (canProceed : bool) : M state bool :=
  match callbacks with
  | [] => mret canProceed
  | callback :: rest =>
      canProceed ←
        try_catch
          (result ← invoke (EvBefore i) (callback currentRoute routeInfo);
           mret (if strict_eq_false result then false else canProceed))
          (λ error,
             log LError "Error in before route change callback:";;
             mret canProceed);
      run_before rest (S i) currentRoute routeInfo canProceed
  end.

(** The [forEach] over [afterRouteChangeCallbacks]. *)
Fixpoint run_after (callbacks : list after_fn) (i : nat)
    (currentRoute : route_info) (previousRoute : option route_info) : M state unit :=
  match callbacks with
  | [] => mret tt
  | callback :: rest =>
      try_catch
        (invoke (EvAfter i) (callback currentRoute previousRoute);;
         mret tt)
        (λ error, log LError "Error in after route change callback:");;
      run_after rest (S i) currentRoute previousRoute
  end.

(** [route.handler(params, previousRoute)]; calling what is not a function
    raises. *)
Definition call_handler (route : route) (routeInfo : route_info)
    (previousRoute : option route_info) : M state jsvalue :=
  match handler route with
  | Some h => invoke (EvHandler (path routeInfo)) (h (params routeInfo) previousRoute)
  | None => throw (mkExn TypeError "route.handler is not a function")
  end.

(** The part of [handleRouteChange] that follows the redirect rules: the
    hooks before the change, the commit, the title, the handler, the hooks
    after the change.  Handlers and hooks cannot reach the closure variables,
    so [currentRoute] read once is [currentRoute] at each later use. *)
Definition transition (route : route) (routeInfo : route_info) : M state unit :=
  r ← get_router;
  canProceed ← run_before (beforeRouteChangeCallbacks r) 0
                 (view <$> currentRoute r) routeInfo true;
  if negb canProceed then mret tt
  else
    let previousRoute := currentRoute r in
    set_currentRoute (Some (mkCurrent (path routeInfo) (params routeInfo) route));;
    (if negb (String.eqb (title route) "")
     then emit (EvTitle (title route +:+ " - Post Management"));;
          lift_env (set_document_title (title route +:+ " - Post Management"))
     else mret tt);;
    try_catch
      (call_handler route routeInfo (view <$> previousRoute);; mret tt)
      (λ error, log LError "Error executing route handler:");;
    run_after (afterRouteChangeCallbacks r) 0 routeInfo (view <$> previousRoute).

(** [route.requiresAuth && !isAuthenticated()]: the session is looked for
    only when the route requires it. *)
Definition refused (route : route) : M state bool :=
  if requiresAuth route
  then authenticated ← isAuthenticated; mret (negb authenticated)
  else mret false.

(** [routeInfo.path === 'login' && isAuthenticated()] *)
Definition at_login (routeInfo : route_info) : M state bool :=
  if String.eqb (path routeInfo) "login"
  then isAuthenticated
  else mret false.

Definition handleRouteChange (routeInfo : route_info) : M state unit :=
  r ← get_router;
  match routes_get (routes r) (path routeInfo) with
  | None =>
      log LWarn "Route not found:";;
      navigate (defaultRoute r) ∅ true
  | Some route =>
      stop ← refused route;
      if (stop : bool) then
        log LWarn "Route requires authentication:";;
        navigate "login" ∅ true
      else
        stop ← at_login routeInfo;
        if (stop : bool) then navigate "posts" ∅ true
        else transition route routeInfo
  end.

(** The listener [init] registers, for [hashchange] and for [popstate]
    alike: [parseHash()] then [handleRouteChange].  Each call of it by the
    browser is one run of [on_hashchange]; how many calls a change of
    fragment brings about, and when, is the browser's affair. *)
Definition on_hashchange : M state unit :=
  routeInfo ← parseHash None;
  handleRouteChange routeInfo.

(** [init()] handles the fragment the page starts with in the same way and
    then registers the listener. *)
Definition init : M state unit := on_hashchange.

Definition refresh : M state unit :=
  routeInfo ← parseHash None;
  handleRouteChange routeInfo.

Definition getParams (r : router) : gmap string string :=
  match currentRoute r with
  | Some c => current_params c
  | None => ∅
  end.

(** [params.hasOwnProperty(key) ? params[key] : defaultValue]: the method
    is looked up on [params] itself, where a parameter named
    [hasOwnProperty] hides it. *)
Definition getParam (key : string) (defaultValue : jsvalue) (r : router)
    : completion jsvalue :=
  let params := getParams r in
  match params !! "hasOwnProperty" with
  | Some _ => Throw (mkExn TypeError "params.hasOwnProperty is not a function")
  | None =>
      Normal (match params !! key with
              | Some value => Data (JStr value)
              | None => defaultValue
              end)
  end.

End Router.

End Router.

(** ** Helpers ([js/utils/Helpers.js])

    The helpers see a string as [length], [substring], [charCodeAt] and the
    regular expressions of the file do: as the sequence of its UTF-16 code
    units. *)

Module Helpers.

Definition ustring : Type := list N.

(** A string literal of the source; all of them are ASCII. *)
Definition lit (s : string) : ustring :=
  N_of_ascii <$> String.list_ascii_of_string s.

(** The code unit of an ASCII character. *)
Definition code (c : ascii) : N := N_of_ascii c.

(** An argument of a helper. *)
Inductive value :=
| VUndefined
| VNull
| VBool (b : bool)
| VNumber (n : number)
| VString (s : ustring)
| VStringObject (s : ustring)   (** [new String(s)] *)
| VObject.                      (** any other object, an array or a function,
                                    which has no method [trim] *)

(** ToBoolean *)
Definition truthy (v : value) : bool :=
  match v with
  | VUndefined | VNull => false
  | VBool b => b
  | VNumber NaN => false
  | VNumber (Num z) => negb (z =? 0)%Z
  | VString s => match s with [] => false | _ => true end
  | VStringObject _ | VObject => true
  end.

(** The string [v] when [!v || typeof v !== 'string'] is false: a string
    other than the empty one. *)
Definition nonempty_string (v : value) : option ustring :=
  match v with
  | VString (c :: s) => Some (c :: s)
  | _ => None
  end.

(** The class [\s], which is also what [trim] removes: white space and line
    terminators. *)
Definition is_space (c : N) : bool :=
  bool_decide (c ∈ [9; 10; 11; 12; 13; 32; 160; 5760; 8232; 8233; 8239; 8287;
                    12288; 65279]%N)
  || ((8192 <=? c) && (c <=? 8202))%N.

Fixpoint trimStart (s : ustring) : ustring :=
  match s with
  | c :: rest => if is_space c then trimStart rest else s
  | [] => []
  end.

Definition trim (s : ustring) : ustring :=
  reverse (trimStart (reverse (trimStart s))).

(** The regular expressions of the file, between [^] and [$]: a sequence of
    pieces, each one character of a class or one or more of them ([+]). *)
Inductive piece :=
| One (class : N → bool)
| Many (class : N → bool).

(** [pattern.test(s)]: some way of sharing out [s] among the pieces fits. *)
Fixpoint test (pattern : list piece) : ustring → bool :=
  match pattern with
  | [] => λ s, match s with [] => true | _ => false end
  | One class :: pattern' =>
      λ s, match s with
           | c :: s' => class c && test pattern' s'
           | [] => false
           end
  | Many class :: pattern' =>
      fix many (s : ustring) : bool :=
        match s with
        | c :: s' => class c && (test pattern' s' || many s')
        | [] => false
        end
  end.

(** The class [[^\s@]]. *)
Definition not_space_or_at (c : N) : bool :=
  negb (is_space c || (c =? code "@")%N).

(** [/^[^\s@]+@[^\s@]+\.[^\s@]+$/] *)
Definition emailRegex : list piece :=
  [Many not_space_or_at; One (N.eqb (code "@")); Many not_space_or_at;
   One (N.eqb (code ".")); Many not_space_or_at].

Definition isValidEmail (email : value) : bool :=
  match nonempty_string email with
  | None => false
  | Some email => test emailRegex (trim email)
  end.

(** [{ isValid: ..., message: ... }] *)
Record validation := mkValidation {
  isValid : bool;
  message : ustring
}.

Definition validatePassword (password : value) : validation :=
  match nonempty_string password with
  | None => mkValidation false (lit "Password is required")
  | Some password =>
      if (length password <? 6)%nat
      then mkValidation false (lit "Password must be at least 6 characters long")
      else mkValidation true []
  end.

(** The rules of [validateField]: [required] and [email] by their
    truthiness, the two lengths when given, [pattern] by what its [test]
    answers (a pattern without the [g] and [y] flags, whose [test] keeps no
    state), and the message for it when given. *)
Record rules := mkRules {
  required : bool;
  minLength : option Z;
  maxLength : option Z;
  email : bool;
  pattern : option (ustring → bool);
  patternMessage : option ustring
}.

(** [{}] *)
Definition no_rules : rules := mkRules false None None false None None.

(** [limit && length < limit]: a limit that is absent or 0 is falsy. *)
Definition below (limit : option Z) (length : nat) : bool :=
  match limit with
  | Some z => negb (z =? 0)%Z && (Z.of_nat length <? z)%Z
  | None => false
  end.

(** [limit && length > limit] *)
Definition above (limit : option Z) (length : nat) : bool :=
  match limit with
  | Some z => negb (z =? 0)%Z && (z <? Z.of_nat length)%Z
  | None => false
  end.

(** A limit as it appears in a message. *)
Definition limit_text (limit : option Z) : ustring :=
  match limit with
  | Some z => lit (pretty z)
  | None => lit "undefined"
  end.

(** [pattern && !pattern.test(s)] *)
Definition mismatch (pattern : option (ustring → bool)) (s : ustring) : bool :=
  match pattern with
  | Some accepts => negb (accepts s)
  | None => false
  end.

(** [s || d] *)
Definition or_text (s : option ustring) (d : ustring) : ustring :=
  match s with
  | Some (c :: rest) => c :: rest
  | _ => d
  end.

(** [s.trim() === ''] *)
Definition blank (s : ustring) : bool :=
  match trim s with
  | [] => true
  | _ => false
  end.

(** The characters that [value.trim()], [value.length] and
    [pattern.test(value)] see: those of a string, and of a [String] object,
    which inherits [trim] and [length] and is made a string by [test]. *)
Definition characters (value : value) : option ustring :=
  match value with
  | VString s | VStringObject s => Some s
  | _ => None
  end.

(** [validateField(value, fieldName, rules)].  Both tests of emptiness are
    [!value || value.trim() === '']: a falsy value is empty, a string or a
    [String] object is empty when blank, and any other truthy value has no
    [trim], so that the call raises; the second test is made whatever the
    rules. *)
Definition validateField (value : value) (fieldName : ustring) (rules : option rules)
    : completion validation :=
  let rules := default no_rules rules in
  match characters value with
  | Some s =>
      Normal
        (if required rules && blank s
         then mkValidation false (fieldName ++ lit " is required")
         else if blank s
         then mkValidation true []
         else if below (minLength rules) (length s)
         then mkValidation false
                (fieldName ++ lit " must be at least " ++ limit_text (minLength rules) ++
                 lit " characters long")
         else if above (maxLength rules) (length s)
         then mkValidation false
                (fieldName ++ lit " must not exceed " ++ limit_text (maxLength rules) ++
                 lit " characters")
         else if email rules && negb (isValidEmail value)
         then mkValidation false (lit "Please enter a valid email address")
         else if mismatch (pattern rules) s
         then mkValidation false
                (or_text (patternMessage rules) (fieldName ++ lit " format is invalid"))
         else mkValidation true [])
  | None =>
      if truthy value
      then Throw (mkExn TypeError "value.trim is not a function")
      else Normal (if required rules
                   then mkValidation false (fieldName ++ lit " is required")
                   else mkValidation true [])
  end.

(** [text.substring(0, finish)]: a negative [finish] counts as 0 and one
    past the end as the length. *)
Definition substring_to (text : ustring) (finish : Z) : ustring :=
  take (Z.to_nat finish) text.

Definition truncateText (text : value) (maxLength : option Z) (suffix : option ustring)
    : ustring :=
  match nonempty_string text with
  | None => []
  | Some text =>
      let maxLength := or_default maxLength 100 in
      let suffix := or_text suffix (lit "...") in
      if (Z.of_nat (length text) <=? maxLength)%Z then text
      else substring_to text (maxLength - Z.of_nat (length suffix)) ++ suffix
  end.

(** The replacement [map[m]] of a character the expression matches (the
    ampersand, the two angle brackets, the double and the single quote); any
    other character stays. *)
Definition entity (c : N) : ustring :=
  if (c =? code "&")%N then lit "&amp;"
  else if (c =? code "<")%N then lit "&lt;"
  else if (c =? code ">")%N then lit "&gt;"
  else if (c =? 34)%N then lit "&quot;"
  else if (c =? code "'")%N then lit "&#039;"
  else [c].

Definition escapeHtml (text : value) : ustring :=
  match nonempty_string text with
  | None => []
  | Some text => flat_map entity text
  end.

(** ToInt32: the integer modulo [2^32], in the signed range. *)
Definition ToInt32 (z : Z) : Z := ((z + 2 ^ 31) mod 2 ^ 32 - 2 ^ 31)%Z.

(** [a << n] and [a & b] on numbers that are integers. *)
Definition shl (a n : Z) : Z := ToInt32 (Z.shiftl (ToInt32 a) n).
Definition band (a b : Z) : Z := ToInt32 (Z.land (ToInt32 a) (ToInt32 b)).

(** The body of the loop of [simpleHash]:
    [hash = ((hash << 5) - hash) + char; hash = hash & hash]. *)
Definition next_hash (hash : Z) (char : N) : Z :=
  let hash := (shl hash 5 - hash + Z.of_N char)%Z in
  band hash hash.

(** The loop over the characters of [str], from [hash]. *)
Definition simpleHash_loop (str : ustring) (hash : Z) : Z :=
  foldl next_hash hash str.

(** The digits [0-9a-z]. *)
Definition digit36 (d : N) : N :=
  if (d <? 10)%N then (48 + d)%N else (87 + d)%N.

Fixpoint toString36_go (fuel : nat) (n : N) (digits : ustring) : ustring :=
  match fuel with
  | O => digits
  | S fuel' =>
      let digits := digit36 (n mod 36) :: digits in
      if (n / 36 =? 0)%N then digits else toString36_go fuel' (n / 36) digits
  end.

(** [n.toString(36)] for an integer [n] that is not negative.  A number has
    no more digits in base 36 than it has bits. *)
Definition toString36 (n : Z) : ustring :=
  toString36_go (S (N.size_nat (Z.to_N n))) (Z.to_N n) [].

Definition simpleHash (str : value) : ustring :=
  match nonempty_string str with
  | None => []
  | Some str => toString36 (Z.abs (simpleHash_loop str 0))
  end.

End Helpers.

(** ** LoginViewModel ([js/viewmodels/LoginViewModel.js]): validation of the form *)

Module LoginViewModel.

(** The observables of the view model. *)
Record form := mkForm {
  companyCode : Helpers.value;
  region : Helpers.value;
  email : Helpers.value;
  password : Helpers.value;
  isLoading : bool;
  companyCodeError : Helpers.ustring;
  regionError : Helpers.ustring;
  emailError : Helpers.ustring;
  passwordError : Helpers.ustring
}.

Definition observe {A} (observable : form → A) : M form A :=
  λ f, (Normal (observable f), f).

Definition set_companyCodeError (msg : Helpers.ustring) : M form unit :=
  λ f, (Normal tt,
        mkForm (companyCode f) (region f) (email f) (password f) (isLoading f)
               msg (regionError f) (emailError f) (passwordError f)).

Definition set_regionError (msg : Helpers.ustring) : M form unit :=
  λ f, (Normal tt,
        mkForm (companyCode f) (region f) (email f) (password f) (isLoading f)
               (companyCodeError f) msg (emailError f) (passwordError f)).

Definition set_emailError (msg : Helpers.ustring) : M form unit :=
  λ f, (Normal tt,
        mkForm (companyCode f) (region f) (email f) (password f) (isLoading f)
               (companyCodeError f) (regionError f) msg (passwordError f)).

Definition set_passwordError (msg : Helpers.ustring) : M form unit :=
  λ f, (Normal tt,
        mkForm (companyCode f) (region f) (email f) (password f) (isLoading f)
               (companyCodeError f) (regionError f) (emailError f) msg).

(** [validation.isValid ? '' : validation.message] *)
Definition shown (validation : Helpers.validation) : Helpers.ustring :=
  if Helpers.isValid validation then [] else Helpers.message validation.

Definition validateCompanyCode : M form bool :=
  value ← observe companyCode;
  validation ← liftc (Helpers.validateField value (Helpers.lit "Company Code")
                        (Some (Helpers.mkRules true (Some 2%Z) None false None None)));
  set_companyCodeError (shown validation);;
  mret (Helpers.isValid validation).

Definition validateRegion : M form bool :=
  value ← observe region;
  validation ← liftc (Helpers.validateField value (Helpers.lit "Region")
                        (Some (Helpers.mkRules true None None false None None)));
  set_regionError (shown validation);;
  mret (Helpers.isValid validation).

Definition validateEmail : M form bool :=
  value ← observe email;
  validation ← liftc (Helpers.validateField value (Helpers.lit "Email")
                        (Some (Helpers.mkRules true None None true None None)));
  set_emailError (shown validation);;
  mret (Helpers.isValid validation).

Definition validatePassword : M form bool :=
  value ← observe password;
  let validation := Helpers.validatePassword value in
  set_passwordError (shown validation);;
  mret (Helpers.isValid validation).

Definition validateForm : M form bool :=
  isCompanyCodeValid ← validateCompanyCode;
  isRegionValid ← validateRegion;
  isEmailValid ← validateEmail;
  isPasswordValid ← validatePassword;
  mret (isCompanyCodeValid && isRegionValid && isEmailValid && isPasswordValid).

End LoginViewModel.

(** ** AnalyticsViewModel: the count of posts by user

    The part of [processAnalyticsData] that counts the posts of each user
    and makes the series of the chart from the counts. *)

Module AnalyticsViewModel.

Section AnalyticsViewModel.
Context `{Builtins}.

(** The property name a value used as a key stands for. *)
Definition ToPropertyKey (v : jsvalue) : string :=
  match v with
  | Undefined => "undefined"
  | Data JNull => "null"
  | Data (JBool b) => if b then "true" else "false"
  | Data (JNum z) => pretty z
  | Data (JStr s) => s
  | Data (JArr l) => ArrayToString l
  | Data (JObj _) | CyclicObject => "[object Object]"
  end.

(** The body of the [forEach]:
    [if (userPostCounts[userId]) userPostCounts[userId]++; else
    userPostCounts[userId] = 1].  A count that is not stored is looked for
    among the members plain objects inherit: such a member is truthy, and
    incrementing it stores [NaN]. *)
Definition count_post (userPostCounts : gmap string number) (userId : jsvalue)
    : gmap string number :=
  let key := ToPropertyKey userId in
  match userPostCounts !! key with
  | Some (Num n) =>
      if (n =? 0)%Z then <[key := Num 1]> userPostCounts
      else <[key := Num (n + 1)]> userPostCounts
  | Some NaN => <[key := Num 1]> userPostCounts
  | None =>
      if String.eqb key "__proto__" then userPostCounts
      else if bool_decide (key ∈ Router.Object_prototype_members)
      then <[key := NaN]> userPostCounts
      else <[key := Num 1]> userPostCounts
  end.

(** [posts.forEach(...)] over [post.userId]. *)
Fixpoint count_posts (posts : list json) (userPostCounts : gmap string number)
    : completion (gmap string number) :=
  match posts with
  | [] => Normal userPostCounts
  | post :: rest =>
      match get_prop post "userId" with
      | Throw e => Throw e
      | Normal userId => count_posts rest (count_post userPostCounts userId)
      end
  end.

(** What is computed from the counts; [Object.keys] lists the keys in the
    order of the map. *)
Record statistics := mkStatistics {
  userPostCounts : gmap string number;
  totalUsers : nat;
  totalPosts : nat;
  chartLabels : list string;
  chartValues : list number
}.

Definition count_by_user (posts : list json) : completion statistics :=
  match count_posts posts ∅ with
  | Throw e => Throw e
  | Normal userPostCounts =>
      let userIds := (map_to_list userPostCounts).*1 in
      Normal (mkStatistics userPostCounts (length userIds) (length posts)
                ((λ userId, "User " +:+ userId) <$> userIds)
                ((λ userId, default NaN (userPostCounts !! userId)) <$> userIds))
  end.

End AnalyticsViewModel.

End AnalyticsViewModel.

(** ** Describing runs

    Vocabulary for the statements below; none of it is part of the program. *)

(** [m] raises when run in [s]. *)
Definition raises {S A} (m : M S A) (s : S) : Prop :=
  ∃ err s', m s = (Throw err, s').

(** The value of a string of decimal digits, as [parseInt] reads it; [NaN]
    for any other string, which the examples do not contain. *)
Fixpoint decimal_value (acc : Z) (digits : string) : number :=
  match digits with
  | EmptyString => Num acc
  | String c rest =>
      if URI.between 48 57 c
      then decimal_value (10 * acc + Z.of_N (N_of_ascii c - 48)) rest
      else NaN
  end.

(** An instance of the built-in coercions for evaluating examples in which
    no string is coerced but the decimal identifiers in the keys of the
    store. *)
Definition no_coercion : Builtins :=
  {| StringToNumber := λ _, NaN;
     ArrayToString := λ _, "";
     StringOwnProperties := λ _, ∅;
     parseInt_string := λ s, match s with
                             | EmptyString => NaN
                             | _ => decimal_value 0 s
                             end |}.

Definition before_error : string := "Error in before route change callback:".
Definition after_error : string := "Error in after route change callback:".
Definition handler_error : string := "Error executing route handler:".

(** A hook before the change lets it proceed unless it returns [false]. *)
Definition allows (result : completion jsvalue) : bool :=
  match result with
  | Normal v => negb (strict_eq_false v)
  | Throw _ => true
  end.

(** The record left by hooks numbered from [i] that completed as
    [results]: each call, followed by the error entry when it raised. *)
Fixpoint hook_events (tag : nat → completion jsvalue → Router.event) (msg : string)
    (i : nat) (results : list (completion jsvalue)) : list Router.event :=
  match results with
  | [] => []
  | c :: rest =>
      tag i c ::
      (match c with
       | Throw _ => [Router.EvLog LError msg]
       | Normal _ => []
       end) ++ hook_events tag msg (S i) rest
  end.

(** The calls of a list of hooks, made one after the other from the browser
    [e]: how each call completed, and the browser after the last.  Each hook
    is called in the browser as the call before left it, the entry [msg]
    having been added to the console when that call raised. *)
Fixpoint hook_calls {App} (msg : string) (hooks : list (M (env App) jsvalue))
    (e : env App) : list (completion jsvalue) * env App :=
  match hooks with
  | [] => ([], e)
  | hook :: rest =>
      let '(c, e1) := hook e in
      let e2 := match c with
                | Normal _ => e1
                | Throw _ => with_console (λ entries, entries ++ [(LError, msg)]) e1
                end in
      let '(results, e3) := hook_calls msg rest e2 in
      (c :: results, e3)
  end.

(** The hooks registered in [r] for before a change, given what the router
    gives them on a change to [routeInfo]: the current route and
    [routeInfo]. *)
Definition before_hooks {App} (r : Router.router (App := App))
    (routeInfo : Router.route_info) : list (M (env App) jsvalue) :=
  (λ callback, callback (Router.view <$> Router.currentRoute r) routeInfo)
    <$> Router.beforeRouteChangeCallbacks r.

(** The hooks registered in [r] for after a change, given what the router
    gives them once the change to [routeInfo] is made: the new current route
    and the one that was current in [r]. *)
Definition after_hooks {App} (r : Router.router (App := App))
    (routeInfo : Router.route_info) : list (M (env App) jsvalue) :=
  (λ callback, callback routeInfo (Router.view <$> Router.currentRoute r))
    <$> Router.afterRouteChangeCallbacks r.

(** The browser once the title of a route that has become current is set;
    a route without a title leaves the title alone. *)
Definition titled {App} (route : Router.route (App := App)) (e : env App) : env App :=
  if negb (String.eqb (Router.title route) "")
  then with_title (Router.title route +:+ " - Post Management") e
  else e.

(** The call of the handler of [route] with the parameters of [routeInfo]
    and the route that was current; calling what is not a function
    raises. *)
Definition handler_call {App} (route : Router.route (App := App))
    (routeInfo : Router.route_info) (previous : option Router.route_info)
    : M (env App) jsvalue :=
  match Router.handler route with
  | Some handler => handler (Router.params routeInfo) previous
  | None => throw (mkExn TypeError "route.handler is not a function")
  end.

(** The router's variables once a change to [route] is committed. *)
Definition committed {App} (r : Router.router (App := App)) (route : Router.route)
    (routeInfo : Router.route_info) : Router.router :=
  Router.mkRouter (Router.routes r)
    (Some (Router.mkCurrent (Router.path routeInfo) (Router.params routeInfo) route))
    (Router.defaultRoute r)
    (Router.beforeRouteChangeCallbacks r) (Router.afterRouteChangeCallbacks r).

(** The record of the title update. *)
Definition title_events {App} (route : Router.route (App := App)) : list Router.event :=
  if negb (String.eqb (Router.title route) "")
  then [Router.EvTitle (Router.title route +:+ " - Post Management")]
  else [].

(** The record of the handler call that completed as [handled]; a handler
    that is not a function leaves the error entry only. *)
Definition handler_events {App} (route : Router.route (App := App))
    (routeInfo : Router.route_info) (handled : completion jsvalue) : list Router.event :=
  match Router.handler route with
  | Some _ =>
      hook_events (λ _, Router.EvHandler (Router.path routeInfo)) handler_error 0 [handled]
  | None => [Router.EvLog LError handler_error]
  end.

(** The environment once the warning is logged and the delay has passed,
    as [retryRequest] leaves it before it calls the request again. *)
Definition after_wait {App} (delay : Z) (e : env App) : env App :=
  (sleep delay
     (console_log LWarn ("Request failed, retrying in " +:+ ToString (Num delay) +:+
                           "ms. Retries left:") e).2).2.

(** Called from [e] and then after each wait, the waits starting at [delay]
    and doubling, the request function returns a promise each time: [k]
    promises that are rejected and then one that is resolved with [value],
    leaving [e_final]. *)
Fixpoint fails_first {App} (k : nat) (requestFn : env App → ApiService.attempt * env App)
    (delay : Z) (e : env App) (value : jsvalue) (e_final : env App) : Prop :=
  match k with
  | O => requestFn e = (ApiService.Settles (Normal value), e_final)
  | S k' =>
      ∃ err e1, requestFn e = (ApiService.Settles (Throw err), e1) ∧
                fails_first k' requestFn (delay * 2) (after_wait delay e1) value e_final
  end.

(** The record is an object whose [field] is the number [n]. *)
Definition has_number (field : string) (n : Z) (p : json) : bool :=
  match p with
  | JObj m =>
      match m !! field with
      | Some (JNum z) => (z =? n)%Z
      | _ => false
      end
  | _ => false
  end.

(** [m] returns, or throws a [URIError] and leaves the state as it was. *)
Definition throws_only_URIError {S} (m : M S unit) (s : S) : Prop :=
  (∃ s', m s = (Normal tt, s')) ∨
  (∃ err, m s = (Throw err, s) ∧ name err = URIError).

(** One [key=value] piece of a query string, as [navigate] and
    [generateUrl] write it. *)
Definition query_piece (kv : string * string) : string :=
  URI.encodeURIComponent kv.1 +:+ "=" +:+ URI.encodeURIComponent kv.2.

(** The hash of a string by the polynomial with the multiplier 31:
    [c0 * 31^(n-1) + c1 * 31^(n-2) + ... + c(n-1)], as an exact integer. *)
Definition polynomial31 (s : Helpers.ustring) : Z :=
  foldl (λ hash char, 31 * hash + Z.of_N char)%Z 0%Z s.

(** The characters [escapeHtml] replaces, but for the ampersand. *)
Definition markup : list N :=
  [Helpers.code "<"; Helpers.code ">"; 34%N; Helpers.code "'"].

(** What follows the ampersand in the entities [escapeHtml] writes. *)
Definition entity_tails : list Helpers.ustring :=
  [Helpers.lit "amp;"; Helpers.lit "lt;"; Helpers.lit "gt;"; Helpers.lit "quot;";
   Helpers.lit "#039;"].

(** The value is empty in the sense of [validateField]: falsy, or a string
    or [String] object that is blank. *)
Definition empty_value (value : Helpers.value) : bool :=
  match Helpers.characters value with
  | Some s => Helpers.blank s
  | None => negb (Helpers.truthy value)
  end.

(** Every character of the string is in the class [[^\s@]]. *)
Definition plain (s : Helpers.ustring) : Prop :=
  Forall (λ c, Helpers.not_space_or_at c = true) s.




(** ** Sample pages

    Concrete environments, routers and requests on which the statements are
    evaluated. *)

(** A network that is down: every request fails. *)
Definition offline : request → completion response :=
  λ _, Throw (mkExn TypeError "Failed to fetch").

(** A page just loaded: nothing stored, the clock at zero, the network
    down. *)
Definition fresh_page : env unit :=
  mkEnv ∅ Healthy 0 [] offline "" [] 0 "" [] tt.

Definition with_network {App} (n : request → completion response) (e : env App) : env App :=
  mkEnv (ls_items e) (ls_condition e) (now e) (console e) n
        (location_hash e) (history e) (pending e) (document_title e) (timers e) (app e).

(** A network that answers every request with status 200 and body [j]. *)
Definition answering (j : json) : request → completion response :=
  λ _, Normal (mkResponse true 200 "OK" (Text j)).

(** A collection of two records. *)
Definition sample_posts : json :=
  JArr [JObj {["id" := JNum 1]}; JObj {["id" := JNum 2]}].

(** A request whose promise is rejected until three waits have passed. *)
Definition flaky : env unit → ApiService.attempt * env unit :=
  λ e, if (3 <=? length (timers e))%nat then (ApiService.Settles (Normal null), e)
       else (ApiService.Settles (Throw (mkExn Error "boom")), e).

(** A request whose promise is rejected every time. *)
Definition failing : env unit → ApiService.attempt * env unit :=
  λ e, (ApiService.Settles (Throw (mkExn Error "boom")), e).

(** A request whose promise is rejected the first time, and which throws
    when it is called again. *)
Definition breaking : env unit → ApiService.attempt * env unit :=
  λ e, match timers e with
       | [] => (ApiService.Settles (Throw (mkExn Error "boom")), e)
       | _ => (ApiService.Throws (mkExn TypeError "request is not a function"), e)
       end.

(** The router as [js/app.js] sets it up ([setupRoutes],
    [setupRouteCallbacks]), with handlers and hooks that leave the page
    alone: four routes, a hook before the change that returns [true], a hook
    after it that returns nothing. *)
Definition show_page : Router.handler_fn (App := unit) := λ _ _, mret Undefined.

Definition app_router : Router.router (App := unit) :=
  Router.afterRouteChange (λ _ _, mret Undefined)
    (Router.beforeRouteChange (λ _ _, mret (Data (JBool true)))
       (Router.addRoute "analytics" (Some show_page) true "Analytics" []
          (Router.addRoute "detail" (Some show_page) true "Post Detail" []
             (Router.addRoute "posts" (Some show_page) true "Posts" []
                (Router.addRoute "login" (Some show_page) false "Login" []
                   (Router.mkRouter ∅ None "login" [] [])))))).

(** The page at fragment [hash], the change to it not yet handled, with or
    without a stored session. *)
Definition visiting (hash : string) (session : option json) : Router.state (App := unit) :=
  Router.mkState app_router
    (mkEnv (match session with
            | Some user => {[StorageService.USER_SESSION_KEY := Text user]}
            | None => ∅
            end)
           Healthy 0 [] offline hash [] 1 "" [] tt)
    [].

Definition sample_user : json := JObj {["email" := JStr "user@example.com"]}.

(** The application's router with two more hooks before the change, one
    returning [false] and one raising. *)
Definition vetoing_router : Router.router (App := unit) :=
  Router.beforeRouteChange (λ _ _, throw (mkExn Error "hook failed"))
    (Router.beforeRouteChange (λ _ _, mret (Data (JBool false))) app_router).

(** The application's router with one more hook on each side of the change,
    both raising. *)
Definition faulty_router : Router.router (App := unit) :=
  Router.afterRouteChange (λ _ _, throw (mkExn Error "hook failed"))
    (Router.beforeRouteChange (λ _ _, throw (mkExn Error "hook failed")) app_router).

(** The page at [#login] with no session and the given router. *)
Definition at_login_page (r : Router.router (App := unit)) : Router.state (App := unit) :=
  Router.mkState r (Router.env_of (visiting "#login" None)) [].

(** The record [id] of the user [userId]. *)
Definition authored (id userId : Z) : json :=
  JObj (<["id" := JNum id]> {["userId" := JNum userId]}).

(** The form as [demoLogin] fills it. *)
Definition demo_form : LoginViewModel.form :=
  LoginViewModel.mkForm
    (Helpers.VString (Helpers.lit "DEMO123")) (Helpers.VString (Helpers.lit "Europe"))
    (Helpers.VString (Helpers.lit "demo@example.com"))
    (Helpers.VString (Helpers.lit "demo123"))
    false [] [] [] [].

(** Unfolds the monad's operations. *)
Ltac unfold_M :=
  unfold mbind, mret, M_bind, M_ret, bind, ret, try_catch, throw, liftc in *.

(** * Properties *)

Import StorageService ApiService.

(** ** The key-value store adapter *)

Section storage_facts.
Context {App : Type}.
Implicit Types (e : env App) (key : string).

Lemma setItem_returns key value e :
  ∃ e', setItem key value e = (Normal tt, e').
Proof.
  unfold setItem, localStorage_setItem, console_log. unfold_M.
  destruct (JSON_stringify value); [destruct (ls_condition e)|]; eauto.
Qed.

Lemma setItem_healthy key j e :
  ls_condition e = Healthy →
  setItem key (Data j) e = (Normal tt, with_items (insert key (Text j)) e).
Proof.
  intros Hc. unfold setItem, localStorage_setItem. unfold_M. simpl. by rewrite Hc.
Qed.

Lemma getItem_returns key e :
  ∃ v e', getItem key e = (Normal v, e') ∧ ls_items e' = ls_items e ∧
          ls_condition e' = ls_condition e ∧ now e' = now e.
Proof.
  unfold getItem, localStorage_getItem, console_log. unfold_M.
  destruct (ls_condition e) eqn:Hc; simpl;
    try (destruct (ls_items e !! key) as [[]|]; simpl);
    do 2 eexists; (split; [reflexivity|]); simpl; auto.
Qed.

Lemma getItem_stored key j e :
  ls_condition e ≠ Unavailable →
  ls_items e !! key = Some (Text j) →
  getItem key e = (Normal j, e).
Proof.
  intros Hc Hk. unfold getItem, localStorage_getItem. unfold_M.
  destruct (ls_condition e); try done; by rewrite Hk.
Qed.

Lemma getItem_missing key e :
  ls_items e !! key = None →
  ∃ e', getItem key e = (Normal JNull, e') ∧ ls_items e' = ls_items e.
Proof.
  intros Hk. unfold getItem, localStorage_getItem, console_log. unfold_M.
  destruct (ls_condition e); rewrite ?Hk; simpl; eauto.
Qed.

End storage_facts.

(** C9. No operation of the key-value store adapter ([setItem], [getItem],
    [removeItem], [clear]) throws to its caller, whatever the key, the value
    and the condition of the underlying store; when the guarded write raises
    (the value cannot be serialised, the quota is exceeded, the store is
    unavailable) the stored items are what they were, and when the guarded
    read raises the result is [null]. *)
Theorem C9_store_operations_never_throw {App : Type}
    (key : string) (value : jsvalue) (e : env App) :
  (∃ e', setItem key value e = (Normal tt, e') ∧
         (raises (t ← liftc (JSON_stringify value); localStorage_setItem key t) e →
          ls_items e' = ls_items e)) ∧
  (∃ v e', getItem key e = (Normal v, e') ∧
           ls_items e' = ls_items e ∧
           (raises (item ← localStorage_getItem key;
                    match item with
                    | Some t => if text_truthy t then liftc (JSON_parse t) else mret JNull
                    | None => mret JNull
                    end) e → v = JNull)) ∧
  (∃ e', removeItem key e = (Normal tt, e')) ∧
  (∃ e', clear e = (Normal tt, e')).
Proof.
  repeat split.
  - unfold setItem, raises, localStorage_setItem, console_log. unfold_M.
    destruct (JSON_stringify value); [destruct (ls_condition e)|];
      eexists; (split; [reflexivity|]); simpl; try done.
    intros (err & s' & Hr). discriminate.
  - unfold getItem, raises, localStorage_getItem, console_log. unfold_M.
    destruct (ls_condition e); simpl.
    1,2: destruct (ls_items e !! key) as [[]|]; simpl;
      do 2 eexists; (split; [reflexivity|]); (split; [done|]);
      try done; intros (err & s' & Hr); discriminate.
    do 2 eexists; (split; [reflexivity|]); done.
  - unfold removeItem, localStorage_removeItem, console_log. unfold_M.
    destruct (ls_condition e); eauto.
  - unfold clear, localStorage_clear, console_log. unfold_M.
    destruct (ls_condition e); eauto.
Qed.

(** ** The cache snapshot *)

Section cache_facts.
Context {App : Type} `{Builtins}.
Implicit Types (e : env App).

Lemma cachePosts_healthy posts e :
  ls_condition e = Healthy →
  cachePosts (Data posts) e =
    (Normal tt,
     with_items (insert POSTS_CACHE_KEY
                   (Text (JObj (<["data" := posts]> {["timestamp" := JNum (now e)]})))) e).
Proof.
  intros Hc. unfold cachePosts, Date_now. unfold_M. simpl stamped.
  by rewrite setItem_healthy.
Qed.

Lemma removeItem_readable key e :
  ls_condition e ≠ Unavailable →
  removeItem key e = (Normal tt, with_items (delete key) e).
Proof.
  intros Hc. unfold removeItem, localStorage_removeItem. unfold_M.
  by destruct (ls_condition e).
Qed.

Lemma getCachedPosts_snapshot posts t e :
  ls_condition e ≠ Unavailable →
  ls_items e !! POSTS_CACHE_KEY =
    Some (Text (JObj (<["data" := posts]> {["timestamp" := JNum t]}))) →
  getCachedPosts e =
    if (oneHour <? now e - t)%Z
    then (Normal null, with_items (delete POSTS_CACHE_KEY) e)
    else (Normal (Data posts), e).
Proof.
  intros Hc Hk. unfold getCachedPosts, Date_now. unfold_M.
  rewrite (getItem_stored _ _ _ Hc Hk). simpl.
  rewrite lookup_insert_ne by done. rewrite lookup_singleton_eq. simpl.
  destruct (oneHour <? now e - t)%Z.
  - by rewrite removeItem_readable.
  - by rewrite lookup_insert_eq.
Qed.

End cache_facts.

(** C3, as amended.  A snapshot written at time [T] with data [D], the
    write being accepted, and still under its key in a store that can be
    read: a read at any time up to and including [T + 1 hour] returns [D]
    unchanged and leaves the store as it is; a read at any time after
    [T + 1 hour] returns [null] and removes the key. *)
Theorem C3_cache_snapshot_expiry `{Builtins} {App : Type}
    (D : json) (e e2 : env App) :
  ls_condition e = Healthy →
  ls_items e2 !! POSTS_CACHE_KEY = ls_items (cachePosts (Data D) e).2 !! POSTS_CACHE_KEY →
  ls_condition e2 ≠ Unavailable →
  ((now e2 ≤ now e + oneHour)%Z → getCachedPosts e2 = (Normal (Data D), e2)) ∧
  ((now e + oneHour < now e2)%Z →
   ∃ e3, getCachedPosts e2 = (Normal null, e3) ∧
         ls_items e3 = delete POSTS_CACHE_KEY (ls_items e2)).
Proof.
  intros Hc Hk Hr. rewrite cachePosts_healthy in Hk by done. simpl in Hk.
  rewrite lookup_insert_eq in Hk.
  rewrite (getCachedPosts_snapshot _ _ _ Hr Hk). split; intros Ht.
  - destruct (Z.ltb_spec oneHour (now e2 - now e)); [lia | done].
  - destruct (Z.ltb_spec oneHour (now e2 - now e)); [| lia]. eauto.
Qed.

(** C3 at concrete times: a snapshot written at time 0 and read one second
    later, and read one millisecond after the hour. *)
Lemma C3_cache_snapshot_expiry_witness :
  getCachedPosts (H := no_coercion)
    (with_now 1000 (cachePosts (Data sample_posts) fresh_page).2)
  = (Normal (Data sample_posts),
     with_now 1000 (cachePosts (Data sample_posts) fresh_page).2) ∧
  ∃ e3, getCachedPosts (H := no_coercion)
          (with_now 3600001 (cachePosts (Data sample_posts) fresh_page).2)
        = (Normal null, e3) ∧
        ls_items e3 =
          delete POSTS_CACHE_KEY
            (ls_items (with_now 3600001 (cachePosts (Data sample_posts) fresh_page).2)).
Proof.
  split.
  - apply (C3_cache_snapshot_expiry (H := no_coercion) sample_posts fresh_page
             (with_now 1000 (cachePosts (Data sample_posts) fresh_page).2));
      [reflexivity | reflexivity | discriminate | vm_compute; discriminate].
  - apply (C3_cache_snapshot_expiry (H := no_coercion) sample_posts fresh_page
             (with_now 3600001 (cachePosts (Data sample_posts) fresh_page).2));
      [reflexivity | reflexivity | discriminate | reflexivity].
Defined.

(** C3 as the specification states it fails at the boundary: read exactly one
    hour after it was written, the snapshot is still returned and still
    stored. *)
Lemma C3_read_at_exactly_one_hour :
  let written := (cachePosts (Data sample_posts) fresh_page).2 in
  let read := getCachedPosts (H := no_coercion) (with_now (0 + oneHour) written) in
  read.1 = Normal (Data sample_posts) ∧
  ls_items read.2 !! POSTS_CACHE_KEY = ls_items written !! POSTS_CACHE_KEY ∧
  is_Some (ls_items read.2 !! POSTS_CACHE_KEY).
Proof.
  vm_compute. repeat split. eauto.
Qed.

(** ** The remote data client and the edit overlay *)

Section api_facts.
Context {App : Type}.
Implicit Types (e : env App).

(** A request changes nothing but the console. *)
Lemma makeRequest_frame url method body e :
  ∃ c e1, makeRequest url method body e = (c, e1) ∧
          ls_items e1 = ls_items e ∧ ls_condition e1 = ls_condition e ∧
          now e1 = now e.
Proof.
  unfold makeRequest, fetch, response_json, console_log. unfold_M.
  destruct (network e _) as [r|err]; simpl.
  - destruct (ok r); simpl; [destruct (JSON_parse (payload r))|]; simpl; eauto 10.
  - eauto 10.
Qed.

Lemma saveEditedPost_healthy postId data e :
  ls_condition e = Healthy →
  saveEditedPost postId (Data data) e =
    (Normal tt,
     with_items (insert (EDITED_POST_PREFIX +:+ ToString postId)
                   (Text (JObj (<["data" := data]> {["timestamp" := JNum (now e)]})))) e).
Proof.
  intros Hc. unfold saveEditedPost, Date_now. unfold_M. simpl stamped.
  by rewrite setItem_healthy.
Qed.

Lemma saveEditedPost_returns postId data e :
  ∃ e', saveEditedPost postId data e = (Normal tt, e').
Proof.
  unfold saveEditedPost, Date_now. unfold_M. apply setItem_returns.
Qed.

Lemma getEditedPost_overlay postId data t e :
  ls_condition e ≠ Unavailable →
  ls_items e !! (EDITED_POST_PREFIX +:+ ToString postId) =
    Some (Text (JObj (<["data" := data]> {["timestamp" := JNum t]}))) →
  getEditedPost postId e = (Normal (Data data), e).
Proof.
  intros Hc Hk. unfold getEditedPost. unfold_M.
  rewrite (getItem_stored _ _ _ Hc Hk). simpl. by rewrite lookup_insert_eq.
Qed.

Lemma getEditedPost_none postId e :
  ls_items e !! (EDITED_POST_PREFIX +:+ ToString postId) = None →
  ∃ e', getEditedPost postId e = (Normal null, e') ∧ ls_items e' = ls_items e.
Proof.
  intros Hk. unfold getEditedPost. unfold_M.
  destruct (getItem_missing _ _ Hk) as (e' & -> & He'). simpl. eauto.
Qed.

End api_facts.

(** C4, as amended.  For every id and every JSON data object, [updatePost]
    never yields a failed result: it resolves with the response of the remote
    call when that call succeeds and with the data when it fails.  Either
    way, when the store accepts the write, [getEditedPost] for the id
    afterwards returns the data. *)
Theorem C4_update_saves_locally {App : Type}
    (postId : number) (data : json) (e : env App) :
  ∃ v e',
    updatePost postId (Data data) e = (Normal v, e') ∧
    v = match (makeRequest (BASE_URL +:+ "/posts/" +:+ ToString postId) "PUT"
                           (Some (Text data)) e).1 with
        | Normal response => Data response
        | Throw _ => Data data
        end ∧
    (ls_condition e = Healthy →
     getEditedPost postId e' = (Normal (Data data), e')).
Proof.
  unfold updatePost. unfold_M. simpl request_body. cbv iota beta.
  destruct (makeRequest_frame (BASE_URL +:+ "/posts/" +:+ ToString postId) "PUT"
              (Some (Text data)) e) as (c & e1 & Hreq & Hitems & Hcond & Hnow).
  rewrite Hreq. simpl.
  destruct (saveEditedPost_returns postId (Data data) e1) as (e2 & Hsave).
  assert (Hread : ls_condition e = Healthy →
                  ∀ msg, getEditedPost postId (with_console (λ c, c ++ [(LInfo, msg)]) e2)
                         = (Normal (Data data), with_console (λ c, c ++ [(LInfo, msg)]) e2)).
  { intros Hc msg. rewrite saveEditedPost_healthy in Hsave by congruence.
    injection Hsave as <-.
    eapply getEditedPost_overlay; simpl; [congruence | apply lookup_insert_eq]. }
  destruct c as [response|err]; rewrite Hsave; unfold console_log; simpl;
    do 2 eexists; (split; [reflexivity|]); (split; [reflexivity|]); auto.
Qed.

(** C4 as the specification states it fails: when the remote call succeeds,
    [updatePost] resolves with the remote response, not with the data that
    was saved; and when the store refuses the write, nothing is saved and
    [getEditedPost] returns [null]. *)
Lemma C4_resolves_with_remote_response :
  let data := JObj {["title" := JStr "mine"]} in
  let response := JObj (<["id" := JNum 1]> {["title" := JStr "theirs"]}) in
  (updatePost (Num 1) (Data data) (with_network (answering response) fresh_page)).1
    = Normal (Data response) ∧
  (getEditedPost (Num 1)
     (updatePost (Num 1) (Data data) (with_condition QuotaExceeded fresh_page)).2).1
    = Normal null.
Proof.
  vm_compute. split; reflexivity.
Qed.

Section merge_of_records.
Context `{Builtins}.

(** Of an object without a property [__proto__] of its own, [Object.assign]
    copies every property, and leaves alone what the target inherits
    from. *)
Lemma assign_source_all (m : gmap string json) target :
  m !! "__proto__" = None →
  assign_source target (Data (JObj m)) = (m ∪ target.1, target.2).
Proof.
  intros Hm. unfold assign_source. cbn [own_properties]. rewrite Hm.
  by rewrite delete_id.
Qed.

(** [Object.assign({}, canonical, overlay)], key by key. *)
Lemma Object_assign_prefers_overlay (canonical overlay : gmap string json) :
  canonical !! "__proto__" = None →
  overlay !! "__proto__" = None →
  ∃ merged,
    Object_assign [Data (JObj canonical); Data (JObj overlay)] = JObj merged ∧
    ∀ k, merged !! k = match overlay !! k with
                       | Some v => Some v
                       | None => canonical !! k
                       end.
Proof.
  intros Hc Ho. unfold Object_assign. cbn [foldl].
  rewrite !assign_source_all by done. eexists; split; [reflexivity|].
  cbn [fst].
  intros k. rewrite lookup_union, lookup_union, lookup_empty.
  by destruct (overlay !! k), (canonical !! k).
Qed.

End merge_of_records.

(** C2, as amended.  For a canonical record fetched for an id and an
    overlay object stored for that id, neither of them with a property
    [__proto__] of its own, and whatever their key sets otherwise, the record
    [getPostWithEdits] returns has, for each key, the overlay's value when
    the overlay has the key and the canonical record's value when it has
    not; when nothing is stored for the id, the canonical record is returned
    unchanged. *)
Theorem C2_merged_record_prefers_overlay `{Builtins} {App : Type}
    (postId : number) (canonical overlay : gmap string json) (e e1 : env App) :
  fetchPost postId e = (Normal (Data (JObj canonical)), e1) →
  (canonical !! "__proto__" = None →
   overlay !! "__proto__" = None →
   ∀ e2, getEditedPost postId e1 = (Normal (Data (JObj overlay)), e2) →
     ∃ merged,
       getPostWithEdits postId e = (Normal (Data (JObj merged)), e2) ∧
       ∀ k, merged !! k = match overlay !! k with
                          | Some v => Some v
                          | None => canonical !! k
                          end) ∧
  (ls_items e1 !! (EDITED_POST_PREFIX +:+ ToString postId) = None →
   ∃ e2, getPostWithEdits postId e = (Normal (Data (JObj canonical)), e2)).
Proof.
  intros Hfetch. unfold getPostWithEdits. unfold_M. rewrite Hfetch. split.
  - intros Hc Ho e2 ->. cbn [truthy_value truthy]. cbv iota.
    destruct (Object_assign_prefers_overlay canonical overlay Hc Ho)
      as (merged & -> & Hmerged).
    by exists merged.
  - intros Hk. destruct (getEditedPost_none _ _ Hk) as (e2 & -> & _). simpl. eauto.
Qed.

(** C2 on a record of three fields and an overlay that replaces one of them
    and adds a fourth. *)
Lemma C2_merged_record_prefers_overlay_witness :
  let canonical : gmap string json :=
    <["id" := JNum 1]> (<["title" := JStr "a"]> {["body" := JStr "b"]}) in
  let overlay : gmap string json :=
    <["title" := JStr "X"]> {["note" := JStr "n"]} in
  let e := with_network (answering (JObj canonical))
             (saveEditedPost (Num 1) (Data (JObj overlay)) fresh_page).2 in
  ∃ merged,
    getPostWithEdits (H := no_coercion) (Num 1) e = (Normal (Data (JObj merged)), e) ∧
    ∀ k, merged !! k = match overlay !! k with
                       | Some v => Some v
                       | None => canonical !! k
                       end.
Proof.
  intros canonical overlay e.
  apply (proj1 (C2_merged_record_prefers_overlay (H := no_coercion)
                  (Num 1) canonical overlay e e eq_refl));
    reflexivity.
Defined.

(** C2 as the specification states it fails for the key [__proto__], which
    [JSON.parse] makes a property like any other of the overlay it reads
    from the store: [Object.assign] does not copy it, and the merged record
    has neither the overlay's value under that key nor the key. *)
Lemma C2_overlay_key_not_copied :
  let canonical : gmap string json := {["id" := JNum 1]} in
  let overlay : gmap string json :=
    <["__proto__" := JNum 5]> {["title" := JStr "X"]} in
  let e := with_network (answering (JObj canonical))
             (saveEditedPost (Num 1) (Data (JObj overlay)) fresh_page).2 in
  (getEditedPost (Num 1) e).1 = Normal (Data (JObj overlay)) ∧
  overlay !! "__proto__" = Some (JNum 5) ∧
  (getPostWithEdits (H := no_coercion) (Num 1) e).1 =
    Normal (Data (JObj (<["id" := JNum 1]> {["title" := JStr "X"]}))).
Proof.
  vm_compute. repeat split.
Qed.

(** The key is stored after all when an earlier source has left the target
    inheriting from nothing, where no setter is found for it. *)
Example Object_assign_without_prototype :
  Object_assign (H := no_coercion)
    [Data (JObj {["__proto__" := JNull]}); Data (JObj {["__proto__" := JNum 5]})]
  = JObj {["__proto__" := JNum 5]} ∧
  Object_assign (H := no_coercion)
    [Data (JObj {["__proto__" := JObj ∅]}); Data (JObj {["__proto__" := JNum 5]})]
  = JObj ∅.
Proof. vm_compute. split; reflexivity. Qed.

Section collection_facts.
Context {App : Type} `{Builtins}.
Implicit Types (e : env App).

(** The same merge, record by record, in the collection: a record whose
    numeric [id] is among the edited ones is merged with its overlay, the
    overlay winning key by key; any other record is returned as it is. *)
Lemma with_edits_prefers_overlay (editedPostIds : list Z) (n : Z)
    (canonical overlay : gmap string json) e e2 :
  canonical !! "id" = Some (JNum n) →
  n ∈ editedPostIds →
  canonical !! "__proto__" = None →
  overlay !! "__proto__" = None →
  getEditedPost (Num n) e = (Normal (Data (JObj overlay)), e2) →
  ∃ merged,
    with_edits editedPostIds (JObj canonical) e = (Normal (JObj merged), e2) ∧
    ∀ k, merged !! k = match overlay !! k with
                       | Some v => Some v
                       | None => canonical !! k
                       end.
Proof.
  intros Hid Hin Hc Ho Hget. unfold with_edits. unfold_M. simpl. rewrite Hid.
  rewrite bool_decide_true by done. rewrite Hget.
  destruct (Object_assign_prefers_overlay canonical overlay Hc Ho)
    as (merged & -> & Hmerged).
  by exists merged.
Qed.

Lemma with_edits_unedited (editedPostIds : list Z) (n : Z)
    (canonical : gmap string json) e :
  canonical !! "id" = Some (JNum n) →
  n ∉ editedPostIds →
  with_edits editedPostIds (JObj canonical) e = (Normal (JObj canonical), e).
Proof.
  intros Hid Hout. unfold with_edits. unfold_M. simpl. rewrite Hid.
  by rewrite bool_decide_false.
Qed.

End collection_facts.

(** The scenario of the specification: two records in the cache, an overlay
    stored for the second; the merged collection has the overlay's title in
    the second record and the first record unchanged, and only the second
    counts as edited. *)
Example merged_collection_scenario :
  let posts := JArr [JObj (<["id" := JNum 1]> {["title" := JStr "a"]});
                     JObj (<["id" := JNum 2]> {["title" := JStr "b"]})] in
  let e := (saveEditedPost (Num 2) (Data (JObj {["title" := JStr "X"]}))
              (cachePosts (Data posts) fresh_page).2).2 in
  (getPostsWithEdits (H := no_coercion) e).1 =
    Normal (Data (JArr [JObj (<["id" := JNum 1]> {["title" := JStr "a"]});
                        JObj (<["id" := JNum 2]> {["title" := JStr "X"]})])) ∧
  (isPostEdited (Num 1) e).1 = Normal false ∧
  (isPostEdited (Num 2) e).1 = Normal true.
Proof.
  vm_compute. repeat split.
Qed.

(** ** Retrying a request *)

Section retry_facts.
Context {App : Type}.
Implicit Types (e : env App) (requestFn : env App → attempt * env App).

Lemma or_default_positive x d :
  (0 < d)%Z → (∀ m, x = Some m → (0 ≤ m)%Z) → (0 < or_default x d)%Z.
Proof.
  intros Hd Hx. unfold or_default. destruct x as [m|]; [|done].
  specialize (Hx m eq_refl). destruct (Z.eqb_spec m 0); lia.
Qed.

Lemma or_default_nonzero x d : d ≠ 0%Z → or_default x d ≠ 0%Z.
Proof.
  intros Hd. unfold or_default. destruct x as [z|]; [|done].
  by destruct (Z.eqb_spec z 0).
Qed.

Lemma or_default_some z d : z ≠ 0%Z → or_default (Some z) d = z.
Proof. intros Hz. unfold or_default. by destruct (Z.eqb_spec z 0). Qed.

(** With a number given that is at least 1, [x || d] is that number. *)
Lemma or_default_given x d :
  (∀ z, x = Some z → (1 ≤ z)%Z) → or_default x d = default d x.
Proof.
  intros Hx. destruct x as [z|]; [|done]. simpl.
  specialize (Hx z eq_refl). destruct (Z.eqb_spec z 0); [lia | done].
Qed.

Lemma retryRequest_keeps_retrying requestFn fuel :
  (∀ e0, ∃ err e1, requestFn e0 = (Settles (Throw err), e1)) →
  ∀ maxRetries delay calls e,
    (∀ m, maxRetries = Some m → (0 ≤ m)%Z) →
    (retryRequest fuel requestFn maxRetries delay calls e).1 =
      mkRetryRun Unsettled (calls + fuel).
Proof.
  intros Hfail. induction fuel as [|fuel IH]; intros maxRetries delay calls e Hm; simpl.
  - f_equal. lia.
  - destruct (Hfail e) as (err & e1 & ->).
    pose proof (or_default_positive maxRetries 3 eq_refl Hm) as Hpos.
    destruct (Z.leb_spec (or_default maxRetries 3) 0); [lia|].
    match goal with |- context [retryRequest fuel requestFn ?m ?d ?c ?e3] =>
      specialize (IH m d c e3); destruct (retryRequest fuel requestFn m d c e3) as [run e4]
    end.
    simpl in IH. rewrite IH by (intros m [= <-]; lia). simpl. f_equal. lia.
Qed.

Lemma retryRequest_first_success requestFn value e_final k :
  ∀ fuel maxRetries delay calls e,
    (Z.of_nat k ≤ or_default maxRetries 3)%Z →
    fails_first k requestFn (or_default delay 1000) e value e_final →
    k < fuel →
    retryRequest fuel requestFn maxRetries delay calls e =
      (mkRetryRun (Settled (Normal value)) (calls + S k), e_final).
Proof.
  induction k as [|k IH]; intros fuel maxRetries delay calls e Hk Hrun Hfuel;
    (destruct fuel as [|fuel]; [lia|]); simpl in Hrun |- *.
  - rewrite Hrun. do 2 f_equal. lia.
  - destruct Hrun as (err & e1 & -> & Hrun).
    destruct (Z.leb_spec (or_default maxRetries 3) 0); [lia|].
    assert (Hd : (or_default delay 1000 * 2)%Z ≠ 0%Z).
    { pose proof (or_default_nonzero delay 1000). lia. }
    unfold after_wait in Hrun. simpl in Hrun.
    erewrite (IH fuel (Some (or_default maxRetries 3 - 1)%Z)
                (Some (or_default delay 1000 * 2)%Z) (S calls)).
    + simpl. do 2 f_equal. lia.
    + unfold or_default at 1.
      destruct (Z.eqb_spec (or_default maxRetries 3 - 1) 0); lia.
    + rewrite or_default_some by done. exact Hrun.
    + lia.
Qed.

(** [retryRequest] throws only what the first call of the request function
    throws. *)
Lemma retryRequest_thrown requestFn fuel maxRetries delay calls e err :
  result (retryRequest fuel requestFn maxRetries delay calls e).1 = Thrown err →
  retryRequest fuel requestFn maxRetries delay calls e =
    (mkRetryRun (Thrown err) (S calls), (requestFn e).2) ∧
  (requestFn e).1 = Throws err.
Proof.
  destruct fuel as [|fuel]; [done|]. simpl.
  destruct (requestFn e) as [[[value|error]|error] e1]; simpl; [done| |by intros [= ->]].
  destruct (_ <=? _)%Z; [done|].
  match goal with |- context [retryRequest fuel requestFn ?m ?d ?c ?e3] =>
    destruct (retryRequest fuel requestFn m d c e3) as [[[] n] e4]
  end; done.
Qed.

(** With a retry count that is absent or at least 0, [retryRequest] rejects
    only with what a later call of the request function threw. *)
Lemma retryRequest_rejects_later requestFn fuel :
  ∀ maxRetries delay calls e err,
    (∀ m, maxRetries = Some m → (0 ≤ m)%Z) →
    result (retryRequest fuel requestFn maxRetries delay calls e).1 = Settled (Throw err) →
    S calls < invocations (retryRequest fuel requestFn maxRetries delay calls e).1 ∧
    ∃ e0, requestFn e0 =
            (Throws err, (retryRequest fuel requestFn maxRetries delay calls e).2).
Proof.
  induction fuel as [|fuel IH]; intros maxRetries delay calls e err Hm; [done|]. simpl.
  destruct (requestFn e) as [[[value|error]|error] e1]; simpl; [done| |done].
  pose proof (or_default_positive maxRetries 3 eq_refl Hm) as Hpos.
  destruct (Z.leb_spec (or_default maxRetries 3) 0); [lia|].
  match goal with |- context [retryRequest fuel requestFn ?m ?d ?c ?e3] =>
    pose proof (IH m d c e3 err) as IH';
    pose proof (retryRequest_thrown requestFn fuel m d c e3) as Hthrown;
    destruct (retryRequest fuel requestFn m d c e3) as [[r n] e4] eqn:Hrec
  end.
  destruct r as [|c|error']; simpl in *; [done| |].
  - intros Hc. destruct IH' as [Hn He0]; [intros m [= <-]; lia | done |].
    split; [lia | done].
  - intros [= ->]. destruct (Hthrown err eq_refl) as [[= -> He4] Hreq].
    split; [lia|]. eexists. apply injective_projections; simpl; [exact Hreq | done].
Qed.

End retry_facts.

(** C7, as amended.  With a retry count of at least 1, or none given, which
    counts as 3, and a first delay of at least 1 ms, or none given, which
    counts as 1000 ms: when the promise of the request is rejected [k]
    times, [k] at most the retry count, and then resolved, [retryRequest]
    waits after each rejection, the delay doubling from one wait to the
    next, calls the request again, and resolves with the value of that first
    success, having called the request [k + 1] times: up to one more than the
    retry count. *)
Theorem C7_retry_returns_first_success {App : Type}
    (requestFn : env App → attempt * env App) (maxRetries delay : option Z)
    (k fuel : nat) (e e_final : env App) (value : jsvalue) :
  (∀ m, maxRetries = Some m → (1 ≤ m)%Z) →
  (∀ d, delay = Some d → (1 ≤ d)%Z) →
  (Z.of_nat k ≤ default 3%Z maxRetries)%Z →
  fails_first k requestFn (default 1000%Z delay) e value e_final →
  k < fuel →
  retryRequest fuel requestFn maxRetries delay 0 e =
    (mkRetryRun (Settled (Normal value)) (S k), e_final).
Proof.
  intros Hm Hd Hk Hrun Hfuel.
  rewrite <- (or_default_given maxRetries 3 Hm) in Hk.
  rewrite <- (or_default_given delay 1000 Hd) in Hrun.
  by rewrite (retryRequest_first_success _ value e_final k).
Qed.

(** C7 at [retryRequest(flaky, 3, 1000)]: three rejections, three waits of
    1000, 2000 and 4000 ms, then the success. *)
Lemma C7_retry_returns_first_success_witness :
  retryRequest 10 flaky (Some 3%Z) (Some 1000%Z) 0 fresh_page =
    (mkRetryRun (Settled (Normal null)) 4,
     after_wait 4000 (after_wait 2000 (after_wait 1000 fresh_page))) ∧
  timers (after_wait 4000 (after_wait 2000 (after_wait 1000 fresh_page)))
    = [1000; 2000; 4000]%Z.
Proof.
  split; [|reflexivity].
  apply (C7_retry_returns_first_success flaky (Some 3%Z) (Some 1000%Z) 3 10 fresh_page).
  - intros m [= <-]. lia.
  - intros d [= <-]. lia.
  - simpl. lia.
  - simpl. do 3 (eexists _, _; split; [reflexivity|]). reflexivity.
  - lia.
Defined.

(** C7 as the specification states it fails: with [maxAttempts] 3 the
    request is called four times, the first call and three retries. *)
Lemma C7_three_retries_make_four_calls :
  invocations (retryRequest 10 flaky (Some 3%Z) (Some 1000%Z) 0 fresh_page).1 = 4 ∧
  result (retryRequest 10 flaky (Some 3%Z) (Some 1000%Z) 0 fresh_page).1
    = Settled (Normal null).
Proof. split; reflexivity. Qed.

(** X14.  Beyond that the helper does not give up.  When the promise of the
    request function is rejected every time and [maxRetries] is absent or at
    least 0, the run is still unsettled when the fuel runs out, whatever the
    fuel, and it has called the request function once for every unit of
    fuel: the retry count reaches 0 in the recursive call, where
    [maxRetries || 3] takes it for absent and sets it to 3 again. *)
Theorem retry_never_gives_up {App : Type}
    (requestFn : env App → attempt * env App) (maxRetries delay : option Z)
    (fuel : nat) (e : env App) :
  (∀ e0, ∃ err e1, requestFn e0 = (Settles (Throw err), e1)) →
  (∀ m, maxRetries = Some m → (0 ≤ m)%Z) →
  result (retryRequest fuel requestFn maxRetries delay 0 e).1 = Unsettled ∧
  invocations (retryRequest fuel requestFn maxRetries delay 0 e).1 = fuel.
Proof.
  intros Hfail Hm. by rewrite retryRequest_keeps_retrying.
Qed.

(** [retryRequest(failing, 3, 1000)]: after ten calls the helper is still
    retrying. *)
Example retry_never_gives_up_example :
  result (retryRequest 10 failing (Some 3%Z) (Some 1000%Z) 0 fresh_page).1 = Unsettled ∧
  invocations (retryRequest 10 failing (Some 3%Z) (Some 1000%Z) 0 fresh_page).1 = 10.
Proof. split; reflexivity. Qed.

(** The delays of that run double from one retry to the next, past the
    third. *)
Example retry_delays_double :
  timers (retryRequest 5 failing (Some 3%Z) (Some 1000%Z) 0 fresh_page).2
    = [1000; 2000; 4000; 8000; 16000]%Z.
Proof. reflexivity. Qed.

(** The helper gives up only on a retry count below 0. *)
Example retry_gives_up_below_zero :
  (retryRequest 5 failing (Some (-1)%Z) (Some 1000%Z) 0 fresh_page).1
    = mkRetryRun (Settled (Throw (mkExn Error "boom"))) 1.
Proof. reflexivity. Qed.

(** [retryRequest(ApiService.fetchPosts)] on a page just loaded, the network
    being down and nothing cached: each call of [fetchPosts] returns a
    promise that is rejected, and the helper goes on retrying. *)
Example retry_of_fetchPosts :
  let run := retryRequest 3 (returning (fetchPosts (H := no_coercion)))
               None None 0 fresh_page in
  run.1 = mkRetryRun Unsettled 3 ∧ timers run.2 = [1000; 2000; 4000]%Z.
Proof. vm_compute. split; reflexivity. Qed.

(** What the request function throws is not retried: thrown by the first
    call it escapes [retryRequest], thrown by a later call it rejects the
    promise. *)
Example retry_of_a_throwing_request :
  (retryRequest 5 (λ e, (Throws (mkExn Error "boom"), e)) (Some 3%Z) (Some 1000%Z) 0
     fresh_page).1 = mkRetryRun (Thrown (mkExn Error "boom")) 1 ∧
  (retryRequest 5 breaking (Some 3%Z) (Some 1000%Z) 0 fresh_page).1
    = mkRetryRun (Settled (Throw (mkExn TypeError "request is not a function"))) 2.
Proof. split; reflexivity. Qed.

(** ** URI components, fragments and their parsing *)

Section uri_facts.
Import URI.

Lemma unreserved_plain c :
  unreserved c = true →
  Ascii.eqb c "%" = false ∧ Ascii.eqb c "&" = false ∧
  Ascii.eqb c "=" = false ∧ Ascii.eqb c "?" = false.
Proof.
  destruct c as [[] [] [] [] [] [] [] []]; vm_compute; intros; try discriminate; done.
Qed.

Lemma unescape_percent c rest :
  unescape (percent c +:+ rest) = String c <$> unescape rest.
Proof.
  destruct c as [[] [] [] [] [] [] [] []]; reflexivity.
Qed.

Lemma unescape_encode s : unescape (encodeURIComponent s) = Some s.
Proof.
  induction s as [|c s IH]; [done|]. simpl.
  destruct (unreserved c) eqn:Hc.
  - destruct (unreserved_plain c Hc) as (Hp & _). simpl. rewrite Hp, IH. done.
  - rewrite unescape_percent, IH. done.
Qed.

Lemma decode_encode s :
  utf8_valid s = true → decodeURIComponent (encodeURIComponent s) = Normal s.
Proof.
  intros Hs. unfold decodeURIComponent. by rewrite unescape_encode, Hs.
Qed.

Lemma mentions_percent sep c rest :
  sep = "&"%char ∨ sep = "="%char ∨ sep = "?"%char →
  mentions sep (percent c +:+ rest) = mentions sep rest.
Proof.
  intros [-> | [-> | ->]]; destruct c as [[] [] [] [] [] [] [] []]; reflexivity.
Qed.

Lemma encode_plain sep s :
  sep = "&"%char ∨ sep = "="%char ∨ sep = "?"%char →
  mentions sep (encodeURIComponent s) = false.
Proof.
  intros Hsep. induction s as [|c s IH]; [done|]. simpl.
  destruct (unreserved c) eqn:Hc.
  - simpl. rewrite IH, orb_false_r.
    destruct (unreserved_plain c Hc) as (_ & Ha & He & Hq).
    by destruct Hsep as [-> | [-> | ->]].
  - by rewrite mentions_percent.
Qed.

Lemma mentions_app sep s1 s2 :
  mentions sep (s1 +:+ s2) = mentions sep s1 || mentions sep s2.
Proof.
  induction s1 as [|c s1 IH]; [done|]. simpl. by rewrite IH, orb_assoc.
Qed.

Lemma split_plain sep s : mentions sep s = false → split sep s = [s].
Proof.
  induction s as [|c s IH]; [done|]. simpl. intros [Hc Hs]%orb_false_elim.
  by rewrite Hc, IH.
Qed.

Lemma split_app sep s1 s2 :
  mentions sep s1 = false →
  split sep (s1 +:+ String sep s2) = s1 :: split sep s2.
Proof.
  induction s1 as [|c s1 IH]; simpl.
  - intros _. by rewrite Ascii.eqb_refl.
  - intros [Hc Hs]%orb_false_elim. by rewrite Hc, IH.
Qed.

Lemma split_join sep pieces :
  pieces ≠ [] →
  Forall (λ piece, mentions sep piece = false) pieces →
  split sep (join (String sep "") pieces) = pieces.
Proof.
  intros Hne Hall. induction Hall as [|piece rest Hp Hrest IH]; [done|].
  destruct rest as [|piece' rest].
  - simpl. by apply split_plain.
  - change (join (String sep "") (piece :: piece' :: rest))
      with (piece +:+ String sep "" +:+ join (String sep "") (piece' :: rest)).
    change (String sep "" +:+ ?x) with (String sep x).
    rewrite split_app by done. by rewrite IH.
Qed.

End uri_facts.

Section fragment_facts.
Context {App : Type}.
Import URI Router.
Implicit Types (s : state (App := App)) (params : gmap string string).

(** One [key=value] piece of a query string. *)
Lemma split_pair k v :
  split "=" (encodeURIComponent k +:+ "=" +:+ encodeURIComponent v)
  = [encodeURIComponent k; encodeURIComponent v].
Proof.
  change ("=" +:+ ?x) with (String "="%char x).
  rewrite split_app by (apply encode_plain; auto).
  rewrite split_plain by (apply encode_plain; auto). done.
Qed.

Lemma pair_plain sep k v :
  sep = "&"%char ∨ sep = "?"%char →
  mentions sep (encodeURIComponent k +:+ "=" +:+ encodeURIComponent v) = false.
Proof.
  intros Hsep. rewrite !mentions_app, !encode_plain by tauto.
  by destruct Hsep as [-> | ->].
Qed.

(** A key other than [__proto__] is stored. *)
Lemma assign_stored {V} (k : string) (v : V) (m : gmap string V) :
  k ≠ "__proto__" → assign k v m = <[k := v]> m.
Proof. intros Hk. unfold assign. by destruct (String.eqb_spec k "__proto__"). Qed.

Lemma parse_params_encoded (l : list (string * string)) acc :
  Forall (λ kv, utf8_valid kv.1 = true ∧ utf8_valid kv.2 = true ∧
                kv.1 ≠ "__proto__") l →
  parse_params
    (map (λ kv, encodeURIComponent kv.1 +:+ "=" +:+ encodeURIComponent kv.2) l) acc
  = Normal (foldl (λ m kv, <[kv.1 := kv.2]> m) acc l).
Proof.
  intros Hl. revert acc.
  induction Hl as [|[k v] l (Hk & Hv & Hp) Hl IH]; intros acc; [done|].
  cbn [map parse_params fst snd]. rewrite split_pair.
  rewrite !decode_encode by done. rewrite assign_stored by done. apply IH.
Qed.

Lemma foldl_insert_lookup (l : list (string * string)) (acc : gmap string string) k :
  NoDup l.*1 →
  foldl (λ m kv, <[kv.1 := kv.2]> m) acc l !! k =
    match (list_to_map l : gmap string string) !! k with
    | Some v => Some v
    | None => acc !! k
    end.
Proof.
  revert acc. induction l as [|[k0 v0] l IH]; intros acc Hnd; [done|].
  apply NoDup_cons in Hnd as [Hk0 Hnd]. cbn [foldl fst snd list_to_map foldr].
  rewrite IH by done. cbn. destruct (decide (k = k0)) as [->|Hne].
  - rewrite lookup_insert_eq.
    rewrite (not_elem_of_list_to_map_1 (M := gmap string) l k0 Hk0).
    by rewrite lookup_insert_eq.
  - rewrite !lookup_insert_ne by done. done.
Qed.

Lemma foldl_insert_map_to_list params :
  foldl (λ m kv, <[kv.1 := kv.2]> m) ∅ (map_to_list params) = params.
Proof.
  apply map_eq. intros k.
  rewrite foldl_insert_lookup by apply NoDup_fst_map_to_list.
  rewrite list_to_map_to_list, lookup_empty. by destruct (params !! k).
Qed.

Lemma parseHash_unfold c rest s :
  parseHash (Some (String "#" (String c rest))) s =
    match (match or_string (split "?" (String c rest) !! 1) "" with
           | EmptyString => Normal ∅
           | String c' q => parse_params (split "&" (String c' q)) ∅
           end) with
    | Normal p =>
        (Normal (mkRouteInfo
                   (or_string (split "?" (String c rest) !! 0) (defaultRoute (router_of s))) p),
         s)
    | Throw err => (Throw err, s)
    end.
Proof.
  destruct s as [r e tr].
  unfold parseHash, get_router, lift_env, get_location_hash. unfold_M.
  cbn [env_of router_of trace or_string strip_hash]. rewrite Ascii.eqb_refl.
  destruct (or_string (split "?" (String c rest) !! 1) "") as [|c' q]; [done|].
  by destruct (parse_params _ _).
Qed.

Lemma join_pairs_plain (l : list (string * string)) :
  mentions "?" (join "&" (map (λ kv, encodeURIComponent kv.1 +:+ "=" +:+
                                       encodeURIComponent kv.2) l)) = false.
Proof.
  induction l as [|[k v] [|kv' l'] IH]; [done| |].
  - simpl. apply pair_plain. auto.
  - change (mentions "?" ((encodeURIComponent k +:+ "=" +:+ encodeURIComponent v)
                          +:+ "&" +:+ join "&" (map
                            (λ kv, encodeURIComponent kv.1 +:+ "=" +:+ encodeURIComponent kv.2)
                            (kv' :: l'))) = false).
    rewrite mentions_app, pair_plain by auto. rewrite mentions_app, IH. done.
Qed.

Lemma join_pairs_nonempty (kv : string * string) l :
  join "&" (map (λ kv, encodeURIComponent kv.1 +:+ "=" +:+ encodeURIComponent kv.2)
              (kv :: l)) ≠ "".
Proof.
  destruct kv as [k v]. destruct l; simpl; destruct (encodeURIComponent k); discriminate.
Qed.

Lemma parseHash_fragment path params s :
  path ≠ "" →
  mentions "?" path = false →
  (∀ k v, params !! k = Some v → utf8_valid k = true ∧ utf8_valid v = true) →
  params !! "__proto__" = None →
  parseHash (Some (fragment path params)) s = (Normal (mkRouteInfo path params), s).
Proof.
  intros Hne Hq Hvalid Hproto. unfold fragment.
  destruct path as [|c path]; [done|].
  destruct (map_to_list params) as [|kv l] eqn:Hl; cbv beta zeta match.
  - apply map_to_list_empty_iff in Hl as ->.
    change ("#" +:+ String c path) with (String "#" (String c path)).
    rewrite parseHash_unfold, split_plain by done. done.
  - set (pieces := map _ (kv :: l)).
    assert (Hpieces : Forall (λ piece, mentions "&" piece = false) pieces).
    { apply Forall_map, Forall_forall. intros [k v] _. apply pair_plain. auto. }
    change (("#" +:+ String c path) +:+ "?" +:+ join "&" pieces)
      with (String "#" (String c (path +:+ String "?" (join "&" pieces)))).
    rewrite parseHash_unfold.
    change (String c (path +:+ String "?" ?x)) with (String c path +:+ String "?" x).
    rewrite split_app by done. rewrite split_plain by apply join_pairs_plain.
    cbn [lookup list_lookup or_string].
    destruct (join "&" pieces) as [|c' q] eqn:Hj.
    { by apply join_pairs_nonempty in Hj. }
    rewrite <- Hj. rewrite (split_join "&") by done.
    subst pieces. rewrite parse_params_encoded.
    + rewrite <- Hl, foldl_insert_map_to_list. done.
    + rewrite <- Hl. apply Forall_forall. intros [k v] Hin.
      apply elem_of_map_to_list in Hin. destruct (Hvalid k v Hin) as [Hk Hv].
      repeat split; [done | done |]. simpl. intros ->. congruence.
Qed.

End fragment_facts.

(** C10, as amended.  For every non-empty path without ['?'] (and so for
    every one that also has no ['#']) and every finite map from strings to
    strings that has no key [__proto__], the keys and values being
    well-formed strings (sequences of bytes that are UTF-8, which a string
    with a lone surrogate has not), [parseHash] applied to
    [generateUrl(path, params)] returns exactly [{ path, params }]: every
    pair survives the percent-encoding and the decoding, and nothing else
    appears. *)
Theorem C10_generateUrl_parseHash_round_trip {App : Type}
    (path : string) (params : gmap string string) (s : Router.state (App := App)) :
  path ≠ "" →
  URI.mentions "?" path = false →
  (∀ k v, params !! k = Some v → URI.utf8_valid k = true ∧ URI.utf8_valid v = true) →
  params !! "__proto__" = None →
  Router.parseHash (Some (Router.generateUrl path params)) s
  = (Normal (Router.mkRouteInfo path params), s).
Proof.
  intros. unfold Router.generateUrl. by apply parseHash_fragment.
Qed.

(** C10 on a path and two parameters, one of them with characters that
    must be escaped. *)
Lemma C10_generateUrl_parseHash_round_trip_witness :
  Router.parseHash
    (Some (Router.generateUrl "detail" (<["id" := "5"]> {["q" := "a b&c=d/é?"]})))
    (visiting "" None)
  = (Normal (Router.mkRouteInfo "detail" (<["id" := "5"]> {["q" := "a b&c=d/é?"]})),
     visiting "" None).
Proof.
  apply C10_generateUrl_parseHash_round_trip;
    [discriminate | reflexivity | | reflexivity].
  intros k v [[<- <-] | [_ Hq]]%lookup_insert_Some; [split; reflexivity|].
  apply lookup_singleton_Some in Hq as [<- <-]. split; reflexivity.
Defined.

(** C10 as the specification states it fails for a mapping with the key
    [__proto__]: [generateUrl] writes the pair into the fragment, and
    [parseHash], assigning it to the object it builds, stores nothing; the
    pair does not survive. *)
Lemma C10_parameter_lost_in_round_trip :
  Router.generateUrl "detail" {["__proto__" := "x"]} = "#detail?__proto__=x" ∧
  (Router.parseHash (Some (Router.generateUrl "detail" {["__proto__" := "x"]}))
     (visiting "" None)).1
  = Normal (Router.mkRouteInfo "detail" ∅).
Proof. split; reflexivity. Qed.

(** The fragment of that example. *)
Example generateUrl_example :
  Router.generateUrl "detail" {["q" := "a b&c=d/é?"]}
  = "#detail?q=a%20b%26c%3Dd%2F%C3%A9%3F".
Proof. reflexivity. Qed.

(** A fragment with a malformed escape makes [parseHash] throw. *)
Example parseHash_malformed_escape :
  (Router.parseHash (Some "#posts?x=%E9") (visiting "" None)).1
  = Throw (mkExn URIError "URI malformed").
Proof. reflexivity. Qed.

(** ** The router *)

Section hook_records.
Import Router.


Lemma hook_events_after_in msg results : ∀ i j c,
  In (EvAfter j c) (hook_events EvAfter msg i results) ↔
  ∃ k, j = i + k ∧ results !! k = Some c.
Proof.
  induction results as [|c0 results IH]; intros i j c; simpl.
  - split; [done | by intros (k & _ & ?)].
  - rewrite in_app_iff, IH. split.
    + intros [[= <- <-] | [Hlog | (k & -> & Hk)]].
      * exists 0. split; [lia | done].
      * destruct c0; simpl in Hlog; [done | by destruct Hlog].
      * exists (S k). split; [lia | done].
    + intros ([|k] & -> & Hk); simpl in Hk.
      * left. injection Hk as ->. f_equal. lia.
      * right. right. exists k. split; [lia | done].
Qed.

(** A run of hooks records nothing but the calls and their error entries. *)
Lemma hook_events_only tag msg results : ∀ i ev,
  In ev (hook_events tag msg i results) →
  (∃ j c, ev = tag j c) ∨ ev = EvLog LError msg.
Proof.
  induction results as [|c0 results IH]; intros i ev; simpl; [done|].
  rewrite in_app_iff. intros [<- | [Hlog | Hin]]; eauto.
  destruct c0; simpl in Hlog; [done|]. destruct Hlog as [<-|[]]. by right.
Qed.

(** The error entry of a hook that raised follows its call at once. *)
Lemma hook_events_raised tag msg results : ∀ i k err,
  results !! k = Some (Throw err) →
  ∃ l1 l2, hook_events tag msg i results =
             l1 ++ tag (i + k) (Throw err) :: EvLog LError msg :: l2.
Proof.
  induction results as [|c0 results IH]; intros i k err Hk; [done|].
  destruct k as [|k]; simpl in Hk.
  - injection Hk as ->. exists [], (hook_events tag msg (S i) results).
    simpl. by rewrite Nat.add_0_r.
  - destruct (IH (S i) k err Hk) as (l1 & l2 & Heq).
    exists (tag i c0 :: (match c0 with Throw _ => [EvLog LError msg] | Normal _ => [] end)
              ++ l1), l2.
    simpl. rewrite Heq, <- app_assoc. by replace (i + S k) with (S i + k) by lia.
Qed.

Lemma allows_false c : allows c = false ↔ c = Normal (Data (JBool false)).
Proof.
  split; [|by intros ->].
  by destruct c as [[| [| [] | | | |] |]|].
Qed.

Lemma forallb_allows_false results :
  forallb allows results = false ↔
  ∃ k, results !! k = Some (Normal (Data (JBool false))).
Proof.
  induction results as [|c results IH]; simpl.
  - split; [done | by intros (k & ?)].
  - rewrite andb_false_iff, IH, allows_false. split.
    + intros [-> | (k & Hk)]; [by exists 0 | by exists (S k)].
    + intros ([|k] & Hk); simpl in Hk; [left; congruence | right; eauto].
Qed.


End hook_records.

Section router_facts.
Context {App : Type}.
Import Router.
Implicit Types (s : state (App := App)) (e : env App) (r : router (App := App)).

(** The hooks before a change all run; they leave the router's variables
    alone and record their calls; the change may proceed unless one of them
    returned [false]. *)
Lemma run_before_spec callbacks : ∀ i cur info b s,
  ∃ results e',
    run_before callbacks i cur info b s =
      (Normal (b && forallb allows results),
       mkState (router_of s) e' (trace s ++ hook_events EvBefore before_error i results)) ∧
    length results = length callbacks.
Proof.
  induction callbacks as [|callback rest IH]; intros i cur info b s.
  - exists [], (env_of s). simpl. rewrite andb_true_r, app_nil_r. by destruct s.
  - cbn [run_before]. unfold invoke, log, lift_env, emit, console_log. unfold_M.
    cbn [env_of router_of trace].
    destruct (callback cur info (env_of s)) as [[result|err] e1].
    + edestruct IH as (results & e' & -> & Hlen).
      exists (Normal result :: results), e'. cbn [env_of router_of trace].
      split; [|by simpl; rewrite Hlen]. f_equal; [|by simpl; rewrite <- app_assoc].
      f_equal. simpl. by destruct (strict_eq_false result), b.
    + edestruct IH as (results & e' & -> & Hlen).
      exists (Throw err :: results), e'. cbn [env_of router_of trace].
      split; [|by simpl; rewrite Hlen]. f_equal. by simpl; rewrite <- !app_assoc.
Qed.

Lemma run_after_spec callbacks : ∀ i cur prev s,
  ∃ results e',
    run_after callbacks i cur prev s =
      (Normal tt,
       mkState (router_of s) e' (trace s ++ hook_events EvAfter after_error i results)) ∧
    length results = length callbacks.
Proof.
  induction callbacks as [|callback rest IH]; intros i cur prev s.
  - exists [], (env_of s). simpl. rewrite app_nil_r. by destruct s.
  - cbn [run_after]. unfold invoke, log, lift_env, emit, console_log. unfold_M.
    cbn [env_of router_of trace].
    destruct (callback cur prev (env_of s)) as [[result|err] e1].
    + edestruct IH as (results & e' & -> & Hlen).
      exists (Normal result :: results), e'. cbn [env_of router_of trace].
      split; [|by simpl; rewrite Hlen]. by simpl; rewrite <- app_assoc.
    + edestruct IH as (results & e' & -> & Hlen).
      exists (Throw err :: results), e'. cbn [env_of router_of trace].
      split; [|by simpl; rewrite Hlen]. by simpl; rewrite <- !app_assoc.
Qed.

End router_facts.

Section transition_facts.
Context {App : Type}.
Import Router.
Implicit Types (s : state (App := App)) (e : env App) (r : router (App := App)).

(** What a transition does once the redirect rules have let it through:
    either a hook before the change returned [false] and only the hooks
    before the change have run, or the change is committed and the title
    update, the handler and the hooks after the change follow. *)
Lemma transition_spec route info s :
  ∃ results e1,
    length results = length (beforeRouteChangeCallbacks (router_of s)) ∧
    if forallb allows results then
      ∃ handled after_results e',
        transition route info s =
          (Normal tt,
           mkState (committed (router_of s) route info) e'
             (trace s ++ hook_events EvBefore before_error 0 results
                      ++ title_events route
                      ++ handler_events route info handled
                      ++ hook_events EvAfter after_error 0 after_results)) ∧
        length after_results = length (afterRouteChangeCallbacks (router_of s))
    else
      transition route info s =
        (Normal tt,
         mkState (router_of s) e1
           (trace s ++ hook_events EvBefore before_error 0 results)).
Proof.
  unfold transition, get_router. unfold_M.
  destruct (run_before_spec (beforeRouteChangeCallbacks (router_of s)) 0
              (view <$> currentRoute (router_of s)) info true s)
    as (results & e1 & -> & Hlen).
  exists results, e1. split; [done|]. rewrite andb_true_l.
  destruct (forallb allows results); [|done]. cbn [negb].
  unfold set_currentRoute, call_handler, invoke, log, lift_env, emit, console_log,
    set_document_title.
  unfold_M. cbn [env_of router_of trace].
  fold (committed (router_of s) route info).
  unfold title_events, handler_events.
  set (r' := committed (router_of s) route info).
  assert (Hafter : ∀ e2 tr,
    ∃ after_results e',
      run_after (afterRouteChangeCallbacks (router_of s)) 0 info
        (view <$> currentRoute (router_of s)) (mkState r' e2 tr)
      = (Normal tt, mkState r' e' (tr ++ hook_events EvAfter after_error 0 after_results)) ∧
      length after_results = length (afterRouteChangeCallbacks (router_of s))).
  { intros e2 tr. apply (run_after_spec _ 0 info _ (mkState r' e2 tr)). }
  destruct (negb (String.eqb (title route) "")); cbn [env_of router_of trace];
    (destruct (handler route) as [h|];
     [ match goal with |- context [h ?p ?prev ?e] =>
         destruct (h p prev e) as [[v|err] e2] end | ];
     cbn [env_of router_of trace];
     match goal with |- context [run_after _ _ _ _ (mkState _ ?e2 ?tr)] =>
       destruct (Hafter e2 tr) as (after_results & e' & -> & Hlen')
     end).
  all: try (exists (Normal v), after_results, e').
  all: try (exists (Throw err), after_results, e').
  all: try (exists (Normal Undefined), after_results, e').
  all: (split; [|done]); simpl; rewrite <- ?app_assoc; simpl; done.
Qed.

End transition_facts.

Section gate_facts.
Context {App : Type}.
Import Router.
Implicit Types (s : state (App := App)) (e : env App) (r : router (App := App)).

(** Looking for the session changes nothing but the console, and changes
    nothing at all when it finds one. *)
Lemma isLoggedIn_frame e :
  ∃ b extra, isLoggedIn e = (Normal b, with_console (λ c, c ++ extra) e).
Proof.
  unfold isLoggedIn, getUser, getItem, localStorage_getItem, console_log. unfold_M.
  destruct e as [items cond t con net h hist p ttl tm a]. unfold with_console. simpl.
  destruct cond; simpl.
  3: { by exists false, [(LError, "Error reading from localStorage:")]. }
  all: destruct (items !! USER_SESSION_KEY) as [[j| |]|]; simpl.
  all: try (eexists _, []; rewrite app_nil_r; reflexivity).
  all: eexists _, [_]; reflexivity.
Qed.

Lemma isLoggedIn_true e e1 : isLoggedIn e = (Normal true, e1) → e1 = e.
Proof.
  unfold isLoggedIn, getUser, getItem, localStorage_getItem, console_log. unfold_M.
  destruct (ls_condition e); simpl.
  3: { intros [=]. }
  all: destruct (ls_items e !! USER_SESSION_KEY) as [[j| |]|]; simpl; intros [= ? ?]; done.
Qed.

Lemma fragment_bare p : fragment p ∅ = "#" +:+ p.
Proof. unfold fragment. by rewrite map_to_list_empty. Qed.

Lemma navigate_replace p s :
  navigate p ∅ true s =
    (Normal tt,
     mkState (router_of s) (location_replace ("#" +:+ p) (env_of s)).2
             (trace s ++ [EvNavigate ("#" +:+ p) true])).
Proof.
  unfold navigate, emit, lift_env. unfold_M. rewrite fragment_bare.
  cbn [env_of router_of trace].
  by destruct (location_replace ("#" +:+ p) (env_of s)) as [[[]|] ?] eqn:Hl;
    unfold location_replace in Hl; destruct (String.eqb _ _); simplify_eq.
Qed.

(** After [location.replace(h)] the fragment is [h], the history is what
    it was, and one more change of fragment is counted if the fragment was
    another. *)
Lemma location_replace_spec h e :
  let e' := (location_replace h e).2 in
  location_hash e' = h ∧ history e' = history e ∧ app e' = app e ∧
  ls_items e' = ls_items e ∧ console e' = console e ∧
  document_title e' = document_title e ∧
  pending e' = (if String.eqb (location_hash e) h then pending e else S (pending e)).
Proof.
  unfold location_replace. destruct (String.eqb_spec (location_hash e) h); simpl; auto 10.
Qed.

Lemma refused_frame route s :
  ∃ b extra,
    refused route s =
      (Normal b, mkState (router_of s) (with_console (λ c, c ++ extra) (env_of s)) (trace s)).
Proof.
  unfold refused, isAuthenticated, lift_env. unfold_M. destruct (requiresAuth route).
  - destruct (isLoggedIn_frame (env_of s)) as (b & extra & ->). eauto.
  - exists false, []. destruct s as [r [] tr]. unfold with_console. simpl.
    by rewrite app_nil_r.
Qed.

Lemma at_login_frame info s :
  ∃ b extra,
    at_login info s =
      (Normal b, mkState (router_of s) (with_console (λ c, c ++ extra) (env_of s)) (trace s)).
Proof.
  unfold at_login, isAuthenticated, lift_env. unfold_M.
  destruct (String.eqb (path info) "login").
  - destruct (isLoggedIn_frame (env_of s)) as (b & extra & ->). eauto.
  - exists false, []. destruct s as [r [] tr]. unfold with_console. simpl.
    by rewrite app_nil_r.
Qed.

Lemma log_spec l msg s :
  log l msg s =
    (Normal tt,
     mkState (router_of s) (with_console (λ c, c ++ [(l, msg)]) (env_of s))
             (trace s ++ [EvLog l msg])).
Proof. reflexivity. Qed.

(** Either a redirect rule applies, and the router logs at most a warning
    and issues one replace-navigation, or the transition goes ahead. *)
Lemma handleRouteChange_cases info s :
  (∃ e' evs,
     handleRouteChange info s = (Normal tt, mkState (router_of s) e' (trace s ++ evs)) ∧
     ∀ ev, In ev evs → (∃ msg, ev = EvLog LWarn msg) ∨ (∃ h, ev = EvNavigate h true)) ∨
  (∃ route e1,
     routes_get (routes (router_of s)) (path info) = Some route ∧
     handleRouteChange info s = transition route info (mkState (router_of s) e1 (trace s))).
Proof.
  unfold handleRouteChange, get_router. unfold_M.
  destruct (routes_get (routes (router_of s)) (path info)) as [route|].
  2: { left. rewrite log_spec, navigate_replace. cbn [env_of router_of trace].
       do 2 eexists. rewrite <- app_assoc.
       split; [reflexivity|]. simpl. intros ev [<- | [<- | []]]; eauto. }
  destruct (refused_frame route s) as ([] & extra & ->).
  { left. rewrite log_spec, navigate_replace. cbn [env_of router_of trace].
    do 2 eexists. rewrite <- app_assoc.
    split; [reflexivity|]. simpl. intros ev [<- | [<- | []]]; eauto. }
  destruct (at_login_frame info (mkState (router_of s)
              (with_console (λ c, c ++ extra) (env_of s)) (trace s)))
    as ([] & extra' & ->); cbn [env_of router_of trace].
  - left. rewrite navigate_replace. cbn [env_of router_of trace].
    do 2 eexists. split; [reflexivity|]. intros ev [<- | []]; eauto.
  - right. eauto.
Qed.

End gate_facts.

Section hook_theorems.
Context {App : Type}.
Import Router.
Implicit Types (s : state (App := App)).

Lemma middle_events_only (route : route (App := App)) info handled ev :
  In ev (title_events route ++ handler_events route info handled) →
  (∃ t, ev = EvTitle t) ∨ (∃ c, ev = EvHandler (path info) c) ∨
  ev = EvLog LError handler_error.
Proof.
  unfold title_events, handler_events. rewrite in_app_iff. intros [Ht | Hh].
  - destruct (negb _); [|done]. destruct Ht as [<- | []]. eauto.
  - destruct (handler route).
    + apply hook_events_only in Hh as [(j & c & ->) | ->]; eauto.
    + destruct Hh as [<- | []]. eauto.
Qed.

(** [handleRouteChange] never throws. *)
Lemma handleRouteChange_returns info s :
  ∃ s' evs, handleRouteChange info s = (Normal tt, s') ∧ trace s' = trace s ++ evs.
Proof.
  destruct (handleRouteChange_cases info s) as [(e' & evs & -> & _) | (route & e1 & _ & ->)].
  - eauto.
  - destruct (transition_spec route info (mkState (router_of s) e1 (trace s)))
      as (results & e2 & _ & Hcase).
    destruct (forallb allows results).
    + destruct Hcase as (handled & after_results & e' & -> & _). eauto.
    + rewrite Hcase. eauto.
Qed.

End hook_theorems.

Section hook_call_facts.
Context {App : Type}.
Import Router.
Implicit Types (s : state (App := App)) (e : env App) (r : router (App := App)).

Lemma hook_calls_length msg (hooks : list (M (env App) jsvalue)) : ∀ e,
  length (hook_calls msg hooks e).1 = length hooks.
Proof.
  induction hooks as [|hook rest IH]; intros e; [done|]. cbn [hook_calls].
  destruct (hook e) as [c e1].
  match goal with |- context [hook_calls msg rest ?e2] =>
    specialize (IH e2); destruct (hook_calls msg rest e2) as [results e3] end.
  simpl in *. by rewrite IH.
Qed.

(** The hooks before a change are called one after the other whatever they
    return or raise; they leave the router's variables alone; the change may
    proceed unless one of them returned [false]. *)
Lemma run_before_calls callbacks : ∀ i cur info b s,
  run_before callbacks i cur info b s =
    (Normal (b && forallb allows
                    (hook_calls before_error ((λ callback, callback cur info) <$> callbacks)
                       (env_of s)).1),
     mkState (router_of s)
       (hook_calls before_error ((λ callback, callback cur info) <$> callbacks) (env_of s)).2
       (trace s ++ hook_events EvBefore before_error i
                     (hook_calls before_error ((λ callback, callback cur info) <$> callbacks)
                        (env_of s)).1)).
Proof.
  induction callbacks as [|callback rest IH]; intros i cur info b s.
  - simpl. rewrite andb_true_r, app_nil_r. by destruct s.
  - unfold before_error in *. cbn [run_before fmap list_fmap hook_calls].
    unfold invoke, log, lift_env, emit, console_log. unfold_M.
    cbn [env_of router_of trace].
    destruct (callback cur info (env_of s)) as [[result|err] e1];
      rewrite IH; cbn [env_of router_of trace];
      match goal with |- context [hook_calls ?m ?h ?e2] =>
        destruct (hook_calls m h e2) as [results e3] end;
      cbn [fst snd forallb allows hook_events]; rewrite <- ?app_assoc; simpl.
    + f_equal. f_equal. by destruct (strict_eq_false result), b.
    + done.
Qed.

Lemma run_after_calls callbacks : ∀ i cur prev s,
  run_after callbacks i cur prev s =
    (Normal tt,
     mkState (router_of s)
       (hook_calls after_error ((λ callback, callback cur prev) <$> callbacks) (env_of s)).2
       (trace s ++ hook_events EvAfter after_error i
                     (hook_calls after_error ((λ callback, callback cur prev) <$> callbacks)
                        (env_of s)).1)).
Proof.
  induction callbacks as [|callback rest IH]; intros i cur prev s.
  - simpl. rewrite app_nil_r. by destruct s.
  - unfold after_error in *. cbn [run_after fmap list_fmap hook_calls].
    unfold invoke, log, lift_env, emit, console_log. unfold_M.
    cbn [env_of router_of trace].
    destruct (callback cur prev (env_of s)) as [[result|err] e1];
      rewrite IH; cbn [env_of router_of trace];
      match goal with |- context [hook_calls ?m ?h ?e2] =>
        destruct (hook_calls m h e2) as [results e3] end;
      cbn [fst snd hook_events]; rewrite <- ?app_assoc; simpl; done.
Qed.

End hook_call_facts.

Section veto_facts.
Context {App : Type}.
Import Router.
Implicit Types (s : state (App := App)) (e : env App) (r : router (App := App)).

Lemma vetoed_by_a_hook (results : list (completion jsvalue)) :
  forallb allows results = false ↔ Normal (Data (JBool false)) ∈ results.
Proof.
  rewrite forallb_allows_false. symmetry. apply list_elem_of_lookup.
Qed.

Lemma allowed_by_all_hooks (results : list (completion jsvalue)) :
  forallb allows results = true ↔ Normal (Data (JBool false)) ∉ results.
Proof.
  rewrite <- vetoed_by_a_hook. by destruct (forallb allows results).
Qed.

(** A transition in which a hook before the change returns [false]: the
    hooks before the change have been called, and that is all. *)
Lemma transition_vetoed route info s :
  Normal (Data (JBool false)) ∈
    (hook_calls before_error (before_hooks (router_of s) info) (env_of s)).1 →
  transition route info s =
    (Normal tt,
     mkState (router_of s)
       (hook_calls before_error (before_hooks (router_of s) info) (env_of s)).2
       (trace s ++ hook_events EvBefore before_error 0
                     (hook_calls before_error (before_hooks (router_of s) info) (env_of s)).1)).
Proof.
  intros Hveto%vetoed_by_a_hook. unfold transition, get_router. unfold_M.
  rewrite run_before_calls. fold (before_hooks (router_of s) info).
  by rewrite Hveto.
Qed.

(** A transition in which no hook before the change returns [false]: the
    change is committed, the title set, the handler called, its error
    logged, and the hooks after the change called one after the other. *)
Lemma transition_allowed route info s :
  Normal (Data (JBool false)) ∉
    (hook_calls before_error (before_hooks (router_of s) info) (env_of s)).1 →
  ∃ handled,
    (hook_calls handler_error
       [handler_call route info (view <$> currentRoute (router_of s))]
       (titled route
          (hook_calls before_error (before_hooks (router_of s) info) (env_of s)).2)).1
      = [handled] ∧
    transition route info s =
      (Normal tt,
       mkState (committed (router_of s) route info)
         (hook_calls after_error (after_hooks (router_of s) info)
            (hook_calls handler_error
               [handler_call route info (view <$> currentRoute (router_of s))]
               (titled route
                  (hook_calls before_error (before_hooks (router_of s) info)
                     (env_of s)).2)).2).2
         (trace s
            ++ hook_events EvBefore before_error 0
                 (hook_calls before_error (before_hooks (router_of s) info) (env_of s)).1
            ++ title_events route
            ++ handler_events route info handled
            ++ hook_events EvAfter after_error 0
                 (hook_calls after_error (after_hooks (router_of s) info)
                    (hook_calls handler_error
                       [handler_call route info (view <$> currentRoute (router_of s))]
                       (titled route
                          (hook_calls before_error (before_hooks (router_of s) info)
                             (env_of s)).2)).2).1)).
Proof.
  intros Hallow%allowed_by_all_hooks. unfold transition, get_router. unfold_M.
  rewrite run_before_calls. fold (before_hooks (router_of s) info).
  rewrite Hallow. cbn [andb negb].
  set (e1 := (hook_calls before_error (before_hooks (router_of s) info) (env_of s)).2).
  set (handling := hook_calls handler_error _ _).
  unfold set_currentRoute, call_handler, invoke, log, lift_env, emit, console_log,
    set_document_title.
  unfold_M. cbn [env_of router_of trace].
  fold (committed (router_of s) route info).
  assert (Hhandling : handling =
    match handler route with
    | Some h =>
        let '(c, e2) := h (params info) (view <$> currentRoute (router_of s))
                          (titled route e1) in
        ([c], match c with
              | Normal _ => e2
              | Throw _ => with_console (λ c, c ++ [(LError, handler_error)]) e2
              end)
    | None =>
        ([Throw (mkExn TypeError "route.handler is not a function")],
         with_console (λ c, c ++ [(LError, handler_error)]) (titled route e1))
    end).
  { subst handling. unfold handler_call. cbn [hook_calls].
    destruct (handler route) as [h|]; [|reflexivity].
    by destruct (h _ _ _) as [[v|err] e2]. }
  rewrite Hhandling. clear Hhandling handling.
  unfold title_events, handler_events, titled, handler_error.
  destruct (negb (String.eqb (title route) "")); cbn [env_of router_of trace];
    (destruct (handler route) as [h|]; cbn [env_of router_of trace];
     [ match goal with |- context [h ?p ?prev ?e] =>
         destruct (h p prev e) as [[v|err] e2] end | ];
     cbn [env_of router_of trace fst snd]; rewrite run_after_calls;
     fold (after_hooks (router_of s) info); cbn [env_of router_of trace]).
  all: eexists; (split; [reflexivity|]); simpl; rewrite <- ?app_assoc; simpl; reflexivity.
Qed.

(** A change whose route is found and which neither redirect rule stops
    goes on to the transition, in the browser as the rules left it. *)
Lemma handleRouteChange_reaches_hooks route info s s1 s2 :
  routes_get (routes (router_of s)) (path info) = Some route →
  refused route s = (Normal false, s1) →
  at_login info s1 = (Normal false, s2) →
  handleRouteChange info s = transition route info s2 ∧
  router_of s2 = router_of s ∧ trace s2 = trace s.
Proof.
  intros Hroute Href Hlogin. unfold handleRouteChange, get_router. unfold_M.
  rewrite Hroute, Href, Hlogin. split; [done|].
  destruct (refused_frame route s) as (b & extra & Href'). rewrite Href' in Href.
  injection Href as _ <-.
  destruct (at_login_frame info (mkState (router_of s)
              (with_console (λ c, c ++ extra) (env_of s)) (trace s)))
    as (b' & extra' & Hlogin'). rewrite Hlogin' in Hlogin.
  by injection Hlogin as _ <-.
Qed.

End veto_facts.

(** C5.  In every route transition that reaches the hooks, that is whose
    route is found and which neither redirect rule stops, and in which a
    hook registered for before the change returns [false] when it is called:
    all the hooks before the change are called, one after the other, each
    error logged, and that is all the router does.  Its variables, the
    current route among them, are what they were, the browser is as the
    hooks left it, and the router's record holds the calls of those hooks
    and their error entries only: no title update, no call of the handler,
    no call of a hook after the change. *)
Theorem C5_veto_cancels_transition {App : Type}
    (routeInfo : Router.route_info) (route : Router.route)
    (s s1 s2 : Router.state (App := App)) :
  Router.routes_get (Router.routes (Router.router_of s)) (Router.path routeInfo)
    = Some route →
  Router.refused route s = (Normal false, s1) →
  Router.at_login routeInfo s1 = (Normal false, s2) →
  let before :=
    hook_calls before_error (before_hooks (Router.router_of s) routeInfo)
      (Router.env_of s2) in
  Normal (Data (JBool false)) ∈ before.1 →
  Router.handleRouteChange routeInfo s =
    (Normal tt,
     Router.mkState (Router.router_of s) before.2
       (Router.trace s ++ hook_events Router.EvBefore before_error 0 before.1)) ∧
  length before.1 = length (Router.beforeRouteChangeCallbacks (Router.router_of s)).
Proof.
  intros Hroute Href Hlogin before Hveto.
  destruct (handleRouteChange_reaches_hooks route routeInfo s s1 s2 Hroute Href Hlogin)
    as (-> & Hr & Ht).
  subst before. split.
  - rewrite transition_vetoed by by rewrite Hr. by rewrite Hr, Ht.
  - unfold before_hooks. by rewrite hook_calls_length, length_fmap.
Qed.

(** C5 at work: of three hooks before the change the second returns [false]
    and the third raises; all three are called, the error of the third is
    logged, and nothing else happens. *)
Lemma C5_veto_cancels_transition_witness :
  Router.handleRouteChange (Router.mkRouteInfo "login" ∅) (at_login_page vetoing_router)
  = (Normal tt,
     Router.mkState vetoing_router
       (with_console (λ c, c ++ [(LError, before_error)])
          (Router.env_of (visiting "#login" None)))
       [Router.EvBefore 0 (Normal (Data (JBool true)));
        Router.EvBefore 1 (Normal (Data (JBool false)));
        Router.EvBefore 2 (Throw (mkExn Error "hook failed"));
        Router.EvLog LError before_error]) ∧
  Router.currentRoute vetoing_router = None.
Proof.
  split; [|reflexivity].
  apply (C5_veto_cancels_transition (Router.mkRouteInfo "login" ∅)
           (Router.mkRoute (Some show_page) false "Login" [])
           (at_login_page vetoing_router) (at_login_page vetoing_router)
           (at_login_page vetoing_router) eq_refl eq_refl eq_refl).
  vm_compute. apply list_elem_of_In. right. left. reflexivity.
Defined.

(** C8.  In every route transition that reaches the hooks, every hook
    registered for before the change is called, whichever of them raise: an
    error is caught and logged at once, and the next hook is called.  An
    error counts as consent: unless a hook returned [false], the change is
    committed, the title set and the handler called.  Then every hook
    registered for after the change is called, whichever of them raise, each
    error caught and logged at once; nothing is thrown to the caller. *)
Theorem C8_hook_errors_are_contained {App : Type}
    (routeInfo : Router.route_info) (route : Router.route)
    (s s1 s2 : Router.state (App := App)) :
  Router.routes_get (Router.routes (Router.router_of s)) (Router.path routeInfo)
    = Some route →
  Router.refused route s = (Normal false, s1) →
  Router.at_login routeInfo s1 = (Normal false, s2) →
  let r := Router.router_of s in
  let before := hook_calls before_error (before_hooks r routeInfo) (Router.env_of s2) in
  let handling :=
    hook_calls handler_error
      [handler_call route routeInfo (Router.view <$> Router.currentRoute r)]
      (titled route before.2) in
  let after := hook_calls after_error (after_hooks r routeInfo) handling.2 in
  length before.1 = length (Router.beforeRouteChangeCallbacks r) ∧
  length after.1 = length (Router.afterRouteChangeCallbacks r) ∧
  ∃ s' rest,
    Router.handleRouteChange routeInfo s = (Normal tt, s') ∧
    Router.trace s' =
      Router.trace s ++ hook_events Router.EvBefore before_error 0 before.1 ++ rest ∧
    (Normal (Data (JBool false)) ∉ before.1 →
     ∃ handled,
       handling.1 = [handled] ∧
       Router.router_of s' = committed r route routeInfo ∧
       rest = title_events route ++ handler_events route routeInfo handled
                ++ hook_events Router.EvAfter after_error 0 after.1 ∧
       Router.env_of s' = after.2).
Proof.
  intros Hroute Href Hlogin r before handling after.
  destruct (handleRouteChange_reaches_hooks route routeInfo s s1 s2 Hroute Href Hlogin)
    as (-> & Hr & Ht).
  split. { subst before. unfold before_hooks. by rewrite hook_calls_length, length_fmap. }
  split. { subst after. unfold after_hooks. by rewrite hook_calls_length, length_fmap. }
  destruct (forallb allows before.1) eqn:Hall.
  - apply allowed_by_all_hooks in Hall as Hallow. subst after handling before r.
    rewrite <- Hr in Hallow |- *.
    destruct (transition_allowed route routeInfo s2 Hallow) as (handled & Hhandled & ->).
    do 2 eexists. split; [reflexivity|]. cbn [Router.trace Router.router_of Router.env_of].
    split; [by rewrite Ht|]. intros _. by exists handled.
  - apply vetoed_by_a_hook in Hall as Hveto. subst after handling before r.
    rewrite <- Hr in Hveto |- *.
    rewrite (transition_vetoed route routeInfo s2 Hveto).
    do 2 eexists. split; [reflexivity|]. cbn [Router.trace].
    split; [by rewrite Ht, app_nil_r | done].
Qed.

(** C8 at work, on the application's router with one more hook on each side
    of the change, both raising: of the two hooks before the change the
    second raises, and the change goes through; of the two hooks after it
    the second raises, after both were called. *)
Lemma C8_hook_errors_are_contained_witness :
  let r := faulty_router in
  let routeInfo := Router.mkRouteInfo "login" ∅ in
  let route := Router.mkRoute (Some show_page) false "Login" [] in
  let s := at_login_page r in
  let before := hook_calls before_error (before_hooks r routeInfo) (Router.env_of s) in
  let handling :=
    hook_calls handler_error
      [handler_call route routeInfo (Router.view <$> Router.currentRoute r)]
      (titled route before.2) in
  let after := hook_calls after_error (after_hooks r routeInfo) handling.2 in
  (before.1 = [Normal (Data (JBool true)); Throw (mkExn Error "hook failed")] ∧
   after.1 = [Normal Undefined; Throw (mkExn Error "hook failed")]) ∧
  length before.1 = length (Router.beforeRouteChangeCallbacks r) ∧
  length after.1 = length (Router.afterRouteChangeCallbacks r) ∧
  ∃ s' rest,
    Router.handleRouteChange routeInfo s = (Normal tt, s') ∧
    Router.trace s' =
      Router.trace s ++ hook_events Router.EvBefore before_error 0 before.1 ++ rest ∧
    (Normal (Data (JBool false)) ∉ before.1 →
     ∃ handled,
       handling.1 = [handled] ∧
       Router.router_of s' = committed r route routeInfo ∧
       rest = title_events route ++ handler_events route routeInfo handled
                ++ hook_events Router.EvAfter after_error 0 after.1 ∧
       Router.env_of s' = after.2).
Proof.
  intros r routeInfo route s before handling after. split; [split; reflexivity|].
  apply (C8_hook_errors_are_contained routeInfo route s s s eq_refl eq_refl eq_refl).
Defined.

(** The record of that run: the hooks that raise are logged, the others
    run, and the change goes through. *)
Example faulty_hooks_example :
  let s' := (Router.handleRouteChange (Router.mkRouteInfo "login" ∅)
               (at_login_page faulty_router)).2 in
  Router.trace s' =
    [Router.EvBefore 0 (Normal (Data (JBool true)));
     Router.EvBefore 1 (Throw (mkExn Error "hook failed"));
     Router.EvLog LError before_error;
     Router.EvTitle "Login - Post Management";
     Router.EvHandler "login" (Normal Undefined);
     Router.EvAfter 0 (Normal Undefined);
     Router.EvAfter 1 (Throw (mkExn Error "hook failed"));
     Router.EvLog LError after_error] ∧
  console (Router.env_of s') = [(LError, before_error); (LError, after_error)] ∧
  Router.current_path <$> Router.currentRoute (Router.router_of s') = Some "login".
Proof. repeat split. Qed.

Section redirect_facts.
Context {App : Type}.
Import Router.
Implicit Types (s : state (App := App)) (e : env App).

Lemma isLoggedIn_found e :
  (isLoggedIn e).1 = Normal true → isLoggedIn e = (Normal true, e).
Proof.
  destruct (isLoggedIn e) as [c e1] eqn:Heq. simpl. intros ->.
  by rewrite (isLoggedIn_true _ _ Heq) in Heq |- *.
Qed.

(** Whether a session is found depends on the store alone. *)
Lemma isLoggedIn_store e e' :
  ls_items e' = ls_items e → ls_condition e' = ls_condition e →
  (isLoggedIn e').1 = (isLoggedIn e).1.
Proof.
  intros Hi Hc.
  unfold isLoggedIn, getUser, getItem, localStorage_getItem, console_log. unfold_M.
  rewrite Hi, Hc. destruct (ls_condition e); simpl; [| |done];
    by destruct (ls_items e !! USER_SESSION_KEY) as [[]|].
Qed.

Lemma state_eta s : mkState (router_of s) (env_of s) (trace s) = s.
Proof. by destruct s. Qed.

Lemma refused_no route s :
  requiresAuth route = false ∨ (isLoggedIn (env_of s)).1 = Normal true →
  refused route s = (Normal false, s).
Proof.
  unfold refused, isAuthenticated, lift_env. unfold_M. intros [Hr | Hin].
  - by rewrite Hr.
  - destruct (requiresAuth route); [|done].
    by rewrite (isLoggedIn_found _ Hin), state_eta.
Qed.

Lemma refused_yes route s :
  requiresAuth route = true → (isLoggedIn (env_of s)).1 = Normal false →
  ∃ extra,
    refused route s =
      (Normal true, mkState (router_of s) (with_console (λ c, c ++ extra) (env_of s)) (trace s)).
Proof.
  unfold refused, isAuthenticated, lift_env. unfold_M. intros -> Hout.
  destruct (isLoggedIn_frame (env_of s)) as (b & extra & Heq).
  rewrite Heq in Hout |- *. simpl in Hout. injection Hout as ->. eauto.
Qed.

Lemma at_login_yes info s :
  path info = "login" → (isLoggedIn (env_of s)).1 = Normal true →
  at_login info s = (Normal true, s).
Proof.
  unfold at_login, isAuthenticated, lift_env. unfold_M. intros -> Hin.
  rewrite String.eqb_refl. by rewrite (isLoggedIn_found _ Hin), state_eta.
Qed.

Lemma at_login_no info s :
  (isLoggedIn (env_of s)).1 = Normal false →
  ∃ extra,
    at_login info s =
      (Normal false, mkState (router_of s) (with_console (λ c, c ++ extra) (env_of s)) (trace s)).
Proof.
  intros Hout. destruct (at_login_frame info s) as (b & extra & Heq).
  exists extra. rewrite Heq. do 2 f_equal.
  unfold at_login, isAuthenticated, lift_env in Heq. unfold_M.
  destruct (String.eqb (path info) "login"); [|congruence].
  destruct (isLoggedIn (env_of s)) as [c e1]. simpl in Hout. congruence.
Qed.

End redirect_facts.

(** C1.  For every route transition whose route is found: if the route
    requires authentication and no session is found in the store, the
    router logs a warning, issues a replace-navigation to [#login] and
    stops; if the path is [login] and a session is found, it issues a
    replace-navigation to [#posts] and stops.  In both cases that is all the
    router does: no handler or hook is called, and the router's variables,
    the current route among them, are what they were. *)
Theorem C1_redirect_rules {App : Type}
    (routeInfo : Router.route_info) (route : Router.route)
    (s : Router.state (App := App)) :
  Router.routes_get (Router.routes (Router.router_of s)) (Router.path routeInfo)
    = Some route →
  (Router.requiresAuth route = true →
   (StorageService.isLoggedIn (Router.env_of s)).1 = Normal false →
   ∃ s',
     Router.handleRouteChange routeInfo s = (Normal tt, s') ∧
     Router.router_of s' = Router.router_of s ∧
     Router.trace s' =
       Router.trace s ++ [Router.EvLog LWarn "Route requires authentication:";
                          Router.EvNavigate "#login" true] ∧
     location_hash (Router.env_of s') = "#login" ∧
     history (Router.env_of s') = history (Router.env_of s) ∧
     app (Router.env_of s') = app (Router.env_of s)) ∧
  (Router.path routeInfo = "login" →
   (StorageService.isLoggedIn (Router.env_of s)).1 = Normal true →
   ∃ s',
     Router.handleRouteChange routeInfo s = (Normal tt, s') ∧
     Router.router_of s' = Router.router_of s ∧
     Router.trace s' = Router.trace s ++ [Router.EvNavigate "#posts" true] ∧
     location_hash (Router.env_of s') = "#posts" ∧
     history (Router.env_of s') = history (Router.env_of s) ∧
     app (Router.env_of s') = app (Router.env_of s)).
Proof.
  intros Hroute. unfold Router.handleRouteChange, Router.get_router. unfold_M.
  rewrite Hroute. split.
  - intros Hauth Hout. destruct (refused_yes route s Hauth Hout) as (extra & ->).
    rewrite log_spec, navigate_replace. cbn [Router.env_of Router.router_of Router.trace].
    eexists. split; [reflexivity|]. cbn [Router.env_of Router.router_of Router.trace].
    rewrite <- app_assoc. split; [done|]. split; [done|].
    match goal with |- context [location_replace ?h ?e] =>
      destruct (location_replace_spec h e) as (-> & -> & -> & _) end.
    done.
  - intros Hpath Hin. rewrite refused_no by auto. rewrite at_login_yes by done.
    rewrite navigate_replace.
    eexists. split; [reflexivity|]. cbn [Router.env_of Router.router_of Router.trace].
    split; [done|]. split; [done|].
    by destruct (location_replace_spec ("#" +:+ "posts") (Router.env_of s)) as (-> & -> & -> & _).
Qed.

(** C1 on the application's routes: [#posts] without a session, and
    [#login] with one. *)
Lemma C1_redirect_rules_witness :
  (∃ s',
     Router.handleRouteChange (Router.mkRouteInfo "posts" ∅) (visiting "#posts" None)
       = (Normal tt, s') ∧
     Router.router_of s' = app_router ∧
     Router.trace s' = [Router.EvLog LWarn "Route requires authentication:";
                        Router.EvNavigate "#login" true] ∧
     location_hash (Router.env_of s') = "#login" ∧
     history (Router.env_of s') = [] ∧
     app (Router.env_of s') = tt) ∧
  (∃ s',
     Router.handleRouteChange (Router.mkRouteInfo "login" ∅)
       (visiting "#login" (Some sample_user)) = (Normal tt, s') ∧
     Router.router_of s' = app_router ∧
     Router.trace s' = [Router.EvNavigate "#posts" true] ∧
     location_hash (Router.env_of s') = "#posts" ∧
     history (Router.env_of s') = [] ∧
     app (Router.env_of s') = tt).
Proof.
  split.
  - apply (proj1 (C1_redirect_rules (Router.mkRouteInfo "posts" ∅)
                    (Router.mkRoute (Some show_page) true "Posts" [])
                    (visiting "#posts" None) eq_refl)); reflexivity.
  - apply (proj2 (C1_redirect_rules (Router.mkRouteInfo "login" ∅)
                    (Router.mkRoute (Some show_page) false "Login" [])
                    (visiting "#login" (Some sample_user)) eq_refl)); reflexivity.
Defined.

Section unknown_route_facts.
Context {App : Type}.
Import Router.
Implicit Types (s : state (App := App)) (e : env App).

Lemma parseHash_location c rest s :
  location_hash (env_of s) = String c rest →
  parseHash None s = parseHash (Some (String c rest)) s.
Proof.
  intros Hloc. unfold parseHash, get_router, lift_env, get_location_hash. unfold_M.
  cbn [env_of router_of trace or_string]. by rewrite Hloc.
Qed.

Lemma routes_get_own (rs : gmap string (route (App := App))) p route :
  rs !! p = Some route → routes_get rs p = Some route.
Proof. unfold routes_get. by intros ->. Qed.

(** [routes[path]] finds nothing exactly for a path that is not registered
    and names no member plain objects inherit. *)
Lemma routes_get_nothing (r : router (App := App)) p :
  hasRoute p r = false → p ∉ Object_prototype_members →
  routes_get (routes r) p = None.
Proof.
  unfold hasRoute, routes_get. intros Hown Hmember.
  destruct (routes r !! p) as [route|] eqn:Hp.
  - rewrite bool_decide_true in Hown; [done | by eexists].
  - by rewrite bool_decide_false.
Qed.

(** The listener on the fragment of a registered route that does not
    require authentication, when no session is found: the route becomes the
    current route unless a hook before the change returns [false] when
    called, in the browser as the login rule left it. *)
Lemma on_hashchange_commits d route s :
  location_hash (env_of s) = "#" +:+ d →
  d ≠ "" →
  URI.mentions "?" d = false →
  routes (router_of s) !! d = Some route →
  requiresAuth route = false →
  (isLoggedIn (env_of s)).1 = Normal false →
  ∃ s',
    on_hashchange s = (Normal tt, s') ∧
    (Normal (Data (JBool false)) ∉
       (hook_calls before_error (before_hooks (router_of s) (mkRouteInfo d ∅))
          (env_of (at_login (mkRouteInfo d ∅) s).2)).1 →
     router_of s' = committed (router_of s) route (mkRouteInfo d ∅)).
Proof.
  intros Hloc Hd Hq Hroute Hauth Hout. unfold on_hashchange. unfold_M.
  rewrite (parseHash_location "#" d s Hloc).
  change (String "#" d) with (fragment d ∅) at 1.
  rewrite parseHash_fragment by done.
  destruct (at_login_no (mkRouteInfo d ∅) s Hout) as (extra & Hlogin).
  rewrite Hlogin. cbn [snd env_of].
  set (s2 := mkState (router_of s) (with_console (λ c, c ++ extra) (env_of s)) (trace s))
    in Hlogin |- *.
  destruct (handleRouteChange_reaches_hooks route (mkRouteInfo d ∅) s s s2) as (-> & _ & _).
  - by apply routes_get_own.
  - apply refused_no. by left.
  - exact Hlogin.
  - destruct (forallb allows
                (hook_calls before_error (before_hooks (router_of s) (mkRouteInfo d ∅))
                   (with_console (λ c, c ++ extra) (env_of s))).1) eqn:Hall.
    + apply allowed_by_all_hooks in Hall.
      destruct (transition_allowed route (mkRouteInfo d ∅) s2 Hall)
        as (handled & _ & ->).
      eexists. split; [reflexivity|]. done.
    + apply vetoed_by_a_hook in Hall.
      rewrite (transition_vetoed route (mkRouteInfo d ∅) s2 Hall).
      eexists. split; [reflexivity|]. done.
Qed.

End unknown_route_facts.

(** C6, as amended.  For every fragment whose parsed path is not registered
    and names no member that plain objects inherit ([constructor],
    [toString], ...), handling the change logs a warning, issues a
    replace-navigation to the default route and stops: no handler or hook is
    called, the router's variables, the current route among them, are what
    they were, and nothing is thrown.  The default route becomes the current
    route when the listener then runs on the new fragment, provided that
    route is registered without requiring authentication, no session is
    found, and no hook before the change returns [false] when called. *)
Theorem C6_unknown_route_redirects {App : Type}
    (routeInfo : Router.route_info) (s : Router.state (App := App)) :
  Router.hasRoute (Router.path routeInfo) (Router.router_of s) = false →
  Router.path routeInfo ∉ Router.Object_prototype_members →
  ∃ s',
    Router.handleRouteChange routeInfo s = (Normal tt, s') ∧
    Router.router_of s' = Router.router_of s ∧
    Router.trace s' =
      Router.trace s ++
        [Router.EvLog LWarn "Route not found:";
         Router.EvNavigate ("#" +:+ Router.defaultRoute (Router.router_of s)) true] ∧
    console (Router.env_of s') = console (Router.env_of s) ++ [(LWarn, "Route not found:")] ∧
    location_hash (Router.env_of s') = "#" +:+ Router.defaultRoute (Router.router_of s) ∧
    history (Router.env_of s') = history (Router.env_of s) ∧
    app (Router.env_of s') = app (Router.env_of s) ∧
    (∀ route,
       Router.routes (Router.router_of s) !! Router.defaultRoute (Router.router_of s)
         = Some route →
       Router.requiresAuth route = false →
       Router.defaultRoute (Router.router_of s) ≠ "" →
       URI.mentions "?" (Router.defaultRoute (Router.router_of s)) = false →
       (StorageService.isLoggedIn (Router.env_of s)).1 = Normal false →
       let target := Router.mkRouteInfo (Router.defaultRoute (Router.router_of s)) ∅ in
       ∃ s'',
         Router.on_hashchange s' = (Normal tt, s'') ∧
         (Normal (Data (JBool false)) ∉
            (hook_calls before_error (before_hooks (Router.router_of s) target)
               (Router.env_of (Router.at_login target s').2)).1 →
          Router.currentRoute (Router.router_of s'') =
            Some (Router.mkCurrent (Router.defaultRoute (Router.router_of s)) ∅ route))).
Proof.
  intros Hown Hmember. pose proof (routes_get_nothing _ _ Hown Hmember) as Hnone.
  unfold Router.handleRouteChange, Router.get_router. unfold_M.
  rewrite Hnone, log_spec, navigate_replace.
  cbn [Router.env_of Router.router_of Router.trace].
  set (d := Router.defaultRoute (Router.router_of s)).
  set (e1 := with_console (λ c, c ++ [(LWarn, "Route not found:")]) (Router.env_of s)).
  destruct (location_replace_spec ("#" +:+ d) e1) as (Hh & Hhist & Happ & Hitems & Hcon & _).
  eexists. split; [reflexivity|]. cbn [Router.env_of Router.router_of Router.trace].
  rewrite <- app_assoc. repeat (split; [done|]).
  intros route Hroute Hauth Hd Hq Hout.
  match goal with |- context [Router.on_hashchange ?s0] => set (s1 := s0) end.
  destruct (on_hashchange_commits d route s1) as (s'' & Hrun & Hcommit); try done.
  - rewrite <- Hout. apply isLoggedIn_store; [|].
    + subst s1. cbn. rewrite Hitems. done.
    + subst s1. cbn. unfold location_replace. by destruct (String.eqb _ _).
  - exists s''. split; [done|]. intros Hno. by rewrite (Hcommit Hno).
Qed.

(** C6 on the application's routes: [#nowhere] without a session. *)
Lemma C6_unknown_route_redirects_witness :
  ∃ s',
    Router.handleRouteChange (Router.mkRouteInfo "nowhere" ∅) (visiting "#nowhere" None)
      = (Normal tt, s') ∧
    Router.router_of s' = app_router ∧
    Router.trace s' = [Router.EvLog LWarn "Route not found:";
                       Router.EvNavigate "#login" true] ∧
    location_hash (Router.env_of s') = "#login" ∧
    ∃ s'',
      Router.on_hashchange s' = (Normal tt, s'') ∧
      Router.currentRoute (Router.router_of s'') =
        Some (Router.mkCurrent "login" ∅ (Router.mkRoute (Some show_page) false "Login" [])).
Proof.
  destruct (C6_unknown_route_redirects (Router.mkRouteInfo "nowhere" ∅)
              (visiting "#nowhere" None) eq_refl)
    as (s' & Hrun & Hrouter & Htrace & _ & Hhash & _ & _ & Hnext).
  { unfold Router.Object_prototype_members. intros Hin.
    repeat (apply elem_of_cons in Hin as [Hin|Hin]; [discriminate|]).
    by apply elem_of_nil in Hin. }
  exists s'. repeat (split; [done|]).
  destruct (Hnext (Router.mkRoute (Some show_page) false "Login" []))
    as (s'' & Hnext_run & Hcommit);
    [reflexivity | reflexivity | discriminate | reflexivity | reflexivity |].
  exists s''. split; [done|]. apply Hcommit.
  vm_compute in Hrun. injection Hrun as <-.
  vm_compute. intros Hin. apply list_elem_of_In in Hin.
  destruct Hin as [[=]|[]].
Defined.

(** C6 as the specification states it fails when a session exists: the
    change to an unregistered path leaves the current route as it was
    ([null] here) and the fragment at [#login]; the listener run on that
    fragment redirects to [#posts], and run on that one it makes [posts] the
    current route, not the default route [login]. *)
Lemma C6_unknown_route_with_session :
  let s1 := (Router.handleRouteChange (Router.mkRouteInfo "nowhere" ∅)
               (visiting "#nowhere" (Some sample_user))).2 in
  let s2 := (Router.on_hashchange s1).2 in
  let s3 := (Router.on_hashchange s2).2 in
  Router.hasRoute "nowhere" app_router = false ∧
  Router.currentRoute (Router.router_of s1) = None ∧
  location_hash (Router.env_of s1) = "#login" ∧
  Router.currentRoute (Router.router_of s2) = None ∧
  location_hash (Router.env_of s2) = "#posts" ∧
  Router.current_path <$> Router.currentRoute (Router.router_of s3) = Some "posts" ∧
  location_hash (Router.env_of s3) = "#posts".
Proof.
  vm_compute. repeat split.
Qed.

(** A path that names a member plain objects inherit is not registered
    ([hasRoute] says so), yet [routes[path]] finds the member: no warning, no
    redirect; the path becomes the current route and calling its handler
    fails. *)
Lemma inherited_member_taken_for_route :
  let s' := (Router.on_hashchange (visiting "#constructor" None)).2 in
  Router.hasRoute "constructor" app_router = false ∧
  Router.current_path <$> Router.currentRoute (Router.router_of s') = Some "constructor" ∧
  Router.trace s' = [Router.EvBefore 0 (Normal (Data (JBool true)));
                     Router.EvLog LError handler_error;
                     Router.EvAfter 0 (Normal Undefined)].
Proof.
  vm_compute. repeat split.
Qed.

(** The scenario of the specification: at [#posts] without a session the
    listener redirects to [#login], and run on that fragment it makes
    [login] the current route; with a session it makes [posts] the current
    route at once. *)
Example navigation_scenario :
  let s1 := (Router.on_hashchange (visiting "#posts" None)).2 in
  let s2 := (Router.on_hashchange s1).2 in
  location_hash (Router.env_of s1) = "#login" ∧
  Router.current_path <$> Router.currentRoute (Router.router_of s2) = Some "login" ∧
  Router.current_path <$>
    Router.currentRoute
      (Router.router_of (Router.on_hashchange (visiting "#posts" (Some sample_user))).2)
    = Some "posts".
Proof. vm_compute. repeat split. Qed.

(** * Further properties of the code *)

(** ** Sessions and edit overlays in the store *)

Section session_facts.
Context {App : Type}.
Implicit Types (e : env App) (key : string).

(** What [getItem] returns depends on the entry under the key and on the
    condition of the store, and on nothing else. *)
Lemma getItem_store key e e' :
  ls_items e' !! key = ls_items e !! key →
  ls_condition e' = ls_condition e →
  (getItem key e').1 = (getItem key e).1.
Proof.
  intros Hi Hc. unfold getItem, localStorage_getItem, console_log. unfold_M.
  rewrite Hi, Hc. destruct (ls_condition e); simpl; [| |done];
    by destruct (ls_items e !! key) as [[]|].
Qed.

Lemma getItem_frame key e :
  ∃ v extra, getItem key e = (Normal v, with_console (λ c, c ++ extra) e).
Proof.
  unfold getItem, localStorage_getItem, console_log. unfold_M.
  destruct e as [items cond t con net h hist p ttl tm a]. unfold with_console. simpl.
  destruct cond; simpl.
  3: { by exists JNull, [(LError, "Error reading from localStorage:")]. }
  all: destruct (items !! key) as [[j| |]|]; simpl.
  all: try (eexists _, []; rewrite app_nil_r; reflexivity).
  all: eexists _, [_]; reflexivity.
Qed.

Lemma removeItem_returns key e :
  ∃ e', removeItem key e = (Normal tt, e') ∧
        ls_condition e' = ls_condition e ∧
        ls_items e' = match ls_condition e with
                      | Unavailable => ls_items e
                      | _ => delete key (ls_items e)
                      end.
Proof.
  unfold removeItem, localStorage_removeItem, console_log. unfold_M.
  destruct (ls_condition e) eqn:Hc; simpl; eexists; (split; [reflexivity|]); simpl;
    rewrite ?Hc; by split.
Qed.

Lemma getItem_unavailable key e :
  ls_condition e = Unavailable → (getItem key e).1 = Normal JNull.
Proof.
  intros Hc. unfold getItem, localStorage_getItem, console_log. unfold_M. by rewrite Hc.
Qed.

Lemma getItem_absent key e :
  ls_items e !! key = None → (getItem key e).1 = Normal JNull.
Proof. intros Hk. by destruct (getItem_missing key e Hk) as (e' & -> & _). Qed.

End session_facts.

(** X1.  [isLoggedIn] never throws, and it answers [true] exactly when the
    store can be read and holds, under the session key, a JSON text whose
    value is not [null]: a store that cannot be read and a session that does
    not parse both count as logged out, and any other stored value, [false]
    and [0] among them, counts as logged in. *)
Theorem isLoggedIn_exactly_when {App : Type} (e : env App) :
  ∃ b e',
    isLoggedIn e = (Normal b, e') ∧
    (b = true ↔
     ls_condition e ≠ Unavailable ∧
     ∃ user, ls_items e !! USER_SESSION_KEY = Some (Text user) ∧ user ≠ JNull).
Proof.
  unfold isLoggedIn, getUser, getItem, localStorage_getItem, console_log. unfold_M.
  destruct (ls_condition e) eqn:Hc; simpl.
  3: { do 2 eexists. split; [reflexivity|]. split; [done | by intros [? _]]. }
  all: destruct (ls_items e !! USER_SESSION_KEY) as [[user| |]|] eqn:Hk; simpl;
    do 2 eexists; (split; [reflexivity|]).
  all: try (split; [done | by intros (_ & user' & [=] & _)]).
  all: destruct user; (split; [intros; split; [done | eexists; split; done]
                               | try done; by intros (_ & user' & [= <-] & ?)]).
Qed.

(** X2.  In a store that accepts the write, the session [setUser] saves is
    the one [getUser] returns, unchanged, and [isLoggedIn] then holds unless
    the session saved is [null]. *)
Theorem setUser_then_getUser {App : Type} (user : json) (e : env App) :
  ls_condition e = Healthy →
  ∃ e1,
    setUser (Data user) e = (Normal tt, e1) ∧
    getUser e1 = (Normal user, e1) ∧
    isLoggedIn e1 = (Normal (match user with JNull => false | _ => true end), e1).
Proof.
  intros Hc. unfold setUser, isLoggedIn, getUser. unfold_M.
  rewrite setItem_healthy by done. eexists. split; [reflexivity|].
  rewrite getItem_stored with (j := user);
    [done | simpl; congruence | simpl; apply lookup_insert_eq].
Qed.

(** X2 on a page just loaded and a user with an e-mail address. *)
Lemma setUser_then_getUser_witness :
  ∃ e1,
    setUser (Data sample_user) fresh_page = (Normal tt, e1) ∧
    getUser e1 = (Normal sample_user, e1) ∧
    isLoggedIn e1 = (Normal true, e1).
Proof. apply (setUser_then_getUser sample_user fresh_page). reflexivity. Defined.

(** X3.  After [removeUser] no session is found, whatever the store held
    and whatever its condition: when the removal itself fails, the store
    cannot be read either. *)
Theorem removeUser_ends_session {App : Type} (e : env App) :
  ∃ e1 e2,
    removeUser e = (Normal tt, e1) ∧
    isLoggedIn e1 = (Normal false, e2).
Proof.
  unfold removeUser, isLoggedIn, getUser.
  destruct (removeItem_returns USER_SESSION_KEY e) as (e1 & -> & Hc & Hi).
  exists e1. unfold_M. destruct (getItem_frame USER_SESSION_KEY e1) as (v & extra & Hget).
  rewrite Hget. assert (v = JNull) as ->.
  { assert ((getItem USER_SESSION_KEY e1).1 = Normal JNull) as Hnull.
    { destruct (ls_condition e) eqn:Hcond.
      3: { by apply getItem_unavailable. }
      all: apply getItem_absent; rewrite Hi; apply lookup_delete_eq. }
    rewrite Hget in Hnull. simpl in Hnull. congruence. }
  eauto.
Qed.

Section overlay_facts.
Context {App : Type}.
Implicit Types (e : env App) (key : string).

Lemma strip_prefix_app prefix rest : strip_prefix prefix (prefix +:+ rest) = Some rest.
Proof. induction prefix as [|a prefix IH]; [done|]. simpl. by rewrite Ascii.eqb_refl. Qed.

Lemma strip_prefix_Some prefix : ∀ key rest,
  strip_prefix prefix key = Some rest → key = prefix +:+ rest.
Proof.
  induction prefix as [|a prefix IH]; intros key rest; simpl.
  - by intros [= ->].
  - destruct key as [|b key]; [done|].
    destruct (Ascii.eqb_spec a b) as [->|]; [|done]. intros Hk. by rewrite (IH _ _ Hk).
Qed.

(** Two identifiers have the same overlay key only when they are equal. *)
Lemma overlay_key_inj (m n : Z) :
  EDITED_POST_PREFIX +:+ pretty m = EDITED_POST_PREFIX +:+ pretty n → m = n.
Proof.
  intros Heq. apply (inj pretty).
  pose proof (strip_prefix_app EDITED_POST_PREFIX (pretty m)) as Hm.
  rewrite Heq, strip_prefix_app in Hm. congruence.
Qed.

Lemma getEditedPost_store (postId : number) e e' :
  ls_items e' !! (EDITED_POST_PREFIX +:+ ToString postId)
    = ls_items e !! (EDITED_POST_PREFIX +:+ ToString postId) →
  ls_condition e' = ls_condition e →
  (getEditedPost postId e').1 = (getEditedPost postId e).1.
Proof.
  intros Hi Hc. unfold getEditedPost. unfold_M.
  pose proof (getItem_store _ e e' Hi Hc) as Hget.
  destruct (getItem_frame (EDITED_POST_PREFIX +:+ ToString postId) e) as (v & x & Hv).
  destruct (getItem_frame (EDITED_POST_PREFIX +:+ ToString postId) e') as (v' & x' & Hv').
  rewrite Hv, Hv' in Hget |- *. simpl in Hget. injection Hget as ->.
  destruct (truthy v); [|done]. unfold liftc. by destruct (get_prop v "data").
Qed.

Lemma getEditedPost_gone (postId : number) e :
  ls_items e !! (EDITED_POST_PREFIX +:+ ToString postId) = None →
  (getEditedPost postId e).1 = Normal null.
Proof. intros Hk. by destruct (getEditedPost_none postId e Hk) as (e' & -> & _). Qed.

Lemma isPostEdited_gone (postId : number) e :
  ls_items e !! (EDITED_POST_PREFIX +:+ ToString postId) = None →
  (isPostEdited postId e).1 = Normal false.
Proof.
  intros Hk. unfold isPostEdited. unfold_M.
  by destruct (getEditedPost_none postId e Hk) as (e' & -> & _).
Qed.

Lemma isPostEdited_unavailable (postId : number) e :
  ls_condition e = Unavailable → (isPostEdited postId e).1 = Normal false.
Proof.
  intros Hc. unfold isPostEdited, getEditedPost. unfold_M.
  pose proof (getItem_unavailable (EDITED_POST_PREFIX +:+ ToString postId) e Hc) as Hget.
  destruct (getItem _ e) as [c e1]. simpl in Hget. by rewrite Hget.
Qed.

(** The removals of [clearEditedPosts], in a store that can be read. *)
Lemma forEach_removeEditedPost (editedIds : list Z) : ∀ e,
  ls_condition e ≠ Unavailable →
  ∃ e',
    Array_forEach (λ postId, removeEditedPost (Num postId)) editedIds e = (Normal tt, e') ∧
    ls_condition e' = ls_condition e ∧
    ls_items e' =
      foldl (λ items postId, delete (EDITED_POST_PREFIX +:+ pretty postId) items)
            (ls_items e) editedIds.
Proof.
  induction editedIds as [|postId rest IH]; intros e Hc.
  - by exists e.
  - cbn [Array_forEach]. unfold_M. unfold removeEditedPost at 1.
    destruct (removeItem_returns (EDITED_POST_PREFIX +:+ ToString (Num postId)) e)
      as (e1 & -> & Hc1 & Hi1).
    destruct (IH e1) as (e' & -> & Hc' & Hi'); [congruence|].
    exists e'. split; [done|]. split; [congruence|].
    rewrite Hi', Hi1. simpl. by destruct (ls_condition e).
Qed.

Lemma foldl_delete_lookup (keyOf : Z → string) (ids : list Z) :
  ∀ (items : gmap string text) key,
    foldl (λ items id, delete (keyOf id) items) items ids !! key =
      if bool_decide (key ∈ keyOf <$> ids) then None else items !! key.
Proof.
  induction ids as [|id ids IH]; intros items key; [done|].
  cbn [foldl fmap list_fmap]. rewrite IH.
  destruct (decide (key = keyOf id)) as [->|Hne].
  - rewrite (bool_decide_true (_ ∈ _ :: _)) by left.
    rewrite lookup_delete_eq. by destruct (bool_decide _).
  - rewrite lookup_delete_ne by done.
    destruct (decide (key ∈ keyOf <$> ids)).
    + rewrite !bool_decide_true; [done | by right | done].
    + rewrite !bool_decide_false; [done | | done]. by intros [?|?]%elem_of_cons.
Qed.

End overlay_facts.

Section overlay_ids.
Context {App : Type} `{Builtins}.
Implicit Types (e : env App) (key : string).

Lemma getEditedPostIds_readable e :
  ls_condition e ≠ Unavailable →
  getEditedPostIds e = (Normal (omap edited_id (map_to_list (ls_items e)).*1), e).
Proof.
  intros Hc. unfold getEditedPostIds, localStorage_keys. unfold_M.
  by destruct (ls_condition e).
Qed.

Lemma getEditedPostIds_unavailable e :
  ls_condition e = Unavailable →
  getEditedPostIds e =
    (Normal [], with_console (λ c, c ++ [(LError, "Error getting edited post IDs:")]) e).
Proof.
  intros Hc. unfold getEditedPostIds, localStorage_keys, console_log. unfold_M.
  by rewrite Hc.
Qed.

Lemma elem_of_keys (items : gmap string text) key :
  key ∈ (map_to_list items).*1 ↔ is_Some (items !! key).
Proof.
  rewrite list_elem_of_fmap. split.
  - intros ([k t] & -> & Hin%elem_of_map_to_list). eauto.
  - intros (t & Ht). exists (key, t). split; [done|]. by apply elem_of_map_to_list.
Qed.

Lemma elem_of_edited_ids (items : gmap string text) (n : Z) :
  n ∈ omap edited_id (map_to_list items).*1 ↔
  ∃ key, is_Some (items !! key) ∧ edited_id key = Some n.
Proof.
  rewrite list_elem_of_omap. by setoid_rewrite elem_of_keys.
Qed.

End overlay_ids.

(** X4.  In a store that can be read, [removeEditedPost] for an identifier
    leaves nothing to find for it, and leaves what is found for every other
    identifier as it was. *)
Theorem removeEditedPost_forgets_that_post_only {App : Type} (n : Z) (e : env App) :
  ls_condition e ≠ Unavailable →
  ∃ e',
    removeEditedPost (Num n) e = (Normal tt, e') ∧
    (getEditedPost (Num n) e').1 = Normal null ∧
    (isPostEdited (Num n) e').1 = Normal false ∧
    ∀ m, m ≠ n → (getEditedPost (Num m) e').1 = (getEditedPost (Num m) e).1.
Proof.
  intros Hc. unfold removeEditedPost.
  destruct (removeItem_returns (EDITED_POST_PREFIX +:+ ToString (Num n)) e)
    as (e' & -> & Hc' & Hi').
  assert (ls_items e' = delete (EDITED_POST_PREFIX +:+ pretty n) (ls_items e)) as Hi.
  { rewrite Hi'. by destruct (ls_condition e). }
  exists e'. split; [done|].
  assert (ls_items e' !! (EDITED_POST_PREFIX +:+ ToString (Num n)) = None) as Hgone.
  { rewrite Hi. apply lookup_delete_eq. }
  split; [by apply getEditedPost_gone|]. split; [by apply isPostEdited_gone|].
  intros m Hm. apply getEditedPost_store; [|done].
  rewrite Hi. apply lookup_delete_ne. simpl. intros Heq. by apply overlay_key_inj in Heq.
Qed.

(** X4 on a store with overlays for the records 1 and 2. *)
Lemma removeEditedPost_forgets_that_post_only_witness :
  let e := (saveEditedPost (Num 2) (Data (JStr "two"))
              (saveEditedPost (Num 1) (Data (JStr "one")) fresh_page).2).2 in
  ∃ e',
    removeEditedPost (Num 1) e = (Normal tt, e') ∧
    (getEditedPost (Num 1) e').1 = Normal null ∧
    (isPostEdited (Num 1) e').1 = Normal false ∧
    ∀ m, m ≠ 1%Z → (getEditedPost (Num m) e').1 = (getEditedPost (Num m) e).1.
Proof.
  intros e. apply (removeEditedPost_forgets_that_post_only 1 e). discriminate.
Defined.

(** X5.  [getEditedPostIds] never throws and leaves the store alone.  When
    the store cannot be read the list is empty; otherwise an identifier is
    listed exactly when some key of the store starts with the overlay prefix
    and the rest of the key reads, by [parseInt], as that identifier. *)
Theorem getEditedPostIds_lists_overlay_keys `{Builtins} {App : Type} (e : env App) :
  ∃ ids e',
    getEditedPostIds e = (Normal ids, e') ∧
    ls_items e' = ls_items e ∧
    ∀ n, n ∈ ids ↔
         ls_condition e ≠ Unavailable ∧
         ∃ key rest, is_Some (ls_items e !! key) ∧
                     strip_prefix EDITED_POST_PREFIX key = Some rest ∧
                     parseInt_string rest = Num n.
Proof.
  destruct (ls_condition e) eqn:Hc.
  3: { rewrite getEditedPostIds_unavailable by done. do 2 eexists.
       split; [reflexivity|]. split; [done|]. intros n. split; [by intros ?%elem_of_nil|].
       by intros [? _]. }
  all: rewrite getEditedPostIds_readable by congruence; do 2 eexists;
    (split; [reflexivity|]); (split; [done|]); intros n;
    rewrite elem_of_edited_ids; unfold edited_id; split.
  1,3: intros (key & Hk & Hid); (split; [done|]); exists key;
    destruct (strip_prefix _ key) as [rest|]; [|done]; simpl in Hid;
    exists rest; destruct (parseInt_string rest); naive_solver.
  all: intros (_ & key & rest & Hk & Hs & Hn); exists key; (split; [done|]);
    rewrite Hs; simpl; by rewrite Hn.
Qed.

(** X6.  [clearEditedPosts] never throws and removes overlays only: every
    key that does not start with the overlay prefix, the session and the
    cache snapshot among them, keeps its entry.  When the store can be read,
    for every key it held that stands for an identifier [n], the key in
    which [saveEditedPost] keeps the overlay of [n] is empty afterwards. *)
Theorem clearEditedPosts_removes_overlays_only `{Builtins} {App : Type} (e : env App) :
  ∃ e',
    clearEditedPosts e = (Normal tt, e') ∧
    (∀ key, strip_prefix EDITED_POST_PREFIX key = None →
            ls_items e' !! key = ls_items e !! key) ∧
    ls_items e' !! USER_SESSION_KEY = ls_items e !! USER_SESSION_KEY ∧
    ls_items e' !! POSTS_CACHE_KEY = ls_items e !! POSTS_CACHE_KEY ∧
    (ls_condition e ≠ Unavailable →
     ∀ key n, is_Some (ls_items e !! key) → edited_id key = Some n →
              ls_items e' !! (EDITED_POST_PREFIX +:+ pretty n) = None).
Proof.
  assert (∃ e',
    clearEditedPosts e = (Normal tt, e') ∧
    (∀ key, strip_prefix EDITED_POST_PREFIX key = None →
            ls_items e' !! key = ls_items e !! key) ∧
    (ls_condition e ≠ Unavailable →
     ∀ key n, is_Some (ls_items e !! key) → edited_id key = Some n →
              ls_items e' !! (EDITED_POST_PREFIX +:+ pretty n) = None))
    as (e' & Hrun & Hkeep & Hgone).
  2: { exists e'. split; [done|]. split; [done|]. split; [by apply Hkeep|].
       split; [by apply Hkeep | done]. }
  unfold clearEditedPosts. unfold_M.
  destruct (ls_condition e) eqn:Hc.
  3: { rewrite getEditedPostIds_unavailable by done. simpl.
       eexists. split; [reflexivity|]. split; [done|]. by intros []. }
  all: rewrite getEditedPostIds_readable by congruence.
  all: destruct (forEach_removeEditedPost
                   (omap edited_id (map_to_list (ls_items e)).*1) e)
         as (e' & -> & _ & Hi); [congruence|].
  all: exists e'; split; [done|]; rewrite Hi; split.
  all: try (intros key Hkey; rewrite foldl_delete_lookup, bool_decide_false; [done|];
            intros (n & -> & _)%list_elem_of_fmap;
            by rewrite strip_prefix_app in Hkey).
  all: intros _ key n Hk Hid; rewrite foldl_delete_lookup, bool_decide_true; [done|];
    apply list_elem_of_fmap; exists n; split; [done|];
    apply elem_of_edited_ids; eauto.
Qed.

(** X7.  An overlay saved for an identifier in a store that accepts the
    write, the data not being [null]: the record counts as edited, its
    identifier is listed by [getEditedPostIds], and after
    [clearEditedPosts] it no longer counts as edited.  The identifier is one
    whose decimal rendering [parseInt] reads back. *)
Theorem saved_post_is_listed_until_cleared `{Builtins} {App : Type}
    (n : Z) (data : json) (e : env App) :
  ls_condition e = Healthy →
  parseInt_string (pretty n) = Num n →
  data ≠ JNull →
  ∃ e1,
    saveEditedPost (Num n) (Data data) e = (Normal tt, e1) ∧
    (isPostEdited (Num n) e1).1 = Normal true ∧
    (∃ ids e2, getEditedPostIds e1 = (Normal ids, e2) ∧ n ∈ ids) ∧
    (isPostEdited (Num n) (clearEditedPosts e1).2).1 = Normal false.
Proof.
  intros Hc Hparse Hdata. rewrite saveEditedPost_healthy by done.
  eexists. split; [reflexivity|].
  set (e1 := with_items _ e).
  assert (ls_condition e1 ≠ Unavailable) as Hc1 by (simpl; congruence).
  assert (ls_items e1 !! (EDITED_POST_PREFIX +:+ pretty n) =
            Some (Text (JObj (<["data" := data]> {["timestamp" := JNum (now e)]}))))
    as Hk by apply lookup_insert_eq.
  assert (edited_id (EDITED_POST_PREFIX +:+ pretty n) = Some n) as Hid.
  { unfold edited_id. rewrite strip_prefix_app. simpl. by rewrite Hparse. }
  split; [|split].
  - unfold isPostEdited. unfold_M.
    rewrite (getEditedPost_overlay (Num n) data (now e) e1 Hc1 Hk). by destruct data.
  - rewrite getEditedPostIds_readable by done. do 2 eexists. split; [reflexivity|].
    apply elem_of_edited_ids. eauto.
  - unfold clearEditedPosts. unfold_M. rewrite getEditedPostIds_readable by done.
    destruct (forEach_removeEditedPost
                (omap edited_id (map_to_list (ls_items e1)).*1) e1 Hc1)
      as (e' & -> & _ & Hi).
    apply isPostEdited_gone. simpl. rewrite Hi, foldl_delete_lookup, bool_decide_true; [done|].
    apply list_elem_of_fmap. exists n. split; [done|].
    apply elem_of_edited_ids. eauto.
Qed.

(** X7 on a page just loaded, for the record 7. *)
Lemma saved_post_is_listed_until_cleared_witness :
  ∃ e1,
    saveEditedPost (Num 7) (Data (JObj {["title" := JStr "mine"]})) fresh_page
      = (Normal tt, e1) ∧
    (isPostEdited (Num 7) e1).1 = Normal true ∧
    (∃ ids e2, getEditedPostIds (H := no_coercion) e1 = (Normal ids, e2) ∧ 7%Z ∈ ids) ∧
    (isPostEdited (Num 7) (clearEditedPosts (H := no_coercion) e1).2).1 = Normal false.
Proof.
  apply (saved_post_is_listed_until_cleared (H := no_coercion) 7
           (JObj {["title" := JStr "mine"]}) fresh_page); [reflexivity | reflexivity | done].
Defined.

(** An overlay key that is not the one [saveEditedPost] writes for its
    identifier outlives [clearEditedPosts]: [parseInt] reads [07] as 7, and
    it is the key of 7 that is removed. *)
Example clearEditedPosts_leaves_other_spellings :
  let e := with_items (insert "edited_post_07" (Text JNull)) fresh_page in
  (getEditedPostIds (H := no_coercion) e).1 = Normal [7%Z] ∧
  ls_items (clearEditedPosts (H := no_coercion) e).2 !! "edited_post_07" = Some (Text JNull).
Proof. vm_compute. split; reflexivity. Qed.

(** ** Fetching with the cache as a fallback *)

Section fallback_facts.
Context {App : Type} `{Builtins}.
Implicit Types (e : env App).

(** A request that fails logs the failure once and changes nothing else; one
    that succeeds changes nothing. *)
Lemma makeRequest_rejects url method body e err :
  (makeRequest url method body e).1 = Throw err →
  makeRequest url method body e =
    (Throw err, with_console (λ c, c ++ [(LError, "API Request failed:")]) e).
Proof.
  unfold makeRequest, fetch, response_json, console_log. unfold_M.
  destruct (network e _) as [r|err']; simpl.
  - destruct (ok r); simpl; [destruct (JSON_parse (payload r))|]; simpl; congruence.
  - congruence.
Qed.

Lemma makeRequest_resolves url method body e j :
  (makeRequest url method body e).1 = Normal j →
  makeRequest url method body e = (Normal j, e).
Proof.
  unfold makeRequest, fetch, response_json, console_log. unfold_M.
  destruct (network e _) as [r|err']; simpl.
  - destruct (ok r); simpl; [destruct (JSON_parse (payload r))|]; simpl; congruence.
  - congruence.
Qed.

(** A response whose status is not in the range 200-299. *)
Lemma makeRequest_http_error url method body e r :
  network e (mkRequest url method body) = Normal r →
  ok r = false →
  (makeRequest url method body e).1 =
    Throw (mkExn Error ("HTTP " +:+ pretty (status r) +:+ ": " +:+ statusText r)).
Proof.
  intros Hn Hok. unfold makeRequest, fetch, console_log. unfold_M. by rewrite Hn, Hok.
Qed.

Lemma getCachedPosts_empty e :
  ls_items e !! POSTS_CACHE_KEY = None →
  ∃ e', getCachedPosts e = (Normal null, e') ∧ ls_items e' = ls_items e.
Proof.
  intros Hk. unfold getCachedPosts. unfold_M.
  destruct (getItem_missing _ _ Hk) as (e' & -> & He'). simpl. eauto.
Qed.

End fallback_facts.

(** X8.  The collection [fetchPosts] resolves with, in a store that accepts
    the write, is the collection it resolves with later when the request
    fails, as long as the snapshot is still under its key, the store can be
    read and no more than an hour has passed.  The collection is a truthy
    value, as every array is. *)
Theorem fetchPosts_falls_back_on_cache `{Builtins} {App : Type}
    (posts : json) (err : exn) (e e2 : env App) :
  ls_condition e = Healthy →
  (makeRequest (BASE_URL +:+ "/posts") "GET" None e).1 = Normal posts →
  truthy posts = true →
  ls_items e2 !! POSTS_CACHE_KEY = ls_items (fetchPosts e).2 !! POSTS_CACHE_KEY →
  ls_condition e2 ≠ Unavailable →
  (now e2 ≤ now e + oneHour)%Z →
  (makeRequest (BASE_URL +:+ "/posts") "GET" None e2).1 = Throw err →
  (fetchPosts e).1 = Normal (Data posts) ∧
  (fetchPosts e2).1 = Normal (Data posts).
Proof.
  intros Hc Hreq Htruthy Hk Hc2 Ht Hfail.
  assert (fetchPosts e =
            (Normal (Data posts),
             with_items (insert POSTS_CACHE_KEY
               (Text (JObj (<["data" := posts]> {["timestamp" := JNum (now e)]})))) e))
    as Hfetch.
  { unfold fetchPosts. unfold_M. rewrite (makeRequest_resolves _ _ _ _ _ Hreq).
    by rewrite cachePosts_healthy. }
  rewrite Hfetch in Hk |- *. split; [done|]. simpl in Hk. rewrite lookup_insert_eq in Hk.
  unfold fetchPosts. unfold_M. rewrite (makeRequest_rejects _ _ _ _ _ Hfail).
  unfold console_log. simpl.
  match goal with |- context [getCachedPosts ?e1] =>
    rewrite (getCachedPosts_snapshot posts (now e) e1) by done end.
  simpl. destruct (Z.ltb_spec oneHour (now e2 - now e)); [lia|].
  simpl. by rewrite Htruthy.
Qed.

(** X8 with a collection of two records, fetched when the clock is at 0
    and asked for again half an hour later, the network being down. *)
Lemma fetchPosts_falls_back_on_cache_witness :
  let e := with_network (answering sample_posts) fresh_page in
  let e2 := with_now 1800000 (with_network offline (fetchPosts (H := no_coercion) e).2) in
  (fetchPosts (H := no_coercion) e).1 = Normal (Data sample_posts) ∧
  (fetchPosts (H := no_coercion) e2).1 = Normal (Data sample_posts).
Proof.
  intros e e2.
  apply (fetchPosts_falls_back_on_cache (H := no_coercion) sample_posts
           (mkExn TypeError "Failed to fetch") e e2);
    [reflexivity | reflexivity | reflexivity | reflexivity | discriminate
    | vm_compute; discriminate | reflexivity].
Defined.

(** X9.  When the request fails and the store holds no snapshot,
    [fetchPosts] rejects with an [Error] whose message is
    [Unable to fetch posts: ] followed by the message of the failure, for a
    response with an error status [HTTP <status>: <statusText>]; the store is
    left as it was. *)
Theorem fetchPosts_rejects_without_cache `{Builtins} {App : Type}
    (err : exn) (e : env App) :
  (makeRequest (BASE_URL +:+ "/posts") "GET" None e).1 = Throw err →
  ls_items e !! POSTS_CACHE_KEY = None →
  ∃ e',
    fetchPosts e = (Throw (mkExn Error ("Unable to fetch posts: " +:+ message err)), e') ∧
    ls_items e' = ls_items e ∧
    ∀ r, network e (mkRequest (BASE_URL +:+ "/posts") "GET" None) = Normal r →
         ok r = false →
         message err = "HTTP " +:+ pretty (status r) +:+ ": " +:+ statusText r.
Proof.
  intros Hfail Hk. unfold fetchPosts. unfold_M.
  rewrite (makeRequest_rejects _ _ _ _ _ Hfail). unfold console_log. simpl.
  match goal with |- context [getCachedPosts ?e1] =>
    destruct (getCachedPosts_empty e1) as (e' & -> & Hi); [done|] end.
  simpl. eexists. split; [reflexivity|]. split; [done|].
  intros r Hn Hok. rewrite (makeRequest_http_error _ _ _ _ r Hn Hok) in Hfail.
  by injection Hfail as <-.
Qed.

(** X9 on a page just loaded, the server answering 503. *)
Lemma fetchPosts_rejects_without_cache_witness :
  let e := with_network (λ _, Normal (mkResponse false 503 "Service Unavailable" Blank))
             fresh_page in
  ∃ e',
    fetchPosts (H := no_coercion) e =
      (Throw (mkExn Error "Unable to fetch posts: HTTP 503: Service Unavailable"), e') ∧
    ls_items e' = ls_items e.
Proof.
  intros e.
  destruct (fetchPosts_rejects_without_cache (H := no_coercion)
              (mkExn Error "HTTP 503: Service Unavailable") e eq_refl eq_refl)
    as (e' & Hrun & Hitems & _).
  by exists e'.
Defined.

Section cached_record_facts.
Context {App : Type} `{Builtins}.
Implicit Types (e : env App).

Lemma find_by_id_first (n : Z) (posts : list json) :
  Forall (λ p, p ≠ JNull) posts →
  find_by_id posts (Num n) =
    Normal (match List.find (has_number "id" n) posts with
            | Some post => Data post
            | None => Undefined
            end).
Proof.
  induction 1 as [|p posts Hp _ IH]; [done|]. simpl.
  destruct p as [|b|z|s|l|m]; try done; simpl; try apply IH.
  destruct (m !! "id") as [[|b|z|s|l|m']|]; simpl; try apply IH.
  destruct (z =? n)%Z; [done | apply IH].
Qed.

Lemma find_has_number field (n : Z) (posts : list json) post :
  List.find (has_number field n) posts = Some post → ∃ m, post = JObj m.
Proof.
  intros [_ Hp]%List.find_some. destruct post; try done. eauto.
Qed.

Lemma filter_by_userId_all (n : Z) (posts : list json) :
  Forall (λ p, p ≠ JNull) posts →
  filter_by_userId posts (Num n) = Normal (List.filter (has_number "userId" n) posts).
Proof.
  induction 1 as [|p posts Hp _ IH]; [done|]. simpl. rewrite IH.
  destruct p as [|b|z|s|l|m]; try done; simpl.
  destruct (m !! "userId") as [[|b|z|s|l|m']|]; simpl; try done.
Qed.

End cached_record_facts.

(** X10.  For an identifier that is a safe integer, which is rendered in
    decimal and which [parseInt] reads back from that rendering: when the
    request for the record fails and the store holds a snapshot no older than
    an hour, none of whose records is [null], [fetchPost] resolves with the
    first record of the snapshot whose [id] is the identifier asked for; and
    when the snapshot has no such record it rejects with an [Error] whose
    message is [Unable to fetch post: ] followed by the message of the
    failure. *)
Theorem fetchPost_takes_first_cached_record `{Builtins} {App : Type}
    (n t : Z) (posts : list json) (err : exn) (e : env App) :
  (Z.abs n < 2 ^ 53)%Z →
  parseInt_string (pretty n) = Num n →
  (makeRequest (BASE_URL +:+ "/posts/" +:+ pretty n) "GET" None e).1 = Throw err →
  ls_condition e ≠ Unavailable →
  ls_items e !! POSTS_CACHE_KEY =
    Some (Text (JObj (<["data" := JArr posts]> {["timestamp" := JNum t]}))) →
  (now e - t ≤ oneHour)%Z →
  Forall (λ p, p ≠ JNull) posts →
  (fetchPost (Num n) e).1 =
    match List.find (has_number "id" n) posts with
    | Some post => Normal (Data post)
    | None => Throw (mkExn Error ("Unable to fetch post: " +:+ message err))
    end.
Proof.
  intros _ Hread Hfail Hc Hk Ht Hposts. unfold fetchPost. unfold_M.
  unfold parseInt. change (ToString (Num n)) with (pretty n). rewrite Hread.
  rewrite (makeRequest_rejects _ _ _ _ _ Hfail). unfold console_log. simpl.
  match goal with |- context [getCachedPosts ?e1] =>
    rewrite (getCachedPosts_snapshot (JArr posts) t e1) by done end.
  simpl. destruct (Z.ltb_spec oneHour (now e - t)); [lia|]. simpl.
  rewrite find_by_id_first by done.
  destruct (List.find _ posts) as [post|] eqn:Hfind; [|done].
  apply find_has_number in Hfind as (m & ->). done.
Qed.

(** X10 on a snapshot of two records, the network being down. *)
Lemma fetchPost_takes_first_cached_record_witness :
  let e := with_network offline (cachePosts (Data sample_posts) fresh_page).2 in
  (fetchPost (H := no_coercion) (Num 2) e).1 = Normal (Data (JObj {["id" := JNum 2]})) ∧
  (fetchPost (H := no_coercion) (Num 3) e).1 =
    Throw (mkExn Error "Unable to fetch post: Failed to fetch").
Proof.
  intros e. split.
  - etrans; [apply (fetchPost_takes_first_cached_record (H := no_coercion) 2 0
             [JObj {["id" := JNum 1]}; JObj {["id" := JNum 2]}]
             (mkExn TypeError "Failed to fetch") e);
      [reflexivity | reflexivity | reflexivity | discriminate | reflexivity
      | vm_compute; discriminate | repeat constructor; discriminate] | reflexivity].
  - etrans; [apply (fetchPost_takes_first_cached_record (H := no_coercion) 3 0
             [JObj {["id" := JNum 1]}; JObj {["id" := JNum 2]}]
             (mkExn TypeError "Failed to fetch") e);
      [reflexivity | reflexivity | reflexivity | discriminate | reflexivity
      | vm_compute; discriminate | repeat constructor; discriminate] | reflexivity].
Defined.

(** X11.  For a user identifier that is a safe integer, which is rendered
    in decimal and which [parseInt] reads back from that rendering: when the
    request for the records of the user fails and the store holds a snapshot
    no older than an hour, none of whose records is [null],
    [fetchPostsByUser] resolves with the records of the snapshot whose
    [userId] is the user asked for, all of them and in the order of the
    snapshot; when there is none it does not resolve with an empty list but
    rejects, with an [Error] whose message is [Unable to fetch user posts: ]
    followed by the message of the failure. *)
Theorem fetchPostsByUser_filters_cached_records `{Builtins} {App : Type}
    (n t : Z) (posts : list json) (err : exn) (e : env App) :
  (Z.abs n < 2 ^ 53)%Z →
  parseInt_string (pretty n) = Num n →
  (makeRequest (BASE_URL +:+ "/posts?userId=" +:+ pretty n) "GET" None e).1 = Throw err →
  ls_condition e ≠ Unavailable →
  ls_items e !! POSTS_CACHE_KEY =
    Some (Text (JObj (<["data" := JArr posts]> {["timestamp" := JNum t]}))) →
  (now e - t ≤ oneHour)%Z →
  Forall (λ p, p ≠ JNull) posts →
  (fetchPostsByUser (Num n) e).1 =
    match List.filter (has_number "userId" n) posts with
    | [] => Throw (mkExn Error ("Unable to fetch user posts: " +:+ message err))
    | userPosts => Normal (Data (JArr userPosts))
    end.
Proof.
  intros _ Hread Hfail Hc Hk Ht Hposts. unfold fetchPostsByUser. unfold_M.
  unfold parseInt. change (ToString (Num n)) with (pretty n). rewrite Hread.
  rewrite (makeRequest_rejects _ _ _ _ _ Hfail). unfold console_log. simpl.
  match goal with |- context [getCachedPosts ?e1] =>
    rewrite (getCachedPosts_snapshot (JArr posts) t e1) by done end.
  simpl. destruct (Z.ltb_spec oneHour (now e - t)); [lia|]. simpl.
  rewrite filter_by_userId_all by done.
  by destruct (List.filter _ posts).
Qed.

(** X11 on a snapshot of three records by two users, the network being
    down. *)
Lemma fetchPostsByUser_filters_cached_records_witness :
  let e := with_network offline
             (cachePosts (Data (JArr [authored 1 1; authored 2 2; authored 3 1]))
                fresh_page).2 in
  (fetchPostsByUser (H := no_coercion) (Num 1) e).1 =
    Normal (Data (JArr [authored 1 1; authored 3 1])) ∧
  (fetchPostsByUser (H := no_coercion) (Num 5) e).1 =
    Throw (mkExn Error "Unable to fetch user posts: Failed to fetch").
Proof.
  intros e. split.
  - etrans; [apply (fetchPostsByUser_filters_cached_records (H := no_coercion) 1 0
             [authored 1 1; authored 2 2; authored 3 1]
             (mkExn TypeError "Failed to fetch") e);
      [reflexivity | reflexivity | reflexivity | discriminate | reflexivity
      | vm_compute; discriminate | repeat constructor; discriminate] | reflexivity].
  - etrans; [apply (fetchPostsByUser_filters_cached_records (H := no_coercion) 5 0
             [authored 1 1; authored 2 2; authored 3 1]
             (mkExn TypeError "Failed to fetch") e);
      [reflexivity | reflexivity | reflexivity | discriminate | reflexivity
      | vm_compute; discriminate | repeat constructor; discriminate] | reflexivity].
Defined.

Section merge_facts.
Context {App : Type} `{Builtins}.
Implicit Types (e : env App).

Lemma has_number_inv field (n : Z) (m : gmap string json) :
  has_number field n (JObj m) = true → m !! field = Some (JNum n).
Proof.
  simpl. destruct (m !! field) as [[|b|z|s|l|m']|]; try done.
  by intros ->%Z.eqb_eq.
Qed.

(** A record that is not [null] and whose [id] is not among the edited
    ones is mapped to itself. *)
Lemma with_edits_untouched (editedPostIds : list Z) (post : json) e :
  post ≠ JNull →
  (∀ n, has_number "id" n post = true → n ∉ editedPostIds) →
  with_edits editedPostIds post e = (Normal post, e).
Proof.
  intros Hp Hid. unfold with_edits. unfold_M.
  destruct post as [|b|z|s|l|m]; try done. simpl.
  destruct (m !! "id") as [[|b|z|s|l|m']|] eqn:Hm; try done.
  rewrite bool_decide_false; [done|]. apply Hid. simpl. rewrite Hm. apply Z.eqb_refl.
Qed.

Lemma Array_map_untouched (editedPostIds : list Z) (posts : list json) e :
  Forall (λ post, post ≠ JNull ∧
                  ∀ n, has_number "id" n post = true → n ∉ editedPostIds) posts →
  Array_map (with_edits editedPostIds) posts e = (Normal posts, e).
Proof.
  induction 1 as [|post posts [Hp Hid] _ IH]; [done|].
  cbn [Array_map]. unfold_M. rewrite with_edits_untouched by done. by rewrite IH.
Qed.

End merge_facts.

(** X12.  When none of the records fetched is [null] or has an [id] that
    [getEditedPostIds] lists, [getPostsWithEdits] resolves with the
    collection as it was fetched: the same records in the same order. *)
Theorem getPostsWithEdits_keeps_unedited_records `{Builtins} {App : Type}
    (posts : list json) (ids : list Z) (e e1 e2 : env App) :
  fetchPosts e = (Normal (Data (JArr posts)), e1) →
  getEditedPostIds e1 = (Normal ids, e2) →
  Forall (λ post, post ≠ JNull ∧ ∀ n, has_number "id" n post = true → n ∉ ids) posts →
  getPostsWithEdits e = (Normal (Data (JArr posts)), e2).
Proof.
  intros Hfetch Hids Hposts. unfold getPostsWithEdits. unfold_M.
  rewrite Hfetch, Hids. by rewrite Array_map_untouched.
Qed.

(** X12 on a collection of the records 1 and 2, the store holding an overlay
    for the record 7. *)
Lemma getPostsWithEdits_keeps_unedited_records_witness :
  let e := with_network (answering sample_posts)
             (saveEditedPost (Num 7) (Data (JObj {["title" := JStr "mine"]}))
                fresh_page).2 in
  getPostsWithEdits (H := no_coercion) e =
    (Normal (Data sample_posts), (fetchPosts (H := no_coercion) e).2).
Proof.
  intros e.
  apply (getPostsWithEdits_keeps_unedited_records (H := no_coercion)
           [JObj {["id" := JNum 1]}; JObj {["id" := JNum 2]}] [7%Z] e
           (fetchPosts (H := no_coercion) e).2 (fetchPosts (H := no_coercion) e).2);
    [reflexivity | reflexivity |].
  repeat constructor; try discriminate.
  all: intros n Hn%has_number_inv; vm_compute in Hn; injection Hn as <-;
    by intros [=]%list_elem_of_singleton.
Defined.

(** A record that is [null] makes the merge fail: reading its [id]
    raises. *)
Example getPostsWithEdits_null_record :
  (getPostsWithEdits (H := no_coercion)
     (with_network (answering (JArr [JNull])) fresh_page)).1
  = Throw (mkExn TypeError "Cannot read properties of null").
Proof. reflexivity. Qed.

(** ** Giving up on a request *)

(** X13.  [retryRequest] rejects in two ways only.  At once: the retry
    count passed was below 0, the promise of the first call was rejected,
    and the helper rejects with the same error after that one call, without
    a wait.  Or on a retry: the retry count was absent or at least 0, and a
    call of the request function after the first threw instead of returning
    a promise; the helper rejects with what it threw.  So with a count that
    is absent or at least 0, no number of rejected promises makes it
    reject. *)
Theorem retryRequest_rejects_only_at_once {App : Type}
    (requestFn : env App → attempt * env App) (maxRetries delay : option Z)
    (fuel : nat) (e : env App) (err : exn) :
  result (retryRequest fuel requestFn maxRetries delay 0 e).1 = Settled (Throw err) →
  ((∃ m, maxRetries = Some m ∧ (m < 0)%Z) ∧
   retryRequest fuel requestFn maxRetries delay 0 e =
     (mkRetryRun (Settled (Throw err)) 1, (requestFn e).2) ∧
   (requestFn e).1 = Settles (Throw err)) ∨
  ((∀ m, maxRetries = Some m → (0 ≤ m)%Z) ∧
   1 < invocations (retryRequest fuel requestFn maxRetries delay 0 e).1 ∧
   ∃ e0, requestFn e0 =
           (Throws err, (retryRequest fuel requestFn maxRetries delay 0 e).2)).
Proof.
  intros Hrun.
  destruct (decide (or_default maxRetries 3 ≤ 0)%Z) as [Hle|Hgt].
  - left. destruct fuel as [|fuel]; [done|]. simpl in Hrun |- *.
    destruct (requestFn e) as [[[value|error]|error] e1]; simpl in *; [done| |done].
    destruct (Z.leb_spec (or_default maxRetries 3) 0); [|lia].
    simpl in Hrun. injection Hrun as ->. split; [|done].
    unfold or_default in Hle. destruct maxRetries as [m|]; [|lia].
    exists m. split; [done|]. destruct (Z.eqb_spec m 0); lia.
  - right.
    assert (Hm : ∀ m, maxRetries = Some m → (0 ≤ m)%Z).
    { intros m ->. unfold or_default in Hgt. destruct (Z.eqb_spec m 0); lia. }
    split; [done|]. by apply retryRequest_rejects_later.
Qed.

(** X13 at [retryRequest(failing, -1, 1000)], which rejects at once, and at
    [retryRequest(breaking, 3, 1000)], which rejects when the second call
    throws. *)
Lemma retryRequest_rejects_only_at_once_witness :
  (((∃ m, Some (-1)%Z = Some m ∧ (m < 0)%Z) ∧
    retryRequest 5 failing (Some (-1)%Z) (Some 1000%Z) 0 fresh_page =
      (mkRetryRun (Settled (Throw (mkExn Error "boom"))) 1, (failing fresh_page).2) ∧
    (failing fresh_page).1 = Settles (Throw (mkExn Error "boom"))) ∨
   ((∀ m, Some (-1)%Z = Some m → (0 ≤ m)%Z) ∧
    1 < invocations (retryRequest 5 failing (Some (-1)%Z) (Some 1000%Z) 0 fresh_page).1 ∧
    ∃ e0, failing e0 =
            (Throws (mkExn Error "boom"),
             (retryRequest 5 failing (Some (-1)%Z) (Some 1000%Z) 0 fresh_page).2))) ∧
  (((∃ m, Some 3%Z = Some m ∧ (m < 0)%Z) ∧
    retryRequest 5 breaking (Some 3%Z) (Some 1000%Z) 0 fresh_page =
      (mkRetryRun (Settled (Throw (mkExn TypeError "request is not a function"))) 1,
       (breaking fresh_page).2) ∧
    (breaking fresh_page).1 = Settles (Throw (mkExn TypeError "request is not a function"))) ∨
   ((∀ m, Some 3%Z = Some m → (0 ≤ m)%Z) ∧
    1 < invocations (retryRequest 5 breaking (Some 3%Z) (Some 1000%Z) 0 fresh_page).1 ∧
    ∃ e0, breaking e0 =
            (Throws (mkExn TypeError "request is not a function"),
             (retryRequest 5 breaking (Some 3%Z) (Some 1000%Z) 0 fresh_page).2))).
Proof.
  split.
  - apply (retryRequest_rejects_only_at_once failing (Some (-1)%Z) (Some 1000%Z) 5
             fresh_page (mkExn Error "boom")).
    reflexivity.
  - apply (retryRequest_rejects_only_at_once breaking (Some 3%Z) (Some 1000%Z) 5
             fresh_page (mkExn TypeError "request is not a function")).
    reflexivity.
Defined.

(** X14 at [retryRequest(failing, 3, 1000)] on a page just loaded. *)
Lemma retry_never_gives_up_witness :
  result (retryRequest 10 failing (Some 3%Z) (Some 1000%Z) 0 fresh_page).1 = Unsettled ∧
  invocations (retryRequest 10 failing (Some 3%Z) (Some 1000%Z) 0 fresh_page).1 = 10.
Proof.
  apply (retry_never_gives_up failing (Some 3%Z) (Some 1000%Z) 10 fresh_page).
  - intros e0. by exists (mkExn Error "boom"), e0.
  - intros m [= <-]. lia.
Defined.

(** ** Fragments with repeated keys, and the listener *)

Section query_facts.
Context {App : Type}.
Import URI Router.
Implicit Types (s : state (App := App)) (pairs : list (string * string)).

Lemma foldl_insert_reverse pairs :
  foldl (λ (m : gmap string string) kv, <[kv.1 := kv.2]> m) ∅ pairs
  = list_to_map (reverse pairs).
Proof.
  induction pairs as [|kv pairs IH] using rev_ind; [done|].
  rewrite foldl_app, reverse_app. simpl. by rewrite IH.
Qed.

Lemma parseHash_query c path kv pairs s :
  mentions "?" (String c path) = false →
  Forall (λ kv, utf8_valid kv.1 = true ∧ utf8_valid kv.2 = true ∧
                kv.1 ≠ "__proto__") (kv :: pairs) →
  parseHash (Some (("#" +:+ String c path) +:+ "?" +:+
                     join "&" (query_piece <$> kv :: pairs))) s
  = (Normal (mkRouteInfo (String c path)
               (foldl (λ m kv, <[kv.1 := kv.2]> m) ∅ (kv :: pairs))), s).
Proof.
  intros Hq Hvalid. set (pieces := query_piece <$> kv :: pairs).
  assert (Hpieces : Forall (λ piece, mentions "&" piece = false) pieces).
  { apply Forall_fmap, Forall_forall. intros [k v] _. apply pair_plain. auto. }
  change (("#" +:+ String c path) +:+ "?" +:+ join "&" pieces)
    with (String "#" (String c (path +:+ String "?" (join "&" pieces)))).
  rewrite parseHash_unfold.
  change (String c (path +:+ String "?" ?x)) with (String c path +:+ String "?" x).
  rewrite split_app by done. rewrite split_plain by apply join_pairs_plain.
  cbn [lookup list_lookup or_string].
  destruct (join "&" pieces) as [|c' q] eqn:Hj.
  { by apply join_pairs_nonempty in Hj. }
  rewrite <- Hj. rewrite (split_join "&") by done.
  subst pieces. by rewrite (parse_params_encoded (kv :: pairs)).
Qed.

(** [parse_params] raises nothing but the [URIError] of a bad escape. *)
Lemma parse_params_URIError pieces : ∀ acc err,
  parse_params pieces acc = Throw err → err = mkExn URIError "URI malformed".
Proof.
  induction pieces as [|piece pieces IH]; intros acc err; [done|]. simpl.
  destruct (split "=" piece) as [|k [|v [|? ?]]]; try apply IH.
  unfold decodeURIComponent.
  destruct (unescape k) as [kb|]; [destruct (utf8_valid kb)|]; try by intros [= <-].
  destruct (unescape v) as [vb|]; [destruct (utf8_valid vb)|]; try by intros [= <-].
  apply IH.
Qed.

(** [parseHash] changes nothing, and raises nothing but that error. *)
Lemma parseHash_reads_only hash s :
  ∃ c, parseHash hash s = (c, s) ∧
       ∀ err, c = Throw err → err = mkExn URIError "URI malformed".
Proof.
  destruct s as [r e tr].
  unfold parseHash, get_router, lift_env, get_location_hash. unfold_M.
  cbn [env_of router_of trace].
  destruct (strip_hash (or_string hash (location_hash e))) as [|c rest]; [by eexists|].
  destruct (or_string (split "?" (String c rest) !! 1) "") as [|c' q]; [by eexists|].
  unfold liftc. destruct (parse_params _ _) as [p|err] eqn:Hp; [by eexists|].
  eexists. split; [done|]. intros err' [= <-]. by apply parse_params_URIError in Hp.
Qed.

Lemma listener_throws_only_URIError s :
  throws_only_URIError on_hashchange s ∧
  ((on_hashchange s).1 = Normal tt ↔ ∃ routeInfo, (parseHash None s).1 = Normal routeInfo).
Proof.
  unfold throws_only_URIError, on_hashchange. unfold_M.
  destruct (parseHash_reads_only None s) as ([info|err] & -> & Herr).
  - destruct (handleRouteChange_returns info s) as (s' & evs & -> & _).
    split; [left; eauto|]. simpl. split; eauto.
  - rewrite (Herr err eq_refl). split; [right; eauto|]. simpl.
    split; [done | by intros (? & ?)].
Qed.

End query_facts.

(** X15.  In a fragment whose query gives a key more than once, the last
    value wins: [parseHash] of a path followed by the pieces [key=value] of
    a list of pairs, written as [navigate] and [generateUrl] write them,
    returns the path and, for each key, the value of its last pair (the
    first one in the reversed list).  The path is not empty and has no [?];
    no key is [__proto__], which is not stored as a parameter. *)
Theorem parseHash_last_value_wins {App : Type}
    (path : string) (pairs : list (string * string)) (s : Router.state (App := App)) :
  path ≠ "" →
  URI.mentions "?" path = false →
  pairs ≠ [] →
  Forall (λ kv, URI.utf8_valid kv.1 = true ∧ URI.utf8_valid kv.2 = true ∧
                kv.1 ≠ "__proto__") pairs →
  Router.parseHash
    (Some (("#" +:+ path) +:+ "?" +:+ URI.join "&" (query_piece <$> pairs))) s
  = (Normal (Router.mkRouteInfo path (list_to_map (reverse pairs))), s).
Proof.
  intros Hpath Hq Hpairs Hvalid.
  destruct path as [|c path]; [done|]. destruct pairs as [|kv pairs]; [done|].
  by rewrite parseHash_query, foldl_insert_reverse.
Qed.

(** X15 on [#detail?id=1&tab=a%20b&id=2]. *)
Lemma parseHash_last_value_wins_witness :
  Router.parseHash (Some "#detail?id=1&tab=a%20b&id=2") (visiting "" None)
  = (Normal (Router.mkRouteInfo "detail" (<["id" := "2"]> {["tab" := "a b"]})),
     visiting "" None).
Proof.
  etrans;
    [apply (parseHash_last_value_wins "detail" [("id", "1"); ("tab", "a b"); ("id", "2")]
              (visiting "" None));
       [discriminate | reflexivity | discriminate
       | repeat constructor; discriminate]
    | reflexivity].
Defined.

(** X16.  The listener that [init] registers, [init] itself and [refresh]
    throw nothing but a [URIError], and when they throw the router has done
    nothing; they throw exactly when the fragment at hand has an escape
    [decodeURIComponent] rejects, the change itself being handled without an
    error escaping. *)
Theorem listener_throws_only_for_bad_escape {App : Type} (s : Router.state (App := App)) :
  throws_only_URIError Router.on_hashchange s ∧
  throws_only_URIError Router.init s ∧
  throws_only_URIError Router.refresh s ∧
  ((Router.on_hashchange s).1 = Normal tt ↔
   ∃ routeInfo, (Router.parseHash None s).1 = Normal routeInfo).
Proof.
  destruct (listener_throws_only_URIError s) as [Hthrows Hiff].
  repeat split; try exact Hthrows; apply Hiff.
Qed.

(** ** Paths that are no routes, and parameters of the current route *)

Section member_facts.
Context {App : Type}.
Import Router.
Implicit Types (s : state (App := App)) (e : env App).





End member_facts.



Section param_facts.
Context {App : Type}.
Import URI Router.
Implicit Types (s : state (App := App)) (e : env App).




End param_facts.



(** A parameter named [hasOwnProperty] hides the method [getParam] calls,
    and [getParam] throws. *)
Example getParam_hidden_method :
  let s := (Router.on_hashchange (visiting "#login?hasOwnProperty=1" None)).2 in
  Router.current_path <$> Router.currentRoute (Router.router_of s) = Some "login" ∧
  Router.getParam "id" Undefined (Router.router_of s)
    = Throw (mkExn TypeError "params.hasOwnProperty is not a function").
Proof. split; reflexivity. Qed.

(** ** The helpers *)

Section escape_facts.
Import Helpers.

Lemma entity_cases c :
  (c = code "&" ∧ entity c = code "&" :: lit "amp;") ∨
  (c = code "<" ∧ entity c = code "&" :: lit "lt;") ∨
  (c = code ">" ∧ entity c = code "&" :: lit "gt;") ∨
  (c = 34%N ∧ entity c = code "&" :: lit "quot;") ∨
  (c = code "'" ∧ entity c = code "&" :: lit "#039;") ∨
  (c ≠ code "&" ∧ (c ∉ markup) ∧ entity c = [c]).
Proof.
  unfold entity.
  destruct (N.eqb_spec c (code "&")); [by left|].
  destruct (N.eqb_spec c (code "<")); [by right; left|].
  destruct (N.eqb_spec c (code ">")); [by right; right; left|].
  destruct (N.eqb_spec c 34); [by right; right; right; left|].
  destruct (N.eqb_spec c (code "'")); [by right; right; right; right; left|].
  do 5 right. split; [done|]. split; [|done]. unfold markup.
  intros Hin. repeat (apply elem_of_cons in Hin as [Hin|Hin]; [done|]).
  by apply elem_of_nil in Hin.
Qed.

Lemma entity_tail_inert tail : tail ∈ entity_tails → Forall (λ c, (c ∉ markup) ∧ c ≠ code "&") tail.
Proof.
  unfold entity_tails. intros Hin.
  repeat (apply elem_of_cons in Hin as [->|Hin];
          [repeat constructor; try discriminate;
           unfold markup; intros Hm;
           repeat (apply elem_of_cons in Hm as [Hm|Hm]; [discriminate|]);
           by apply elem_of_nil in Hm|]).
  by apply elem_of_nil in Hin.
Qed.

(** Each character becomes itself, when it is none of the five, or an
    ampersand and the tail of an entity. *)
Lemma entity_shape c :
  (c ≠ code "&" ∧ (c ∉ markup) ∧ entity c = [c]) ∨
  (∃ tail, tail ∈ entity_tails ∧ entity c = code "&" :: tail).
Proof.
  unfold entity_tails.
  destruct (entity_cases c) as [[_ ->]|[[_ ->]|[[_ ->]|[[_ ->]|[[_ ->]|?]]]]]; [..|by left];
    right; eexists; (split; [|reflexivity]).
  - by left.
  - by right; left.
  - by right; right; left.
  - by right; right; right; left.
  - by right; right; right; right; left.
Qed.

Lemma cut_after_prefix (x : N) (tail rest : ustring) : ∀ pre post,
  Forall (λ c, c ≠ x) tail →
  pre ++ x :: post = tail ++ rest →
  ∃ pre', pre = tail ++ pre' ∧ pre' ++ x :: post = rest.
Proof.
  induction tail as [|t tail IH]; intros pre post Htail Heq; [by exists pre|].
  apply Forall_cons in Htail as [Ht Htail].
  destruct pre as [|p pre]; simpl in Heq; injection Heq as Hhead Heq; [congruence|].
  subst p. destruct (IH pre post Htail Heq) as (pre' & -> & Hrest). by exists pre'.
Qed.

Lemma flat_map_entity_inert (s : ustring) :
  Forall (λ c, c ∉ markup) (flat_map entity s).
Proof.
  induction s as [|c s IH]; [constructor|]. simpl. apply Forall_app. split; [|done].
  destruct (entity_shape c) as [(_ & Hc & ->) | (tail & Htail & ->)].
  - by constructor.
  - constructor.
    + unfold markup. intros Hm.
      repeat (apply elem_of_cons in Hm as [Hm|Hm]; [discriminate|]).
      by apply elem_of_nil in Hm.
    + eapply Forall_impl; [by apply entity_tail_inert|]. by intros c' [? _].
Qed.

Lemma flat_map_entity_ampersand (s : ustring) : ∀ pre post,
  flat_map entity s = pre ++ code "&" :: post →
  ∃ tail rest, tail ∈ entity_tails ∧ post = tail ++ rest.
Proof.
  induction s as [|c s IH]; intros pre post Heq.
  { by destruct pre. }
  cbn [flat_map] in Heq.
  destruct (entity_shape c) as [(Hamp & _ & Hc) | (tail & Htail & Hc)]; rewrite Hc in Heq.
  - destruct pre as [|p pre]; cbn [app] in Heq; injection Heq as Hhead Heq; [done|].
    by apply (IH pre post).
  - destruct pre as [|p pre]; cbn [app] in Heq.
    + injection Heq as Heq. by exists tail, (flat_map entity s).
    + injection Heq as Hhead Heq. symmetry in Heq.
      apply cut_after_prefix in Heq as (pre' & _ & Heq).
      * by apply (IH pre' post).
      * eapply Forall_impl; [by apply entity_tail_inert|]. by intros c' [_ ?].
Qed.

Lemma flat_map_entity_plain (s : ustring) :
  Forall (λ c, (c ∉ markup) ∧ c ≠ code "&") s → flat_map entity s = s.
Proof.
  induction 1 as [|c s [Hc Hamp] _ IH]; [done|]. simpl. rewrite IH.
  destruct (entity_shape c) as [(_ & _ & ->) | (tail & Htail & Hentity)]; [done|].
  exfalso. destruct (entity_cases c) as [[-> _]|[[-> _]|[[-> _]|[[-> _]|[[-> _]|(_ & _ & Hplain)]]]]].
  - by apply Hamp.
  - apply Hc. by left.
  - apply Hc. right. by left.
  - apply Hc. do 2 right. by left.
  - apply Hc. do 3 right. by left.
  - rewrite Hplain in Hentity. injection Hentity as Hhead _. by apply Hamp.
Qed.

End escape_facts.

(** X19.  What [escapeHtml] returns, for any argument, has no [<], no [>]
    and no quote of either kind, and each ampersand in it starts one of the
    five entities the function writes; a text with none of the five
    characters is returned as it is. *)
Theorem escapeHtml_leaves_no_markup (text : Helpers.value) :
  Forall (λ c, c ∉ markup) (Helpers.escapeHtml text) ∧
  (∀ pre post,
     Helpers.escapeHtml text = pre ++ Helpers.code "&" :: post →
     ∃ tail rest, tail ∈ entity_tails ∧ post = tail ++ rest) ∧
  (∀ s, text = Helpers.VString s →
        Forall (λ c, (c ∉ markup) ∧ c ≠ Helpers.code "&") s →
        Helpers.escapeHtml text = s).
Proof.
  unfold Helpers.escapeHtml. split; [|split].
  - destruct (Helpers.nonempty_string text); [apply flat_map_entity_inert | constructor].
  - intros pre post. destruct (Helpers.nonempty_string text).
    + apply flat_map_entity_ampersand.
    + by destruct pre.
  - intros s -> Hs. destruct s as [|c s]; [done|]. by apply flat_map_entity_plain.
Qed.

(** [escapeHtml] on a tag with an attribute and an entity. *)
Example escapeHtml_example :
  Helpers.escapeHtml (Helpers.VString (Helpers.lit "<a href='x'>&lt;</a>"))
  = Helpers.lit "&lt;a href=&#039;x&#039;&gt;&amp;lt;&lt;/a&gt;".
Proof. reflexivity. Qed.

Section truncate_facts.
Import Helpers.

Lemma truncateText_short (s : ustring) maxLength suffix :
  (Z.of_nat (length s) ≤ or_default maxLength 100)%Z →
  truncateText (VString s) maxLength suffix = s.
Proof.
  intros Hs. unfold truncateText. destruct s as [|c s]; [done|]. simpl nonempty_string.
  cbv beta iota zeta. by destruct (Z.leb_spec (Z.of_nat (length (c :: s))) (or_default maxLength 100)); [|lia].
Qed.

Lemma truncateText_long (s : ustring) maxLength suffix :
  (0 ≤ or_default maxLength 100 < Z.of_nat (length s))%Z →
  truncateText (VString s) maxLength suffix =
    take (Z.to_nat (or_default maxLength 100 - Z.of_nat (length (or_text suffix (lit "...")))))
         s ++ or_text suffix (lit "...").
Proof.
  intros Hs. unfold truncateText, substring_to.
  destruct s as [|c s]; [simpl in Hs; lia|].
  simpl nonempty_string. cbv beta iota zeta.
  by destruct (Z.leb_spec (Z.of_nat (length (c :: s))) (or_default maxLength 100)); [lia|].
Qed.

End truncate_facts.

(** X20.  With a length limit (100 when absent or 0) at least as long as
    the suffix (three dots when absent or empty), [truncateText] never
    returns more characters than the limit: a text within the limit is
    returned as it is, and a longer one is cut to exactly the limit, the
    suffix taking the place of the last characters kept. *)
Theorem truncateText_keeps_to_the_limit
    (s : Helpers.ustring) (maxLength : option Z) (suffix : option Helpers.ustring) :
  (Z.of_nat (length (Helpers.or_text suffix (Helpers.lit "..."))) ≤ or_default maxLength 100)%Z →
  (Z.of_nat (length (Helpers.truncateText (Helpers.VString s) maxLength suffix))
     ≤ or_default maxLength 100)%Z ∧
  ((Z.of_nat (length s) ≤ or_default maxLength 100)%Z →
   Helpers.truncateText (Helpers.VString s) maxLength suffix = s) ∧
  ((or_default maxLength 100 < Z.of_nat (length s))%Z →
   ∃ kept,
     Helpers.truncateText (Helpers.VString s) maxLength suffix =
       kept ++ Helpers.or_text suffix (Helpers.lit "...") ∧
     kept `prefix_of` s ∧
     Z.of_nat (length (Helpers.truncateText (Helpers.VString s) maxLength suffix))
       = or_default maxLength 100).
Proof.
  intros Hsuffix.
  assert (Hlong : (or_default maxLength 100 < Z.of_nat (length s))%Z →
    ∃ kept,
      Helpers.truncateText (Helpers.VString s) maxLength suffix =
        kept ++ Helpers.or_text suffix (Helpers.lit "...") ∧
      kept `prefix_of` s ∧
      Z.of_nat (length (Helpers.truncateText (Helpers.VString s) maxLength suffix))
        = or_default maxLength 100).
  { intros Hs. rewrite truncateText_long by lia. eexists. split; [reflexivity|].
    split; [apply prefix_take|]. rewrite length_app, length_take. lia. }
  split; [|split; [by apply truncateText_short | done]].
  destruct (Z.le_gt_cases (Z.of_nat (length s)) (or_default maxLength 100)) as [Hs|Hs].
  - by rewrite truncateText_short.
  - destruct (Hlong ltac:(lia)) as (_ & _ & _ & ->). lia.
Qed.

(** X20 on a text of ten characters and a limit of eight. *)
Lemma truncateText_keeps_to_the_limit_witness :
  Helpers.truncateText (Helpers.VString (Helpers.lit "abcdefghij")) (Some 8%Z) None
    = Helpers.lit "abcde..." ∧
  Helpers.truncateText (Helpers.VString (Helpers.lit "abcdefgh")) (Some 8%Z) None
    = Helpers.lit "abcdefgh".
Proof.
  destruct (truncateText_keeps_to_the_limit (Helpers.lit "abcdefghij") (Some 8%Z) None)
    as (_ & _ & Hlong); [vm_compute; discriminate|].
  destruct (truncateText_keeps_to_the_limit (Helpers.lit "abcdefgh") (Some 8%Z) None)
    as (_ & Hshort & _); [vm_compute; discriminate|].
  split; [reflexivity|]. apply Hshort. vm_compute. discriminate.
Defined.

(** With a limit shorter than the suffix the result is the suffix alone,
    which is longer than the limit. *)
Example truncateText_short_limit :
  Helpers.truncateText (Helpers.VString (Helpers.lit "abcdef")) (Some 2%Z) None
  = Helpers.lit "...".
Proof. reflexivity. Qed.

Section hash_facts.
Import Helpers.
Local Open Scope Z_scope.

Lemma ToInt32_range z : - 2 ^ 31 ≤ ToInt32 z < 2 ^ 31.
Proof.
  unfold ToInt32. pose proof (Z.mod_pos_bound (z + 2 ^ 31) (2 ^ 32) eq_refl). lia.
Qed.

Lemma ToInt32_small z : - 2 ^ 31 ≤ z < 2 ^ 31 → ToInt32 z = z.
Proof. intros Hz. unfold ToInt32. rewrite Z.mod_small; lia. Qed.

Lemma ToInt32_multiple z k : ToInt32 (z + k * 2 ^ 32) = ToInt32 z.
Proof.
  unfold ToInt32. replace (z + k * 2 ^ 32 + 2 ^ 31) with (z + 2 ^ 31 + k * 2 ^ 32) by lia.
  by rewrite Z_mod_plus_full.
Qed.

Lemma ToInt32_wraps z : ∃ k, ToInt32 z = z + k * 2 ^ 32.
Proof.
  exists (- ((z + 2 ^ 31) / 2 ^ 32)). unfold ToInt32.
  pose proof (Z.div_mod (z + 2 ^ 31) (2 ^ 32) ltac:(lia)). lia.
Qed.

Lemma band_diag z : band z z = ToInt32 z.
Proof.
  unfold band. rewrite Z.land_diag. apply ToInt32_small, ToInt32_range.
Qed.

(** One turn of the loop multiplies by 31 and adds the character, modulo
    [2^32]. *)
Lemma next_hash_wraps (exact : Z) (char : N) :
  next_hash (ToInt32 exact) char = ToInt32 (31 * exact + Z.of_N char).
Proof.
  unfold next_hash. cbv zeta. rewrite band_diag. unfold shl.
  rewrite Z.shiftl_mul_pow2 by lia.
  rewrite (ToInt32_small (ToInt32 exact)) by apply ToInt32_range.
  destruct (ToInt32_wraps exact) as (k0 & ->).
  destruct (ToInt32_wraps ((exact + k0 * 2 ^ 32) * 2 ^ 5)) as (k1 & ->).
  replace ((exact + k0 * 2 ^ 32) * 2 ^ 5 + k1 * 2 ^ 32 - (exact + k0 * 2 ^ 32) + Z.of_N char)
    with (31 * exact + Z.of_N char + (31 * k0 + k1) * 2 ^ 32) by lia.
  apply ToInt32_multiple.
Qed.

Lemma foldl_cons_eq {A B} (f : A → B → A) (a : A) (b : B) (l : list B) :
  foldl f a (b :: l) = foldl f (f a b) l.
Proof. reflexivity. Qed.

Lemma simpleHash_loop_polynomial (s : ustring) : ∀ exact,
  simpleHash_loop s (ToInt32 exact) =
    ToInt32 (foldl (λ hash char, 31 * hash + Z.of_N char) exact s).
Proof.
  unfold simpleHash_loop.
  induction s as [|char s IH]; intros exact; [reflexivity|].
  rewrite !foldl_cons_eq, next_hash_wraps. apply IH.
Qed.

End hash_facts.

(** X21.  The loop of [simpleHash], with its shift, its subtraction and its
    [hash & hash], computes the polynomial hash with the multiplier 31
    wrapped to the signed 32-bit range; the result of [simpleHash] on a
    string that is not empty is the absolute value of that number written in
    base 36, and on any other argument it is the empty string. *)
Theorem simpleHash_is_the_polynomial_hash (s : Helpers.ustring) :
  Helpers.simpleHash_loop s 0 = Helpers.ToInt32 (polynomial31 s) ∧
  (- 2 ^ 31 ≤ Helpers.simpleHash_loop s 0 < 2 ^ 31)%Z ∧
  Helpers.simpleHash (Helpers.VString s) =
    match s with
    | [] => []
    | _ => Helpers.toString36 (Z.abs (Helpers.ToInt32 (polynomial31 s)))
    end.
Proof.
  assert (Helpers.simpleHash_loop s 0 = Helpers.ToInt32 (polynomial31 s)) as Hloop.
  { unfold polynomial31. rewrite <- simpleHash_loop_polynomial.
    by rewrite ToInt32_small by lia. }
  split; [done|]. split; [rewrite Hloop; apply ToInt32_range|].
  unfold Helpers.simpleHash. destruct s as [|c s]; [done|].
  simpl Helpers.nonempty_string. cbv iota beta. by rewrite Hloop.
Qed.

(** The hashes of three strings; the last wraps round. *)
Example simpleHash_examples :
  Helpers.simpleHash (Helpers.VString (Helpers.lit "a")) = Helpers.lit "2p" ∧
  Helpers.simpleHash (Helpers.VString (Helpers.lit "hello")) = Helpers.lit "1n1e4y" ∧
  Helpers.simpleHash (Helpers.VString (Helpers.lit "user_session")) = Helpers.lit "cyyvha".
Proof. vm_compute. repeat split. Qed.

Section regex_facts.
Import Helpers.

Lemma test_nil s : test [] s = true ↔ s = [].
Proof. by destruct s. Qed.

Lemma test_one class pattern s :
  test (One class :: pattern) s = true ↔
  ∃ c rest, s = c :: rest ∧ class c = true ∧ test pattern rest = true.
Proof.
  destruct s as [|c s]; simpl.
  - split; [done | by intros (? & ? & ? & _)].
  - rewrite andb_true_iff. split.
    + intros [? ?]. by exists c, s.
    + by intros (? & ? & [= <- <-] & ? & ?).
Qed.

Lemma test_many class pattern s :
  test (Many class :: pattern) s = true ↔
  ∃ run rest, s = run ++ rest ∧ run ≠ [] ∧ Forall (λ c, class c = true) run ∧
              test pattern rest = true.
Proof.
  induction s as [|c s IH].
  - split; [done|]. intros (run & rest & Heq & Hrun & _). by destruct run.
  - change (test (Many class :: pattern) (c :: s))
      with (class c && (test pattern s || test (Many class :: pattern) s)).
    rewrite andb_true_iff, orb_true_iff, IH. split.
    + intros [Hc [Hrest | (run & rest & -> & Hrun & Hall & Hrest)]].
      * exists [c], s. split; [done|]. split; [done|]. split; [by repeat constructor | done].
      * exists (c :: run), rest. split; [done|]. split; [done|].
        split; [by constructor | done].
    + intros ([|c' run] & rest & Heq & Hrun & Hall & Hrest); [done|].
      injection Heq as <- ->. apply Forall_cons in Hall as [Hc Hall].
      split; [done|]. destruct run as [|c'' run]; [by left|].
      right. by exists (c'' :: run), rest.
Qed.

Lemma emailRegex_matches s :
  test emailRegex s = true ↔
  ∃ name host tail,
    s = name ++ [code "@"] ++ host ++ [code "."] ++ tail ∧
    name ≠ [] ∧ host ≠ [] ∧ tail ≠ [] ∧ plain name ∧ plain host ∧ plain tail.
Proof.
  unfold emailRegex, plain. rewrite test_many. split.
  - intros (name & r1 & -> & Hname & Hn & Hr1).
    apply test_one in Hr1 as (c1 & r2 & -> & ->%N.eqb_eq & Hr2).
    apply test_many in Hr2 as (host & r3 & -> & Hhost & Hh & Hr3).
    apply test_one in Hr3 as (c2 & r4 & -> & ->%N.eqb_eq & Hr4).
    apply test_many in Hr4 as (tail & r5 & -> & Htail & Ht & ->%test_nil).
    exists name, host, tail. by rewrite app_nil_r.
  - intros (name & host & tail & -> & Hname & Hhost & Htail & Hn & Hh & Ht).
    exists name, ([code "@"] ++ host ++ [code "."] ++ tail).
    split; [done|]. split; [done|]. split; [done|].
    apply test_one. exists (code "@"), (host ++ [code "."] ++ tail).
    split; [done|]. split; [apply N.eqb_refl|].
    apply test_many. exists host, ([code "."] ++ tail).
    split; [done|]. split; [done|]. split; [done|].
    apply test_one. exists (code "."), tail.
    split; [done|]. split; [apply N.eqb_refl|].
    apply test_many. exists tail, []. by rewrite app_nil_r.
Qed.

End regex_facts.

(** X22.  [isValidEmail] accepts a string exactly when, with the white
    space at its two ends removed, it is a name, an [@], a host, a dot and a
    tail, the three of them non-empty and without any white space or [@];
    the host and the tail may contain more dots.  It accepts no argument
    that is not a string. *)
Theorem isValidEmail_accepts_exactly (email : Helpers.value) :
  Helpers.isValidEmail email = true ↔
  ∃ s name host tail,
    email = Helpers.VString s ∧
    Helpers.trim s = name ++ [Helpers.code "@"] ++ host ++ [Helpers.code "."] ++ tail ∧
    name ≠ [] ∧ host ≠ [] ∧ tail ≠ [] ∧ plain name ∧ plain host ∧ plain tail.
Proof.
  unfold Helpers.isValidEmail. split.
  - destruct email as [| | | |[|c s]| |]; try done. simpl.
    intros (name & host & tail & ?)%emailRegex_matches.
    by exists (c :: s), name, host, tail.
  - intros (s & name & host & tail & -> & Htrim & Hrest).
    destruct s as [|c s]; [by destruct name|]. simpl.
    apply emailRegex_matches. by exists name, host, tail.
Qed.

(** Addresses the expression accepts and rejects. *)
Example isValidEmail_examples :
  Helpers.isValidEmail (Helpers.VString (Helpers.lit " demo@example.com ")) = true ∧
  Helpers.isValidEmail (Helpers.VString (Helpers.lit "a@b..c")) = true ∧
  Helpers.isValidEmail (Helpers.VString (Helpers.lit "a@b")) = false ∧
  Helpers.isValidEmail (Helpers.VString (Helpers.lit "a@.c")) = false ∧
  Helpers.isValidEmail (Helpers.VString (Helpers.lit "a b@c.d")) = false ∧
  Helpers.isValidEmail (Helpers.VString (Helpers.lit "a@b@c.d")) = false.
Proof. vm_compute. repeat split. Qed.

Section validation_facts.
Import Helpers.

Lemma app_lit_nonempty (x y : ustring) : y ≠ [] → x ++ y ≠ [].
Proof. intros Hy. by destruct x, y. Qed.

Lemma or_text_nonempty (given : option ustring) (d : ustring) :
  d ≠ [] → or_text given d ≠ [].
Proof. intros Hd. by destruct given as [[|c s]|]. Qed.

(** Whether [validateField] finds valid a value that has characters. *)
Lemma validateField_characters (value : value) (s fieldName : ustring) (r : rules) :
  characters value = Some s →
  ∃ msg,
    validateField value fieldName (Some r) =
      Normal (mkValidation
                (if blank s then negb (required r)
                 else negb (below (minLength r) (length s)) &&
                      negb (above (maxLength r) (length s)) &&
                      negb (email r && negb (isValidEmail value)) &&
                      negb (mismatch (pattern r) s))
                msg) ∧
    (msg = [] ↔
     (if blank s then negb (required r)
      else negb (below (minLength r) (length s)) &&
           negb (above (maxLength r) (length s)) &&
           negb (email r && negb (isValidEmail value)) &&
           negb (mismatch (pattern r) s)) = true) ∧
    (blank s = true → required r = true → msg = fieldName ++ lit " is required").
Proof.
  intros Hs. unfold validateField. rewrite Hs.
  change (default no_rules (Some r)) with r. cbv zeta.
  destruct (blank s); [destruct (required r)|]; cbn [andb negb].
  - eexists. split; [reflexivity|]. split; [|done].
    split; [|done]. intros Hm. by apply app_lit_nonempty in Hm.
  - by eexists.
  - rewrite andb_false_r. cbv iota.
    destruct (below _ _); cbn [andb negb].
    { eexists. split; [reflexivity|]. split; [|done]. split; [|done].
      intros Hm. by apply app_lit_nonempty in Hm. }
    destruct (above _ _); cbn [andb negb].
    { eexists. split; [reflexivity|]. split; [|done]. split; [|done].
      intros Hm. by apply app_lit_nonempty in Hm. }
    destruct (email r && negb (isValidEmail value)); cbn [andb negb].
    { eexists. split; [reflexivity|]. by split. }
    destruct (mismatch _ _); cbn [andb negb].
    { eexists. split; [reflexivity|]. split; [|done]. split; [|done].
      intros Hm. apply or_text_nonempty in Hm; [done|]. by apply app_lit_nonempty. }
    by eexists.
Qed.

(** Whether [validateField] finds a string valid. *)
Lemma validateField_string (s fieldName : ustring) (r : rules) :
  ∃ msg,
    validateField (VString s) fieldName (Some r) =
      Normal (mkValidation
                (if blank s then negb (required r)
                 else negb (below (minLength r) (length s)) &&
                      negb (above (maxLength r) (length s)) &&
                      negb (email r && negb (isValidEmail (VString s))) &&
                      negb (mismatch (pattern r) s))
                msg) ∧
    (msg = [] ↔
     (if blank s then negb (required r)
      else negb (below (minLength r) (length s)) &&
           negb (above (maxLength r) (length s)) &&
           negb (email r && negb (isValidEmail (VString s))) &&
           negb (mismatch (pattern r) s)) = true) ∧
    (blank s = true → required r = true → msg = fieldName ++ lit " is required").
Proof. by apply validateField_characters. Qed.

End validation_facts.

(** X23.  [validateField] raises exactly when the value is truthy and has
    no [trim] to call, being neither a string nor a [String] object: [true],
    a number other than 0 and [NaN], an object without that method.  When it
    returns, the message is empty exactly when the verdict is valid; and for
    a value that is empty, that is falsy or blank, the verdict depends on
    [required] alone: invalid with the message [<fieldName> is required]
    when the field is required, valid otherwise, whatever the other rules
    say. *)
Theorem validateField_verdicts
    (value : Helpers.value) (fieldName : Helpers.ustring) (rules : option Helpers.rules) :
  ((∃ err, Helpers.validateField value fieldName rules = Throw err) ↔
   Helpers.truthy value = true ∧ Helpers.characters value = None) ∧
  (∀ v, Helpers.validateField value fieldName rules = Normal v →
        (Helpers.isValid v = true ↔ Helpers.message v = []) ∧
        (empty_value value = true →
         v = if Helpers.required (default Helpers.no_rules rules)
             then Helpers.mkValidation false (fieldName ++ Helpers.lit " is required")
             else Helpers.mkValidation true [])).
Proof.
  destruct (Helpers.characters value) as [s|] eqn:Hs.
  - destruct (validateField_characters value s fieldName (default Helpers.no_rules rules) Hs)
      as (msg & Hrun & Hmsg & Hblank).
    assert (Helpers.validateField value fieldName rules =
            Helpers.validateField value fieldName
              (Some (default Helpers.no_rules rules))) as -> by by destruct rules.
    rewrite Hrun. split.
    + split; [by intros [? ?] | by intros [_ ?]].
    + intros v [= <-]. simpl. split; [by rewrite Hmsg|].
      unfold empty_value. rewrite Hs. intros Hempty. rewrite Hempty in *.
      destruct (Helpers.required _); simpl; [by rewrite Hblank | f_equal; by apply Hmsg].
  - unfold Helpers.validateField, empty_value. rewrite Hs. cbv zeta. split.
    + destruct (Helpers.truthy value); split; eauto; [by intros [? ?] | by intros [? _]].
    + intros v Hv. destruct (Helpers.truthy value) eqn:Ht; [done|]. injection Hv as <-.
      split.
      * destruct (Helpers.required _); simpl; split; try done.
        intros Hm. by apply app_lit_nonempty in Hm.
      * done.
Qed.

(** A blank company code is not asked for its length; a short one is, its
    white space counted. *)
Example validateField_examples :
  let rules := Some (Helpers.mkRules false (Some 2%Z) None false None None) in
  Helpers.validateField (Helpers.VString (Helpers.lit "  ")) (Helpers.lit "Company Code") rules
    = Normal (Helpers.mkValidation true []) ∧
  Helpers.validateField (Helpers.VString (Helpers.lit "a")) (Helpers.lit "Company Code") rules
    = Normal (Helpers.mkValidation false
                (Helpers.lit "Company Code must be at least 2 characters long")) ∧
  Helpers.validateField (Helpers.VString (Helpers.lit " a")) (Helpers.lit "Company Code") rules
    = Normal (Helpers.mkValidation true []) ∧
  Helpers.validateField (Helpers.VNumber (Num 5)) (Helpers.lit "Company Code") rules
    = Throw (mkExn TypeError "value.trim is not a function").
Proof. vm_compute. repeat split. Qed.

(** A [String] object has a [trim] to call and is measured like a string,
    but it is no string for [isValidEmail]. *)
Example validateField_String_object :
  let address := Helpers.lit "demo@example.com" in
  let rules := Some (Helpers.mkRules true None None true None None) in
  Helpers.validateField (Helpers.VString address) (Helpers.lit "Email") rules
    = Normal (Helpers.mkValidation true []) ∧
  Helpers.validateField (Helpers.VStringObject address) (Helpers.lit "Email") rules
    = Normal (Helpers.mkValidation false (Helpers.lit "Please enter a valid email address")) ∧
  Helpers.validateField (Helpers.VStringObject (Helpers.lit " ")) (Helpers.lit "Email") rules
    = Normal (Helpers.mkValidation false (Helpers.lit "Email is required")).
Proof. vm_compute. repeat split. Qed.

(** ** The login form *)

Section form_facts.
Import Helpers.

Lemma shown_empty (ok : bool) (msg : ustring) :
  (msg = [] ↔ ok = true) →
  LoginViewModel.shown (mkValidation ok msg) = [] ↔ ok = true.
Proof. unfold LoginViewModel.shown. simpl. intros Hmsg. by destruct ok. Qed.

Lemma blank_is_no_email (s : ustring) : blank s = true → isValidEmail (VString s) = false.
Proof.
  unfold blank, isValidEmail. destruct (trim s) eqn:Htrim; [|done]. intros _.
  destruct s; [done|]. simpl. by rewrite Htrim.
Qed.

Lemma validatePassword_valid (s : ustring) :
  isValid (validatePassword (VString s)) = true ↔ 6 ≤ length s.
Proof.
  unfold validatePassword. destruct s as [|c s]; simpl; [lia|].
  destruct (Nat.ltb_spec (S (length s)) 6); simpl; split; (done || lia).
Qed.

Lemma validatePassword_message (s : ustring) :
  message (validatePassword (VString s)) = [] ↔ isValid (validatePassword (VString s)) = true.
Proof.
  unfold validatePassword. destruct s as [|c s]; simpl; [done|].
  by destruct (Nat.ltb_spec (S (length s)) 6).
Qed.

End form_facts.

(** X24.  On a form whose four fields hold strings, [validateForm] never
    throws, leaves the fields and the loading flag alone, and runs all four
    validators whatever the earlier ones found.  Afterwards the error of the
    company code is empty exactly when the code is not blank and has at least
    two characters; that of the region when the region is not blank; that of
    the e-mail address when [isValidEmail] accepts it; that of the password
    when it has at least six characters.  The form is accepted exactly when
    the four errors are empty. *)
Theorem validateForm_accepts_exactly
    (code region email password e1 e2 e3 e4 : Helpers.ustring) (loading : bool) :
  ∃ accepted msg1 msg2 msg3 msg4,
    LoginViewModel.validateForm
      (LoginViewModel.mkForm (Helpers.VString code) (Helpers.VString region)
         (Helpers.VString email) (Helpers.VString password) loading e1 e2 e3 e4)
    = (Normal accepted,
       LoginViewModel.mkForm (Helpers.VString code) (Helpers.VString region)
         (Helpers.VString email) (Helpers.VString password) loading msg1 msg2 msg3 msg4) ∧
    (msg1 = [] ↔ Helpers.blank code = false ∧ 2 ≤ length code) ∧
    (msg2 = [] ↔ Helpers.blank region = false) ∧
    (msg3 = [] ↔ Helpers.isValidEmail (Helpers.VString email) = true) ∧
    (msg4 = [] ↔ 6 ≤ length password) ∧
    (accepted = true ↔ msg1 = [] ∧ msg2 = [] ∧ msg3 = [] ∧ msg4 = []).
Proof.
  unfold LoginViewModel.validateForm, LoginViewModel.validateCompanyCode,
    LoginViewModel.validateRegion, LoginViewModel.validateEmail,
    LoginViewModel.validatePassword, LoginViewModel.observe,
    LoginViewModel.set_companyCodeError, LoginViewModel.set_regionError,
    LoginViewModel.set_emailError, LoginViewModel.set_passwordError.
  unfold_M. cbn [LoginViewModel.companyCode LoginViewModel.region LoginViewModel.email
                 LoginViewModel.password].
  destruct (validateField_string code (Helpers.lit "Company Code")
              (Helpers.mkRules true (Some 2%Z) None false None None))
    as (m1 & -> & Hm1 & _).
  cbn [LoginViewModel.companyCode LoginViewModel.region LoginViewModel.email
       LoginViewModel.password LoginViewModel.isLoading LoginViewModel.companyCodeError
       LoginViewModel.regionError LoginViewModel.emailError LoginViewModel.passwordError
       Helpers.isValid].
  destruct (validateField_string region (Helpers.lit "Region")
              (Helpers.mkRules true None None false None None))
    as (m2 & -> & Hm2 & _).
  cbn [LoginViewModel.companyCode LoginViewModel.region LoginViewModel.email
       LoginViewModel.password LoginViewModel.isLoading LoginViewModel.companyCodeError
       LoginViewModel.regionError LoginViewModel.emailError LoginViewModel.passwordError
       Helpers.isValid].
  destruct (validateField_string email (Helpers.lit "Email")
              (Helpers.mkRules true None None true None None))
    as (m3 & -> & Hm3 & _).
  cbn [LoginViewModel.companyCode LoginViewModel.region LoginViewModel.email
       LoginViewModel.password LoginViewModel.isLoading LoginViewModel.companyCodeError
       LoginViewModel.regionError LoginViewModel.emailError LoginViewModel.passwordError
       Helpers.isValid].
  do 5 eexists. split; [reflexivity|].
  pose proof (shown_empty _ _ Hm1) as H1. pose proof (shown_empty _ _ Hm2) as H2.
  pose proof (shown_empty _ _ Hm3) as H3.
  pose proof (validatePassword_valid password) as H4.
  assert (LoginViewModel.shown (Helpers.validatePassword (Helpers.VString password)) = []
          ↔ Helpers.isValid (Helpers.validatePassword (Helpers.VString password)) = true)
    as H4'.
  { unfold LoginViewModel.shown. destruct (Helpers.isValid _) eqn:Hv; [done|].
    rewrite validatePassword_message. by rewrite Hv. }
  cbn [Helpers.required Helpers.minLength Helpers.maxLength Helpers.email Helpers.pattern
       Helpers.below Helpers.above Helpers.mismatch negb andb] in *.
  rewrite ?andb_true_r in *.
  split; [|split; [|split; [|split]]].
  - rewrite H1. destruct (Helpers.blank code); [by split; [|intros [? _]]|].
    rewrite negb_true_iff. change (2 =? 0)%Z with false. cbn [negb andb].
    destruct (Z.ltb_spec (Z.of_nat (length code)) 2); split; (done || (intros; split; (done || lia)) || (intros [_ ?]; lia)).
  - rewrite H2. by destruct (Helpers.blank region).
  - rewrite H3. destruct (Helpers.blank email) eqn:Hb.
    + rewrite blank_is_no_email by done. done.
    + by rewrite negb_involutive.
  - by rewrite H4', H4.
  - rewrite !andb_true_iff, H1, H2, H3, H4'. tauto.
Qed.

(** The form as [demoLogin] fills it is accepted, and a form with a blank
    region and a short password gets both errors. *)
Example validateForm_examples :
  LoginViewModel.validateForm demo_form = (Normal true, demo_form) ∧
  LoginViewModel.validateForm
    (LoginViewModel.mkForm
       (Helpers.VString (Helpers.lit "DEMO123")) (Helpers.VString (Helpers.lit " "))
       (Helpers.VString (Helpers.lit "demo@example.com"))
       (Helpers.VString (Helpers.lit "demo")) false [] [] [] [])
  = (Normal false,
     LoginViewModel.mkForm
       (Helpers.VString (Helpers.lit "DEMO123")) (Helpers.VString (Helpers.lit " "))
       (Helpers.VString (Helpers.lit "demo@example.com"))
       (Helpers.VString (Helpers.lit "demo")) false
       [] (Helpers.lit "Region is required") []
       (Helpers.lit "Password must be at least 6 characters long")).
Proof. vm_compute. split; reflexivity. Qed.

(** ** The count of posts by user *)

Section tally_facts.
Context `{Builtins}.
Import AnalyticsViewModel.











End tally_facts.



(** A user named after a member plain objects inherit is counted wrongly:
    the first post stores [NaN], and the count starts at the second. *)
Example post_counts_inherited_member :
  let post := JObj {["userId" := JStr "constructor"]} in
  (AnalyticsViewModel.userPostCounts <$>
     match AnalyticsViewModel.count_by_user (H := no_coercion) [post] with
     | Normal statistics => Some statistics
     | Throw _ => None
     end) = Some {["constructor" := NaN]} ∧
  (AnalyticsViewModel.userPostCounts <$>
     match AnalyticsViewModel.count_by_user (H := no_coercion) [post; post; post] with
     | Normal statistics => Some statistics
     | Throw _ => None
     end) = Some {["constructor" := Num 2]}.
Proof. vm_compute. split; reflexivity. Qed.
